(** * TADbit core (src/tadbit.c): a shallow embedding and its properties

    The C functions [ml_ab], [break_in_blocks], [remove_non_local_maxima],
    [get_breakpoints] and [tadbit] are translated into Rocq functions.

    - C [int] values are integers of [Z]; the arithmetic is the mathematical
      one, which is the C one as long as no product leaves the range of
      [int] (signed overflow is undefined behaviour in C).  Division is the
      truncating [Z.quot].  The sizes that [tadbit] allocates are given
      both ways: in [Z] ([block_capacity]) and as the 32-bit expressions of
      the code evaluate ([allocated]).
    - C [double] values are IEEE 754 binary64 numbers: [spec_float] with the
      operations of the standard library instantiated at precision 53 and
      maximal exponent 1024.
    - Arrays are lists.  Every access is checked: reading or writing outside
      the array is the result [Fault] (undefined behaviour in C).
    - The [while] loops of the program (two in [ml_ab], one in
      [get_breakpoints]) have no bound.  They take an iteration budget, and
      exceeding it is the result [OutOfFuel].
    - Memory that the C code reads before writing it (stack arrays, [malloc]
      blocks) is an explicit input of the function that owns it.
    - The function [exp] of the C library is a parameter of the fitter and
      of all that calls it. *)

From Stdlib Require Import ZArith List Lia Bool.
From Stdlib Require Import Floats.SpecFloat.
Import ListNotations.
Open Scope Z_scope.

(** ** Results of a computation *)

Inductive result (A : Type) : Type :=
| Done (a : A)
| Fault
| OutOfFuel.

Arguments Done {A} a.
Arguments Fault {A}.
Arguments OutOfFuel {A}.

Definition bind {A B : Type} (r : result A) (k : A -> result B) : result B :=
  match r with
  | Done a => k a
  | Fault => Fault
  | OutOfFuel => OutOfFuel
  end.

Notation "x <- e ;; k" := (bind e (fun x => k))
  (at level 61, e at next level, right associativity).
Notation "' p <- e ;; k" := (bind e (fun x => match x with p => k end))
  (at level 61, p pattern, e at next level, right associativity).

(** ** Counted loops: [for (i = lo ; i < hi ; i++) body] *)

Fixpoint for_iter {S : Type} (cnt : nat) (i : Z) (body : Z -> S -> result S)
  (s : S) : result S :=
  match cnt with
  | O => Done s
  | Datatypes.S c => s' <- body i s ;; for_iter c (i + 1) body s'
  end.

Definition for_loop {S : Type} (lo hi : Z) (body : Z -> S -> result S)
  (s : S) : result S :=
  for_iter (Z.to_nat (hi - lo)) lo body s.

(** ** Arrays *)

Fixpoint upd {A : Type} (l : list A) (i : nat) (v : A) : list A :=
  match l, i with
  | [], _ => []
  | _ :: t, O => v :: t
  | h :: t, Datatypes.S j => h :: upd t j v
  end.

Definition len {A : Type} (l : list A) : Z := Z.of_nat (length l).

Definition rd {A : Type} (l : list A) (i : Z) : result A :=
  if 0 <=? i then
    match nth_error l (Z.to_nat i) with
    | Some x => Done x
    | None => Fault
    end
  else Fault.

Definition wr {A : Type} (l : list A) (i : Z) (v : A) : result (list A) :=
  if (0 <=? i) && (i <? len l) then Done (upd l (Z.to_nat i) v) else Fault.

(** ** Doubles *)

Definition double : Type := spec_float.

Definition prec : Z := 53.
Definition emax : Z := 1024.

Definition dadd : double -> double -> double := SFadd prec emax.
Definition dsub : double -> double -> double := SFsub prec emax.
Definition dmul : double -> double -> double := SFmul prec emax.
Definition ddiv : double -> double -> double := SFdiv prec emax.
Definition dlt : double -> double -> bool := SFltb.
Definition dgt (x y : double) : bool := SFltb y x.

Definition NAN : double := S754_nan.
Definition INFINITY : double := S754_infinity false.
Definition NEG_INFINITY : double := S754_infinity true.

(** Conversion of an [int] to a [double]. *)
Definition of_int (z : Z) : double := binary_normalize prec emax z 0 false.

Definition d0 : double := S754_zero false.
Definition d2 : double := of_int 2.

(** [#define TOLERANCE 1e-6]: the double nearest to 1e-6,
    0x1.0c6f7a0b5ed8dp-20. *)
Definition TOLERANCE : double := S754_finite false 4722366482869645 (-72).

Declare Scope double_scope.
Delimit Scope double_scope with D.
Bind Scope double_scope with double.
Infix "+" := dadd : double_scope.
Infix "-" := dsub : double_scope.
Infix "*" := dmul : double_scope.
Infix "/" := ddiv : double_scope.
Infix ">?" := dgt (at level 70, no associativity) : double_scope.
Infix "<?" := dlt (at level 70, no associativity) : double_scope.

Definition is_nan (x : double) : bool :=
  match x with
  | S754_nan => true
  | _ => false
  end.

(** ** [break_in_blocks]

    The C function stores into the three buffers [blocks[0]] (top),
    [blocks[1]] (triangular) and [blocks[2]] (bottom).  The translation takes
    the store operation as a parameter, so that the same function runs on the
    buffers and on a log of the stores it performs. *)

Inductive blk : Type := Top | Tri | Bot.

Record blocks (A : Type) : Type :=
  mkBlocks { top : list A; tri : list A; bot : list A }.

Arguments mkBlocks {A} top tri bot.
Arguments top {A} b.
Arguments tri {A} b.
Arguments bot {A} b.

Record seg (M : Type) : Type :=
  mkSeg { mem : M; top_counter : Z; tri_counter : Z; bot_counter : Z }.

Arguments mkSeg {M} mem top_counter tri_counter bot_counter.
Arguments mem {M} s.
Arguments top_counter {M} s.
Arguments tri_counter {M} s.
Arguments bot_counter {M} s.

Definition counter {M : Type} (b : blk) (s : seg M) : Z :=
  match b with
  | Top => top_counter s
  | Tri => tri_counter s
  | Bot => bot_counter s
  end.

(** The state after [blocks[b][counter++] = v], [m] being the new memory. *)
Definition bump {M : Type} (b : blk) (m : M) (s : seg M) : seg M :=
  match b with
  | Top => mkSeg m (top_counter s + 1) (tri_counter s) (bot_counter s)
  | Tri => mkSeg m (top_counter s) (tri_counter s + 1) (bot_counter s)
  | Bot => mkSeg m (top_counter s) (tri_counter s) (bot_counter s + 1)
  end.

Section Segmenter.
Context {A M : Type}.
Variable store : blk -> Z -> A -> M -> result M.

(** [for (row = lo ; row < hi ; row++) b[counter++] = mat[row+col*n];] *)
Definition copy_rows (mat : list A) (n col : Z) (b : blk) (lo hi : Z)
  (s : seg M) : result (seg M) :=
  for_loop lo hi (fun row s =>
    v <- rd mat (row + col * n) ;;
    m <- store b (counter b s) v (mem s) ;;
    Done (bump b m s)) s.

Definition break_in_blocks_with (mat : list A) (n i j : Z) (bs : M)
  : result (seg M) :=
  for_loop i (j + 1) (fun col s =>
    s <- copy_rows mat n col Top 0 i s ;;
    s <- copy_rows mat n col Tri i col s ;;
    copy_rows mat n col Bot (j + 1) n s)
  (mkSeg bs 0 0 0).

End Segmenter.

(** Stores into the buffers. *)
Definition store_buf {A : Type} (b : blk) (pos : Z) (v : A) (m : blocks A)
  : result (blocks A) :=
  match b with
  | Top => t <- wr (top m) pos v ;; Done (mkBlocks t (tri m) (bot m))
  | Tri => t <- wr (tri m) pos v ;; Done (mkBlocks (top m) t (bot m))
  | Bot => t <- wr (bot m) pos v ;; Done (mkBlocks (top m) (tri m) t)
  end.

Definition break_in_blocks {A : Type} (mat : list A) (n i j : Z)
  (bs : blocks A) : result (blocks A) :=
  s <- break_in_blocks_with store_buf mat n i j bs ;; Done (mem s).

(** The log of the stores, the latest first: block, position, value. *)
Definition store_log {A : Type} (b : blk) (pos : Z) (v : A)
  (l : list (blk * Z * A)) : result (list (blk * Z * A)) :=
  Done ((b, pos, v) :: l).

Definition break_in_blocks_log {A : Type} (mat : list A) (n i j : Z)
  : result (seg (list (blk * Z * A))) :=
  break_in_blocks_with store_log mat n i j [].

(** The matrix whose entry at index [p] is [p]: the values stored are then
    the indices read. *)
Definition index_matrix (n : Z) : list Z :=
  map Z.of_nat (seq 0 (Z.to_nat (n * n))).

(** The number of values [break_in_blocks] writes into each block. *)
Definition block_count (b : blk) (n i j : Z) : Z :=
  match b with
  | Top => i * (j - i + 1)
  | Tri => Z.quot ((j - i) * (j - i + 1)) 2
  | Bot => (n - j - 1) * (j - i + 1)
  end.

(** The capacities of the blocks of [tadbit]: the values of
    [(n+1)*(n+1)/4] and [n*(n+1)/2] in [Z].  The [int] expressions of the
    code have these values as long as no product overflows, up to
    [n = 46339] (see [allocated]). *)
Definition block_capacity (b : blk) (n : Z) : Z :=
  match b with
  | Top => Z.quot ((n + 1) * (n + 1)) 4
  | Tri => Z.quot (n * (n + 1)) 2
  | Bot => Z.quot ((n + 1) * (n + 1)) 4
  end.

(** The value of a 32-bit signed integer after wrap-around: what the usual
    compilers give where C leaves the overflow of an [int] undefined. *)
Definition wrap32 (z : Z) : Z := (z + 2147483648) mod 4294967296 - 2147483648.

(** The number of cells that [tadbit] asks for, for the block [b]: the
    expressions [(n+1)*(n+1)/4] and [n*(n+1)/2] of its calls to [malloc],
    evaluated as the code has them, in [int]. *)
Definition allocated (b : blk) (n : Z) : Z :=
  match b with
  | Top | Bot => Z.quot (wrap32 (wrap32 (n + 1) * wrap32 (n + 1))) 4
  | Tri => Z.quot (wrap32 (n * wrap32 (n + 1))) 2
  end.

(** The argument of [malloc] for the block [b]: the number of cells,
    converted to the 64-bit [size_t] and multiplied by [sizeof(double)]. *)
Definition malloc_request (b : blk) (n : Z) : Z :=
  ((allocated b n mod 18446744073709551616) * 8) mod 18446744073709551616.

(** ** [ml_ab]

    [exp] is the function of the C mathematical library; the fitter and all
    that calls it are translated for an arbitrary [exp]. *)

Record newton_state : Type :=
  mkNewton { ns_a : double; ns_b : double; ns_da : double; ns_db : double;
             ns_f : double; ns_g : double }.

Section Fitter.
Variable exp : double -> double.

(** The nested function [recompute_fg]: it reads [a], [da], [b], [db] and
    sets [f] and [g]. *)
Definition recompute_fg (k d : list double) (n : Z) (a da b db : double)
  : result (double * double) :=
  for_loop 0 n (fun i '(f, g) =>
    di <- rd d i ;;
    ki <- rd k i ;;
    let tmp := (exp (a + da + (b + db) * di) - ki)%D in
    Done ((f + tmp)%D, (g + tmp * di)%D)) (d0, d0).

(** The loop that computes [dfda], [dgda] and [dgdb]. *)
Definition derivatives (d : list double) (n : Z) (a b : double)
  : result (double * double * double) :=
  for_loop 0 n (fun i '(dfda, dgda, dgdb) =>
    di <- rd d i ;;
    let tmp := exp (a + b * di)%D in
    Done ((dfda + tmp)%D, (dgda + tmp * di)%D, (dgdb + tmp * di * di)%D))
  (d0, d0, d0).

(** [while (f*f + g*g > oldgrad) { da /= 2; db /= 2; recompute_fg(); }] *)
Fixpoint backtrack (fuel : nat) (k d : list double) (n : Z)
  (a b oldgrad da db f g : double) {struct fuel}
  : result (double * double * double * double) :=
  if (f * f + g * g >? oldgrad)%D then
    match fuel with
    | O => OutOfFuel
    | S fuel' =>
        let da := (da / d2)%D in
        let db := (db / d2)%D in
        '(f, g) <- recompute_fg k d n a da b db ;;
        backtrack fuel' k d n a b oldgrad da db f g
    end
  else Done (da, db, f, g).

(** [while ((oldgrad = f*f + g*g) > TOLERANCE) { ... }] *)
Fixpoint newton (inner fuel : nat) (k d : list double) (n : Z)
  (s : newton_state) {struct fuel} : result newton_state :=
  let oldgrad := (ns_f s * ns_f s + ns_g s * ns_g s)%D in
  if (oldgrad >? TOLERANCE)%D then
    match fuel with
    | O => OutOfFuel
    | S fuel' =>
        '(dfda, dgda, dgdb) <- derivatives d n (ns_a s) (ns_b s) ;;
        let dfdb := dgda in
        let denom := (dfdb * dgda - dfda * dgdb)%D in
        let da := ((ns_f s * dgdb - ns_g s * dfdb) / denom)%D in
        let db := ((ns_g s * dfda - ns_f s * dgda) / denom)%D in
        '(f, g) <- recompute_fg k d n (ns_a s) da (ns_b s) db ;;
        '(da, db, f, g) <-
          backtrack inner k d n (ns_a s) (ns_b s) oldgrad da db f g ;;
        newton inner fuel' k d n
          (mkNewton (ns_a s + da)%D (ns_b s + db)%D da db f g)
    end
  else Done s.

(** The log-likelihood loop at the end of [ml_ab]. *)
Definition loglik (k d : list double) (n : Z) (a b : double) : result double :=
  for_loop 0 n (fun i llik =>
    di <- rd d i ;;
    ki <- rd k i ;;
    Done (llik + (exp (a + b * di) + ki * (a + b * di)))%D) d0.

(** [ml_ab k d ab n]: the value returned and the new content of [ab].
    [fuel] bounds the iterations of each of the two [while] loops. *)
Definition ml_ab (fuel : nat) (k d : list double) (ab : double * double)
  (n : Z) : result (double * (double * double)) :=
  let a := fst ab in
  let b := snd ab in
  '(f, g) <- recompute_fg k d n a d0 b d0 ;;
  s <- newton fuel fuel k d n (mkNewton a b d0 d0 f g) ;;
  llik <- loglik k d n (ns_a s) (ns_b s) ;;
  Done (llik, (ns_a s, ns_b s)).

End Fitter.

(** ** [get_breakpoints] *)

(** An array of [n] cells set by [for (i = 0 ; i < n ; i++) t[i] = f(i)]. *)
Definition fill {A : Type} (n : Z) (f : Z -> result A) : result (list A) :=
  for_loop 0 n (fun i l => v <- f i ;; Done (l ++ [v])) [].

Record dp : Type :=
  mkDp { nbreaks : Z;
         new_breakpoint : Z;
         new_llik : list double;
         old_llik : list double;
         new_bkpt_list : list Z;
         old_bkpt_list : list Z;
         new_full_llik : double;
         old_full_llik : double }.

(** The body of the loop over the start point [i], for the end point [j]. *)
Definition dp_start (llik : list double) (n j : Z) (old : list double)
  (i : Z) (s : list double * Z) : result (list double * Z) :=
  let '(new, bp) := s in
  o <- rd old (i - 1) ;;
  l <- rd llik (i + j * n) ;;
  let tmp := (o + l)%D in
  cur <- rd new j ;;
  if (tmp >? cur)%D then
    new <- wr new j tmp ;; Done (new, i - 1)
  else Done (new, bp).

(** [if (new_llik[j] > -INFINITY) { ... }]: the update of the breakpoint
    list of the end point [j]. *)
Definition dp_update_list (n j bp : Z) (new : list double)
  (old_list new_list : list Z) : result (list Z) :=
  cur <- rd new j ;;
  if (cur >? NEG_INFINITY)%D then
    new_list <- for_loop 0 n (fun i nl =>
                  v <- rd old_list (bp + i * n) ;; wr nl (j + i * n) v)
                new_list ;;
    wr new_list (j + bp * n) 1
  else Done new_list.

(** The body of the loop over the end point [j]. *)
Definition dp_end (llik : list double) (n nb : Z) (old : list double)
  (old_list : list Z) (j : Z) (s : list double * Z * list Z)
  : result (list double * Z * list Z) :=
  let '(new, bp, new_list) := s in
  new <- wr new j NEG_INFINITY ;;
  '(new, bp) <- for_loop (3 * nb) (j - 1) (dp_start llik n j old) (new, bp) ;;
  new_list <- dp_update_list n j bp new old_list new_list ;;
  Done (new, bp, new_list).

(** The body of the [while] loop: one round of the dynamic program. *)
Definition dp_round (llik : list double) (n : Z) (s : dp) : result dp :=
  let nb := nbreaks s + 1 in
  let old_list := new_bkpt_list s in
  '(new, bp, new_list) <-
    for_loop (3 * nb + 2) n (dp_end llik n nb (old_llik s) old_list)
      (new_llik s, new_breakpoint s, new_bkpt_list s) ;;
  full <- rd new (n - 1) ;;
  Done (mkDp nb bp new new new_list old_list full (new_full_llik s)).

(** [while (old_full_llik < new_full_llik) { ... }] *)
Fixpoint dp_loop (fuel : nat) (llik : list double) (n : Z) (s : dp)
  {struct fuel} : result dp :=
  if (old_full_llik s <? new_full_llik s)%D then
    match fuel with
    | O => OutOfFuel
    | S fuel' => s' <- dp_round llik n s ;; dp_loop fuel' llik n s'
    end
  else Done s.

(** The state at the first test of the [while] loop.  [garbage] is the
    content of the array [new_llik] at its declaration. *)
Definition dp_init (llik : list double) (n : Z) (garbage : list double)
  : result dp :=
  old <- fill n (fun j => rd llik (j * n)) ;;
  let lists := repeat 0 (Z.to_nat (n * n)) in
  full <- rd old (n - 1) ;;
  Done (mkDp 0 0 garbage old lists lists full NEG_INFINITY).

Definition get_breakpoints (fuel : nat) (llik : list double) (n : Z)
  (garbage : list double) : result (list Z) :=
  s <- dp_init llik n garbage ;;
  s <- dp_loop fuel llik n s ;;
  fill n (fun i => rd (old_bkpt_list s) (n - 1 + i * n)).

(** ** [remove_non_local_maxima] and [tadbit]

    The C file calls [remove_non_local_maxima] with six arguments and uses
    [m] in its body; the translation passes the number [m] of replicates. *)

Definition iota (n : Z) : list Z := map Z.of_nat (seq 0 (Z.to_nat n)).

(** The fitting state: the block buffers [d_blk] and [k_blk], the three
    parameter pairs [ab[0]], [ab[1]], [ab[2]] and the array [llik]. *)
Record fit_state : Type :=
  mkFit { d_blk : blocks double;
          k_blk : blocks double;
          ab0 : double * double;
          ab1 : double * double;
          ab2 : double * double;
          f_llik : list double }.

Section Orchestrator.
Variable exp : double -> double.
Variable fuel : nat.

(** The first loop of [remove_non_local_maxima], body for [j]. *)
Definition forward_scan (obs : list (list double)) (dis : list double)
  (n m j : Z) (s : fit_state) : result fit_state :=
  db <- break_in_blocks dis n 0 j (d_blk s) ;;
  ll <- wr (f_llik s) j d0 ;;
  for_loop 0 m (fun k s =>
    mat <- rd obs k ;;
    kb <- break_in_blocks mat n 0 j (k_blk s) ;;
    '(l1, p1) <- ml_ab exp fuel (tri kb) (tri (d_blk s)) (ab1 s)
                   (Z.quot (j * (j + 1)) 2) ;;
    '(l2, p2) <- ml_ab exp fuel (bot kb) (bot (d_blk s)) (ab2 s)
                   ((n - j - 1) * (j + 1)) ;;
    cur <- rd (f_llik s) j ;;
    ll <- wr (f_llik s) j (cur + (l1 + l2 / d2))%D ;;
    Done (mkFit (d_blk s) kb (ab0 s) p1 p2 ll))
  (mkFit db (k_blk s) (ab0 s) (ab1 s) (ab2 s) ll).

(** The second loop of [remove_non_local_maxima], body for [j]. *)
Definition backward_scan (obs : list (list double)) (dis : list double)
  (n m j : Z) (s : fit_state) : result fit_state :=
  db <- break_in_blocks dis n j (n - 1) (d_blk s) ;;
  for_loop 0 m (fun k s =>
    mat <- rd obs k ;;
    kb <- break_in_blocks mat n j (n - 1) (k_blk s) ;;
    '(l0, p0) <- ml_ab exp fuel (top kb) (top (d_blk s)) (ab0 s)
                   (j * (n - j + 1)) ;;
    '(l1, p1) <- ml_ab exp fuel (tri kb) (tri (d_blk s)) (ab1 s)
                   (Z.quot ((n - j) * (n - j + 1)) 2) ;;
    cur <- rd (f_llik s) (j - 1) ;;
    ll <- wr (f_llik s) (j - 1) (cur + (l0 / d2 + l1))%D ;;
    Done (mkFit (d_blk s) kb p0 p1 (ab2 s) ll))
  (mkFit db (k_blk s) (ab0 s) (ab1 s) (ab2 s) (f_llik s)).

(** The two scans: the likelihood profile [llik] of the segmentations with
    one breakpoint.  [garbage] is the content of [llik] at its declaration. *)
Definition single_break_profile (obs : list (list double))
  (dis : list double) (n m : Z) (kb db : blocks double)
  (garbage : list double) : result fit_state :=
  s <- for_loop 2 n (forward_scan obs dis n m)
         (mkFit db kb (d0, d0) (d0, d0) (d0, d0) garbage) ;;
  for_loop 3 (n - 3) (backward_scan obs dis n m) s.

(** The end of [remove_non_local_maxima]: the candidates are the local
    maxima of the profile. *)
Definition mark_local_maxima (n : Z) (llik : list double) (bkpts : list Z)
  : result (list Z) :=
  bk <- wr bkpts (n - 1) 1 ;;
  bk <- for_loop 0 (n - 1) (fun i bk => wr bk i 0) bk ;;
  for_loop 3 (n - 1) (fun i bk =>
    li <- rd llik i ;;
    lp <- rd llik (i - 1) ;;
    if (li >? lp)%D then
      ln <- rd llik (i + 1) ;;
      if (li >? ln)%D then wr bk i 1 else Done bk
    else Done bk) bk.

Definition remove_non_local_maxima (obs : list (list double))
  (dis : list double) (n m : Z) (kb db : blocks double) (bkpts : list Z)
  (garbage : list double)
  : result (list Z * blocks double * blocks double) :=
  s <- single_break_profile obs dis n m kb db garbage ;;
  bk <- mark_local_maxima n (f_llik s) bkpts ;;
  Done (bk, k_blk s, d_blk s).

(** [dis[k++] = abs(i-j)] for [i] and [j] from 0 to [n-1]. *)
Definition distance_matrix (n : Z) : list double :=
  flat_map (fun i => map (fun j => of_int (Z.abs (i - j))) (iota n)) (iota n).

(** The candidate mask [bkpts] of [tadbit], with the buffers it leaves. *)
Definition candidate_mask (obs : list (list double)) (dis : list double)
  (n m fast : Z) (kb db : blocks double) (garbage : list double)
  : result (list Z * blocks double * blocks double) :=
  let bkpts := repeat 1 (Z.to_nat n) in
  if fast =? 0 then Done (bkpts, kb, db)
  else remove_non_local_maxima obs dis n m kb db bkpts garbage.

(** The body of the loop over the replicates, for the pair [(i, j)]. *)
Definition llik_replicate (obs : list (list double)) (n i j k : Z)
  (s : fit_state) : result fit_state :=
  mat <- rd obs k ;;
  kb <- break_in_blocks mat n i j (k_blk s) ;;
  '(l0, p0) <- ml_ab exp fuel (top kb) (top (d_blk s)) (ab0 s)
                 (i * (j - i + 1)) ;;
  '(l1, p1) <- ml_ab exp fuel (tri kb) (tri (d_blk s)) (ab1 s)
                 (Z.quot ((j - i) * (j - i + 1)) 2) ;;
  '(l2, p2) <- ml_ab exp fuel (bot kb) (bot (d_blk s)) (ab2 s)
                 ((n - j - 1) * (j - i + 1)) ;;
  cur <- rd (f_llik s) (i + j * n) ;;
  ll <- wr (f_llik s) (i + j * n) (cur + (l0 / d2 + l1 + l2 / d2))%D ;;
  Done (mkFit (d_blk s) kb p0 p1 p2 ll).

(** The body of the loop over [j], after the test of [bkpts[j]]. *)
Definition llik_cell (obs : list (list double)) (dis : list double)
  (n m i j : Z) (s : fit_state) : result fit_state :=
  db <- break_in_blocks dis n i j (d_blk s) ;;
  ll <- wr (f_llik s) (i + j * n) d0 ;;
  for_loop 0 m (llik_replicate obs n i j)
    (mkFit db (k_blk s) (ab0 s) (ab1 s) (ab2 s) ll).

(** The body of the loop over [i]. *)
Definition llik_row (obs : list (list double)) (dis : list double)
  (n m : Z) (bkpts : list Z) (i : Z) (s : fit_state) : result fit_state :=
  skip <- (if 0 <? i then b <- rd bkpts (i - 1) ;; Done (negb (b =? 1))
           else Done false) ;;
  if skip : bool then Done s
  else
    for_loop (i + 2) n (fun j s =>
      b <- rd bkpts j ;;
      if negb (b =? 1) then Done s else llik_cell obs dis n m i j s) s.

(** The construction of the likelihood matrix. *)
Definition likelihood_matrix (obs : list (list double)) (dis : list double)
  (n m : Z) (bkpts : list Z) (s : fit_state) : result fit_state :=
  for_loop 0 (n - 2) (llik_row obs dis n m bkpts) s.

(** [garbage_profile] and [garbage_new] are the contents of the stack arrays
    [llik] of [remove_non_local_maxima] and [new_llik] of [get_breakpoints]
    at their declarations; [kb] and [db] are the contents of the blocks
    [k_blk] and [d_blk] when [malloc] returns them. *)
Definition tadbit (obs : list (list double)) (n m fast : Z)
  (kb db : blocks double) (garbage_profile garbage_new : list double)
  : result (list Z) :=
  let dis := distance_matrix n in
  let llik := repeat NAN (Z.to_nat (n * n)) in
  '(bkpts, kb, db) <- candidate_mask obs dis n m fast kb db garbage_profile ;;
  s <- likelihood_matrix obs dis n m bkpts
         (mkFit db kb (d0, d0) (d0, d0) (d0, d0) llik) ;;
  get_breakpoints fuel (f_llik s) n garbage_new.

End Orchestrator.

(** ** A stand-in for the C library's [exp], to run the functions

    It has the values C99 (Annex F) fixes at the special arguments; at the
    other arguments it overflows to [+INFINITY] above 710, underflows to
    [+0.0] below -746 and is, in between, a polynomial approximation
    (scaling by 1024, the Taylor polynomial of degree 12, ten squarings).
    It is used to evaluate the functions on examples only: every general
    statement below holds for any function [exp]. *)

Definition d1 : double := of_int 1.

Definition exp_poly (x : double) : double :=
  let y := (x / of_int 1024)%D in
  let t := fold_right (fun j acc => (d1 + y / of_int j * acc)%D) d1
             [1; 2; 3; 4; 5; 6; 7; 8; 9; 10; 11; 12] in
  Nat.iter 10 (fun t => (t * t)%D) t.

Definition exp_c99 (x : double) : double :=
  match x with
  | S754_nan => NAN
  | S754_infinity false => INFINITY
  | S754_infinity true => d0
  | S754_zero _ => d1
  | S754_finite _ _ _ =>
      if (of_int 710 <? x)%D then INFINITY
      else if (x <? of_int (-746))%D then d0
      else exp_poly x
  end.

(** The [n] by [n] matrix of ones. *)
Definition ones (n : Z) : list double := repeat d1 (Z.to_nat (n * n)).

(** Blocks of the capacities of [tadbit], filled with [v]. *)
Definition blocks_of (n : Z) (v : double) : blocks double :=
  mkBlocks (repeat v (Z.to_nat (block_capacity Top n)))
           (repeat v (Z.to_nat (block_capacity Tri n)))
           (repeat v (Z.to_nat (block_capacity Bot n))).

(** * Vocabulary of the statements *)

(** ** Blocks and the log of the stores *)

(** The buffer of a block. *)
Definition buf {A : Type} (b : blk) (m : blocks A) : list A :=
  match b with
  | Top => top m
  | Tri => tri m
  | Bot => bot m
  end.

(** Equality of two block names, as a boolean. *)
Definition blk_eqb (a b : blk) : bool :=
  match a, b with
  | Top, Top | Tri, Tri | Bot, Bot => true
  | _, _ => false
  end.

(** The block and the position of a store. *)
Definition out_pos {A : Type} (e : blk * Z * A) : blk * Z := fst e.

(** The number of stores into the block [b]. *)
Definition count_stores {A : Type} (b : blk) (log : list (blk * Z * A)) : Z :=
  len (filter (fun e => blk_eqb (fst (out_pos e)) b) log).

(** The invariant of the log: [cnt] gives the counters, and every index read
    so far is below [next]. *)
Definition log_ok (next : Z) (cnt : blk -> Z) (log : list (blk * Z * Z)) : Prop :=
  (forall e, In e log -> 0 <= snd (out_pos e) < cnt (fst (out_pos e))) /\
  NoDup (map out_pos log) /\
  (forall e, In e log -> 0 <= snd e < next) /\
  NoDup (map snd log) /\
  (forall b, count_stores b log = cnt b).

(** The store [e'] puts, at the place of the store [e], the entry of [mat]
    whose index [e] carries. *)
Definition same_store {A : Type} (mat : list A) (e : blk * Z * Z)
  (e' : blk * Z * A) : Prop :=
  out_pos e = out_pos e' /\ rd mat (snd e) = Done (snd e').

(** The log [t] on the matrix [mat] has the stores of the log [s] on the
    index matrix, and the same counters. *)
Definition same_log {A : Type} (mat : list A) (s : seg (list (blk * Z * Z)))
  (t : seg (list (blk * Z * A))) : Prop :=
  (forall b, counter b s = counter b t) /\
  Forall2 (same_store mat) (mem s) (mem t).

(** The stores of a log applied to the buffers [bs], the oldest first. *)
Fixpoint replay {A : Type} (log : list (blk * Z * A)) (bs : blocks A)
  : result (blocks A) :=
  match log with
  | [] => Done bs
  | (b, pos, v) :: older => m <- replay older bs ;; store_buf b pos v m
  end.

(** The run [s] on the buffers and the run [t] on the log agree: the same
    counters, and the buffers of [s] are [bs] with the stores of [t]. *)
Definition replayed {A : Type} (bs : blocks A) (s : seg (blocks A))
  (t : seg (list (blk * Z * A))) : Prop :=
  (forall b, counter b s = counter b t) /\ replay (mem t) bs = Done (mem s).

(** ** Two runs in step *)

(** Two results are both normal and related by [R], or both the same
    failure. *)
Definition rel_result {S T : Type} (R : S -> T -> Prop) (r : result S)
  (r' : result T) : Prop :=
  match r, r' with
  | Done a, Done b => R a b
  | Fault, Fault => True
  | OutOfFuel, OutOfFuel => True
  | _, _ => False
  end.

(** ** The fit *)

(** The score functions of the fit, at the parameters [a] and [b]:
    [F = sum_i (exp(a+b*d_i) - k_i)] and
    [G = sum_i (exp(a+b*d_i) - k_i) * d_i]. *)
Definition score (exp : double -> double) (k d : list double) (n : Z)
  (a b : double) : result (double * double) :=
  for_loop 0 n (fun i '(f, g) =>
    di <- rd d i ;;
    ki <- rd k i ;;
    let tmp := (exp (a + b * di) - ki)%D in
    Done ((f + tmp)%D, (g + tmp * di)%D)) (d0, d0).

(** ** The order of the doubles *)

(** [key] maps the doubles that are not NaN to triples that [klt] orders
    lexicographically, as [SFcompare] orders the doubles. *)
Definition key (x : double) : Z * Z * Z :=
  match x with
  | S754_zero _ => (0, 0, 0)
  | S754_infinity false => (2, 0, 0)
  | S754_infinity true => (-2, 0, 0)
  | S754_nan => (0, 0, 0)
  | S754_finite false m e => (1, e, Z.pos m)
  | S754_finite true m e => (-1, - e, - Z.pos m)
  end.

Definition klt (p q : Z * Z * Z) : Prop :=
  fst (fst p) < fst (fst q) \/
  (fst (fst p) = fst (fst q) /\
   (snd (fst p) < snd (fst q) \/
    (snd (fst p) = snd (fst q) /\ snd p < snd q))).

(** ** The dynamic program *)

(** A breakpoint list holds zeros and ones. *)
Definition bits (l : list Z) : Prop :=
  forall p x, rd l p = Done x -> x = 0 \/ x = 1.

(** A breakpoint list has no breakpoint at the position [n-1]. *)
Definition last_row_zero (n : Z) (l : list Z) : Prop :=
  forall p, 0 <= p < n -> rd l (p + (n - 1) * n) = Done 0.

(** [t] is the candidate sum of the start point [i] for the end point [j]:
    [old_llik[i-1] + llik[i+j*n]], with [3*nb <= i < hi]. *)
Definition candidate (llik old : list double) (n nb j hi i : Z) (t : double)
  : Prop :=
  3 * nb <= i < hi /\
  exists o l, rd old (i - 1) = Done o /\ rd llik (i + j * n) = Done l /\
              t = (o + l)%D.

(** [v] is the greatest candidate sum, with the breakpoint [bp] of a start
    point that reaches it, or [-INFINITY] when no candidate sum is greater
    than [-INFINITY]. *)
Definition best (llik old : list double) (n nb j hi : Z) (v : double) (bp : Z)
  : Prop :=
  (forall i t, candidate llik old n nb j hi i t -> (t >? v)%D = false) /\
  (v = NEG_INFINITY \/
   exists i, candidate llik old n nb j hi i v /\
             (v >? NEG_INFINITY)%D = true /\ bp = i - 1).

(** The invariant of the state of the dynamic program. *)
Record dp_inv (n : Z) (s : dp) : Prop :=
  mkDpInv { inv_new : len (new_llik s) = n;
            inv_old : len (old_llik s) = n;
            inv_nl : len (new_bkpt_list s) = n * n;
            inv_ol : len (old_bkpt_list s) = n * n;
            inv_bn : bits (new_bkpt_list s);
            inv_bo : bits (old_bkpt_list s);
            inv_zn : last_row_zero n (new_bkpt_list s);
            inv_zo : last_row_zero n (old_bkpt_list s);
            inv_nb : 0 <= nbreaks s }.

(** The invariant of the [while] loop: once a round was made, the total
    score is the cell [n-1] of [new_llik]; a round that no longer reaches
    the end point [n-1] leaves the total score as it was. *)
Definition loop_inv (n : Z) (s : dp) : Prop :=
  dp_inv n s /\
  (1 <= nbreaks s -> rd (new_llik s) (n - 1) = Done (new_full_llik s)) /\
  (2 <= nbreaks s -> n - 1 < 3 * nbreaks s + 2 ->
   (old_full_llik s <? new_full_llik s)%D = false).

(** [r] executions of the body of the [while] loop. *)
Fixpoint dp_rounds (r : nat) (llik : list double) (n : Z) (s : dp)
  : result dp :=
  match r with
  | O => Done s
  | S r' => s' <- dp_round llik n s ;; dp_rounds r' llik n s'
  end.

(** The state of [get_breakpoints] after [r] rounds. *)
Definition dp_state_after (r : nat) (llik : list double) (n : Z)
  (garbage : list double) : result dp :=
  s <- dp_init llik n garbage ;; dp_rounds r llik n s.

(** [built llik n k j v]: [v] is the sum of the entry [(0, j0)] and of [k]
    further entries of the likelihood matrix, the last one ending at [j];
    no entry and no partial sum is NaN. *)
Inductive built (llik : list double) (n : Z) : Z -> Z -> double -> Prop :=
| built_first (j : Z) (v : double) :
    rd llik (j * n) = Done v -> is_nan v = false -> built llik n 0 j v
| built_next (k i j : Z) (o l : double) :
    0 <= k -> 3 * (k + 1) <= i <= j - 2 ->
    built llik n k (i - 1) o ->
    rd llik (i + j * n) = Done l -> is_nan l = false ->
    is_nan (o + l)%D = false ->
    built llik n (k + 1) j (o + l)%D.

(** What the scores of a state are built from. *)
Definition scores_built (llik : list double) (n : Z) (s : dp) : Prop :=
  (nbreaks s = 0 ->
   forall j, 0 <= j < n -> rd (old_llik s) j = rd llik (j * n)) /\
  (1 <= nbreaks s ->
   new_llik s = old_llik s /\
   forall j, 3 * nbreaks s + 2 <= j < n ->
     exists v, rd (new_llik s) j = Done v /\
               (v = NEG_INFINITY \/ built llik n (nbreaks s) j v)).

(** The greater of [t] and [acc], as the test [tmp > new_llik[j]] decides:
    [acc] is kept when [t] is not greater, so when [t] is NaN. *)
Definition greater (t acc : double) : double :=
  if (t >? acc)%D then t else acc.

(** The term of the start point [i] in the score of the end point [j]: the
    score [prev (i-1)] of the bins before [i] plus the entry [(i, j)], kept
    if it is the greater. *)
Definition score_step (llik : list double) (n j : Z)
  (prev : Z -> result double) (i : Z) (acc : double) : result double :=
  o <- prev (i - 1) ;;
  l <- rd llik (i + j * n) ;;
  Done (greater (o + l)%D acc).

(** The best score of the bins [0..j] cut by [k] breakpoints, as the
    specification words it (4.5): without breakpoint, the entry [(0, j)];
    with [k >= 1] breakpoints, the greatest, over the start points
    [3k <= i <= j-2] of the last segment, of the best score of the bins
    [0..i-1] cut by [k-1] breakpoints plus the entry [(i, j)], and
    [-INFINITY] when no such sum is greater than that. *)
Fixpoint best_score (k : nat) (llik : list double) (n j : Z) : result double :=
  match k with
  | O => rd llik (j * n)
  | S k' =>
      for_loop (3 * Z.of_nat k) (j - 1)
        (score_step llik n j (best_score k' llik n)) NEG_INFINITY
  end.


(** ** The candidate mask and the likelihood matrix *)

(** [i] is a strict local maximum of the profile [llik]. *)
Definition local_maximum (llik : list double) (i : Z) : Prop :=
  exists li lp ln,
    rd llik i = Done li /\ rd llik (i - 1) = Done lp /\
    rd llik (i + 1) = Done ln /\
    (li >? lp)%D = true /\ (li >? ln)%D = true.

(** The pairs for which an entry is computed: [i-1] and [j] are candidates,
    the index -1 counting as a candidate. *)
Definition evaluated (bkpts : list Z) (n i j : Z) : Prop :=
  0 <= i <= n - 3 /\ i + 2 <= j <= n - 1 /\
  (i = 0 \/ rd bkpts (i - 1) = Done 1) /\ rd bkpts j = Done 1.

(** The integers from [lo] up to, not including, [hi]. *)
Definition interval (lo hi : Z) : list Z :=
  map (fun k => lo + Z.of_nat k) (seq 0 (Z.to_nat (hi - lo))).

(** The pairs [(i, j)] with [0 <= i <= n-3] and [i+2 <= j <= n-1], row by
    row: the order in which [tadbit] goes through them. *)
Definition pairs (n : Z) : list (Z * Z) :=
  flat_map (fun i => map (fun j => (i, j)) (interval (i + 2) n))
           (interval 0 (n - 2)).

(** The index [p] is marked in the mask. *)
Definition marked (bkpts : list Z) (p : Z) : bool :=
  match rd bkpts p with
  | Done b => b =? 1
  | _ => false
  end.

(** The evaluated pairs, in the order of [tadbit]. *)
Definition evaluated_pairs (bkpts : list Z) (n : Z) : list (Z * Z) :=
  filter (fun p => ((fst p =? 0) || marked bkpts (fst p - 1))
                   && marked bkpts (snd p)) (pairs n).

(** A loop over the elements of a list. *)
Fixpoint fold_result {X St : Type} (l : list X) (body : X -> St -> result St)
  (s : St) : result St :=
  match l with
  | [] => Done s
  | x :: l' => s' <- body x s ;; fold_result l' body s'
  end.

Section MatrixSpec.
Variable exp : double -> double.
Variable fuel : nat.

(** The sum of a pair, as the specification words it (4.4): for each
    replicate, segment it at [(i, j)], fit the three blocks, each fit
    starting from the parameters the previous fit of the same block left,
    and accumulate [fit(top)/2 + fit(triangular) + fit(bottom)/2].
    [pair_sum_step] is the term of the replicate [k], added to [acc]. *)
Definition pair_sum_step (obs : list (list double)) (n i j k : Z)
  (x : double * fit_state) : result (double * fit_state) :=
  let '(acc, s) := x in
  mat <- rd obs k ;;
  kb <- break_in_blocks mat n i j (k_blk s) ;;
  '(l0, p0) <- ml_ab exp fuel (top kb) (top (d_blk s)) (ab0 s)
                 (block_count Top n i j) ;;
  '(l1, p1) <- ml_ab exp fuel (tri kb) (tri (d_blk s)) (ab1 s)
                 (block_count Tri n i j) ;;
  '(l2, p2) <- ml_ab exp fuel (bot kb) (bot (d_blk s)) (ab2 s)
                 (block_count Bot n i j) ;;
  Done ((acc + (l0 / d2 + l1 + l2 / d2))%D,
        mkFit (d_blk s) kb p0 p1 p2 (f_llik s)).

(** The sum over the [m] replicates, from the fitting state [s]. *)
Definition pair_sum (obs : list (list double)) (dis : list double)
  (n m i j : Z) (s : fit_state) : result double :=
  db <- break_in_blocks dis n i j (d_blk s) ;;
  '(v, _) <- for_loop 0 m (pair_sum_step obs n i j)
               (d0, mkFit db (k_blk s) (ab0 s) (ab1 s) (ab2 s) (f_llik s)) ;;
  Done v.

(** The sum of a pair from the fitting state [s], with the fitting state
    that its fits leave. *)
Definition pair_fit (obs : list (list double)) (dis : list double)
  (n m i j : Z) (s : fit_state) : result (double * fit_state) :=
  db <- break_in_blocks dis n i j (d_blk s) ;;
  for_loop 0 m (pair_sum_step obs n i j)
    (d0, mkFit db (k_blk s) (ab0 s) (ab1 s) (ab2 s) (f_llik s)).

(** The sums of the pairs [ps], one after the other, as the specification
    words the construction (4.4): the fits of a pair start from the
    parameters that the fits of the pair before left, the first ones from
    those of [s]. *)
Fixpoint pair_sums (obs : list (list double)) (dis : list double)
  (n m : Z) (ps : list (Z * Z)) (s : fit_state)
  : result (list (Z * Z * double) * fit_state) :=
  match ps with
  | [] => Done ([], s)
  | (i, j) :: ps' =>
      '(v, s1) <- pair_fit obs dis n m i j s ;;
      '(vals, s2) <- pair_sums obs dis n m ps' s1 ;;
      Done ((i, j, v) :: vals, s2)
  end.

(** [v] is the sum of the pair [(i, j)] from some fitting state. *)
Definition computed (obs : list (list double)) (dis : list double)
  (n m i j : Z) (v : double) : Prop :=
  exists s, pair_sum obs dis n m i j s = Done v.

(** The likelihood matrix when the pairs [done] have been processed. *)
Definition matrix_state (obs : list (list double)) (dis : list double)
  (n m : Z) (done : Z -> Z -> Prop) (llik : list double) : Prop :=
  len llik = n * n /\
  forall i j, 0 <= i < n -> 0 <= j < n ->
    (done i j /\ exists v, rd llik (i + j * n) = Done v /\
                           computed obs dis n m i j v) \/
    (~ done i j /\ rd llik (i + j * n) = Done NAN).

(** The state [t] of the loop of [tadbit] over the replicates, which
    accumulates in the cell [pos] of the matrix, against the state [x] of
    the loop of [pair_sum], which accumulates in [fst x]; [ll] is the
    matrix at the start of the loop. *)
Definition cell_rel (pos : Z) (ll : list double) (t : fit_state)
  (x : double * fit_state) : Prop :=
  d_blk t = d_blk (snd x) /\ k_blk t = k_blk (snd x) /\
  ab0 t = ab0 (snd x) /\ ab1 t = ab1 (snd x) /\ ab2 t = ab2 (snd x) /\
  rd (f_llik t) pos = Done (fst x) /\
  len (f_llik t) = len ll /\
  (forall p, p <> pos -> rd (f_llik t) p = rd ll p).

End MatrixSpec.

(** The matrix [llik'] holds the sums [vals] at their pairs, and what
    [llik] holds elsewhere. *)
Definition stored (n : Z) (vals : list (Z * Z * double))
  (llik llik' : list double) : Prop :=
  len llik' = len llik /\
  (forall i j v, In (i, j, v) vals -> rd llik' (i + j * n) = Done v) /\
  (forall i j, 0 <= i < n -> 0 <= j < n -> ~ In (i, j) (map fst vals) ->
     rd llik' (i + j * n) = rd llik (i + j * n)).

(** Two fitting states with the same buffers and parameters. *)
Definition same_fits (t u : fit_state) : Prop :=
  d_blk t = d_blk u /\ k_blk t = k_blk u /\
  ab0 t = ab0 u /\ ab1 t = ab1 u /\ ab2 t = ab2 u.

(** ** The footprint of the fit and the layout of the blocks *)

(** Two arrays with the same first [n] elements. *)
Definition same_prefix {A : Type} (n : Z) (l l' : list A) : Prop :=
  forall i, 0 <= i < n -> rd l i = rd l' i.

(** The entries of the matrix that go to block [b] for the segment [i..j]. *)
Definition in_block (b : blk) (n i j row col : Z) : Prop :=
  i <= col <= j /\
  match b with
  | Top => 0 <= row < i
  | Tri => i <= row < col
  | Bot => j < row < n
  end.

(** The position in its block of the entry at ([row], [col]). *)
Definition block_pos (b : blk) (n i j row col : Z) : Z :=
  match b with
  | Top => i * (col - i) + row
  | Tri => Z.quot ((col - i) * (col - i - 1)) 2 + (row - i)
  | Bot => (n - j - 1) * (col - i) + (row - (j + 1))
  end.

(** What [break_in_blocks] leaves in the buffers [bs']: every entry of the
    three regions at its position, every position below the counts filled
    by such an entry, and the rest of the buffers [bs] as it was. *)
Definition segmented {A : Type} (mat : list A) (n i j : Z)
  (bs bs' : blocks A) : Prop :=
  (forall b row col, in_block b n i j row col ->
     0 <= block_pos b n i j row col < block_count b n i j /\
     rd (buf b bs') (block_pos b n i j row col) = rd mat (row + col * n)) /\
  (forall b p, 0 <= p < block_count b n i j ->
     exists row col, in_block b n i j row col /\
                     p = block_pos b n i j row col) /\
  (forall b p, ~ 0 <= p < block_count b n i j ->
     rd (buf b bs') p = rd (buf b bs) p) /\
  (forall b, len (buf b bs') = len (buf b bs)).

(** The rows of the column [col] that go to the block [b]: from [first_row]
    up to, not including, [last_row]. *)
Definition first_row (b : blk) (i j : Z) : Z :=
  match b with Top => 0 | Tri => i | Bot => j + 1 end.

Definition last_row (b : blk) (n i col : Z) : Z :=
  match b with Top => i | Tri => col | Bot => n end.

(** ** Accesses in bounds and uninitialised memory *)

(** [r] makes no access outside an array, and its result, if it returns
    one, satisfies [Q]. *)
Definition safely {A : Type} (r : result A) (Q : A -> Prop) : Prop :=
  r <> Fault /\ forall x, r = Done x -> Q x.

(** The [m] matrices of [obs] have [n * n] entries. *)
Definition obs_ok (obs : list (list double)) (n m : Z) : Prop :=
  forall k, 0 <= k < m -> exists mat, rd obs k = Done mat /\ len mat = n * n.

(** The buffers have the capacities that [tadbit] allocates. *)
Definition roomy (n : Z) (bs : blocks double) : Prop :=
  forall b, block_capacity b n <= len (buf b bs).

(** The buffers of a fitting state are allocated, and [llik] has [L] cells. *)
Definition fit_ok (n L : Z) (s : fit_state) : Prop :=
  roomy n (d_blk s) /\ roomy n (k_blk s) /\ len (f_llik s) = L.

(** Two fitting states that differ by the contents of their buffers only. *)
Definition same_fit (n : Z) (s t : fit_state) : Prop :=
  fit_ok n (n * n) s /\ fit_ok n (n * n) t /\
  ab0 s = ab0 t /\ ab1 s = ab1 t /\ ab2 s = ab2 t /\ f_llik s = f_llik t.

(** The relation of the two runs inside the loop over the replicates: the
    distance blocks hold the same values below the counts. *)
Definition same_cell (n i j : Z) (s t : fit_state) : Prop :=
  same_fit n s t /\
  forall b, same_prefix (block_count b n i j)
              (buf b (d_blk s)) (buf b (d_blk t)).

(** ** The breakpoints returned *)

(** The breakpoints of the column [c] of a breakpoint list (the list of the
    end point [c]) lie between 2 and [c-3], and two of them are at least
    3 apart. *)
Definition spaced (n c : Z) (l : list Z) : Prop :=
  (forall p, 0 <= p < n -> rd l (c + p * n) = Done 1 -> 2 <= p <= c - 3) /\
  (forall p q, 0 <= p < n -> 0 <= q < n -> p < q ->
     rd l (c + p * n) = Done 1 -> rd l (c + q * n) = Done 1 -> p + 3 <= q).

(** Every column of a breakpoint list is spaced. *)
Definition all_spaced (n : Z) (l : list Z) : Prop :=
  forall c, 0 <= c < n -> spaced n c l.

(** Two likelihood matrices with the same entries [(i, j)], [j >= i + 2]. *)
Definition same_upper (n : Z) (llik llik' : list double) : Prop :=
  len llik = n * n /\ len llik' = n * n /\
  forall i j, 0 <= i -> i + 2 <= j < n ->
              rd llik (i + j * n) = rd llik' (i + j * n).

(** Two states of the dynamic program that differ by cells that are not read
    any more. *)
Definition same_dp (n : Z) (s t : dp) : Prop :=
  nbreaks s = nbreaks t /\ 0 <= nbreaks s /\
  new_breakpoint s = new_breakpoint t /\
  new_bkpt_list s = new_bkpt_list t /\
  old_bkpt_list s = old_bkpt_list t /\
  new_full_llik s = new_full_llik t /\
  old_full_llik s = old_full_llik t /\
  len (new_llik s) = n /\ len (new_llik t) = n /\
  len (old_llik s) = n /\ len (old_llik t) = n /\
  (forall p, 3 * nbreaks s + 2 <= p -> rd (old_llik s) p = rd (old_llik t) p) /\
  (1 <= nbreaks s -> rd (new_llik s) (n - 1) = rd (new_llik t) (n - 1)).

(** The entry [(i, j)] of the likelihood matrix is not NaN. *)
Definition scored (llik : list double) (n i j : Z) : Prop :=
  exists v, rd llik (i + j * n) = Done v /\ is_nan v = false.

(** [chained llik n j bps v]: the breakpoints [bps], the last one first, cut
    the bins [0..j] into segments of at least three bins; the entry of each
    segment in the likelihood matrix is not NaN, and [v] is the sum of these
    entries, added from the first segment on. *)
Inductive chained (llik : list double) (n : Z)
  : Z -> list Z -> double -> Prop :=
| chained_one (j : Z) (v : double) :
    rd llik (0 + j * n) = Done v -> is_nan v = false ->
    chained llik n j [] v
| chained_cut (i j : Z) (bps : list Z) (o l : double) :
    3 <= i <= j - 2 -> chained llik n (i - 1) bps o ->
    rd llik (i + j * n) = Done l -> is_nan l = false ->
    chained llik n j ((i - 1) :: bps) (o + l)%D.

(** The column [c] of the breakpoint list [l] has a 1 at the positions of
    [bps] and a 0 elsewhere. *)
Definition marks (n c : Z) (l : list Z) (bps : list Z) : Prop :=
  forall p, 0 <= p < n ->
    rd l (c + p * n) = Done (if existsb (Z.eqb p) bps then 1 else 0).

(** The breakpoints [bps] are none, or a chain that ends at [n-1] and whose
    sum is greater than the entry [(0, n-1)], the score without
    breakpoint. *)
Definition improving (llik : list double) (n : Z) (bps : list Z) : Prop :=
  bps = [] \/
  exists base v, rd llik ((n - 1) * n) = Done base /\
                 chained llik n (n - 1) bps v /\ (v >? base)%D = true.

(** The column [n-1], the one [get_breakpoints] returns, marks breakpoints
    that are none or improve the score. *)
Definition traced (llik : list double) (n : Z) (l : list Z) : Prop :=
  exists bps, marks n (n - 1) l bps /\ improving llik n bps.

(** After [nbreaks s] rounds: an end point [j] whose score is greater than
    [-INFINITY] has, in its column of the breakpoint list, a chain that ends
    at [j], and its score is the sum of the chain. *)
Definition chain_inv (llik : list double) (n : Z) (s : dp) : Prop :=
  forall j o, 3 * nbreaks s + 2 <= j < n ->
    rd (old_llik s) j = Done o -> (o >? NEG_INFINITY)%D = true ->
    exists bps, marks n j (new_bkpt_list s) bps /\ chained llik n j bps o.

(** The invariant of the [while] loop for the traceback: the list that
    would be returned is traced; before the first round the lists are empty
    and the total score is the entry [(0, n-1)]; later, a total score that
    passes the test of the loop is greater than this entry. *)
Definition trace_inv (llik : list double) (n : Z) (s : dp) : Prop :=
  loop_inv n s /\ chain_inv llik n s /\ traced llik n (old_bkpt_list s) /\
  (nbreaks s = 0 ->
   new_bkpt_list s = repeat 0 (Z.to_nat (n * n)) /\
   rd llik ((n - 1) * n) = Done (new_full_llik s)) /\
  (1 <= nbreaks s ->
   new_llik s = old_llik s /\
   ((old_full_llik s <? new_full_llik s)%D = true ->
    exists base, rd llik ((n - 1) * n) = Done base /\
                 (new_full_llik s >? base)%D = true)).

(** ** The entries of the matrices that are read *)

(** Two matrices with the same entries off the diagonal. *)
Definition same_off_diagonal (n : Z) (mat mat' : list double) : Prop :=
  forall row col, 0 <= row < n -> 0 <= col < n -> row <> col ->
    rd mat (row + col * n) = rd mat' (row + col * n).

(** Two lists of [m] replicates that differ on the diagonals only. *)
Definition same_replicates (obs obs' : list (list double)) (n m : Z) : Prop :=
  forall k, 0 <= k < m ->
    exists mat mat', rd obs k = Done mat /\ rd obs' k = Done mat' /\
                     same_off_diagonal n mat mat'.

(** ** Inputs of the examples *)

(** An example of a likelihood matrix: [n = 9], the entry of index [p] is
    [p], and NaN when [p] is a multiple of 5. *)
Definition llik_example : list double :=
  map (fun p => if p mod 5 =? 0 then NAN else of_int p) (iota 81).

(** The state in which [tadbit] starts the construction, for [n = 4]. *)
Definition example_fit_state : fit_state :=
  mkFit (blocks_of 4 NAN) (blocks_of 4 NAN) (d0, d0) (d0, d0) (d0, d0)
        (repeat NAN 16).

(** The value and the parameters that [ml_ab] returns on the counts 5, 3
    and 2 at the distances 1, 2 and 3, from [(a, b) = (0, 0)]. *)
Definition fit_example : double * (double * double) :=
  (S754_finite false 6396963793266306 (-48),
   (S754_finite false 4650112206720280 (-51),
    S754_finite true 8396900505842790 (-54))).

(** Counts in two domains: indices below [cut] against the rest. *)
Definition two_domains (n cut : Z) : list double :=
  flat_map (fun c =>
    map (fun r => if (r <? cut) && (c <? cut)
                  then of_int (20 - 6 * Z.abs (r - c))
                  else of_int (4 - Z.abs (r - c) / 2)) (iota n)) (iota n).

(** [two_domains 6 3] with the count at the row 2 of the column 3 replaced
    by NaN. *)
Definition two_domains_nan : list double :=
  map (fun p => if p =? 2 + 3 * 6 then NAN
                else match rd (two_domains 6 3) p with
                     | Done v => v
                     | _ => NAN
                     end) (iota 36).

(** [two_domains 6 3] with other values on the diagonal. *)
Definition two_domains_diagonal : list double :=
  map (fun p => if p mod 7 =? 0 then of_int (1000 + p)
                else match rd (two_domains 6 3) p with
                     | Done v => v
                     | _ => NAN
                     end) (iota 36).

(** The counts [100 + p] at the indices [p] of a 4 by 4 matrix. *)
Definition counts_example : list Z := map (fun p => 100 + p) (index_matrix 4).

(** * Properties *)

(** ** Results and loops *)

Lemma bind_Done {A B : Type} (r : result A) (k : A -> result B) (b : B) :
  bind r k = Done b -> exists a, r = Done a /\ k a = Done b.
Proof.
  destruct r as [a| |]; simpl; intros H; try discriminate.
  exists a; split; [reflexivity | exact H].
Qed.

Ltac bind_inv H :=
  let a := fresh "x" in
  let Ha := fresh "Hx" in
  apply bind_Done in H; destruct H as (a & Ha & H).

Lemma for_iter_inv {St : Type} (P : Z -> St -> Prop) (body : Z -> St -> result St) :
  forall (cnt : nat) (lo : Z) (s s' : St),
    P lo s ->
    (forall i t t', lo <= i < lo + Z.of_nat cnt -> P i t ->
                    body i t = Done t' -> P (i + 1) t') ->
    for_iter cnt lo body s = Done s' ->
    P (lo + Z.of_nat cnt) s'.
Proof.
  induction cnt as [|c IH]; intros lo s s' H0 Hstep Hrun; simpl in Hrun.
  - injection Hrun as <-. now replace (lo + Z.of_nat 0) with lo by lia.
  - bind_inv Hrun.
    replace (lo + Z.of_nat (S c)) with ((lo + 1) + Z.of_nat c) by lia.
    apply (IH (lo + 1) x s'); [ | | exact Hrun].
    + apply (Hstep lo s x); [lia | exact H0 | exact Hx].
    + intros i t t' Hi. apply Hstep. lia.
Qed.

Lemma for_loop_inv {St : Type} (P : Z -> St -> Prop) (lo hi : Z)
  (body : Z -> St -> result St) (s s' : St) :
  lo <= hi ->
  P lo s ->
  (forall i t t', lo <= i < hi -> P i t -> body i t = Done t' -> P (i + 1) t') ->
  for_loop lo hi body s = Done s' ->
  P hi s'.
Proof.
  intros Hle H0 Hstep Hrun. unfold for_loop in Hrun.
  replace hi with (lo + Z.of_nat (Z.to_nat (hi - lo))) by lia.
  apply (for_iter_inv P body _ lo s s' H0); [ | exact Hrun].
  intros i t t' Hi. apply Hstep. lia.
Qed.

Lemma for_iter_total {St : Type} (P : Z -> St -> Prop) (body : Z -> St -> result St) :
  forall (cnt : nat) (lo : Z) (s : St),
    P lo s ->
    (forall i t, lo <= i < lo + Z.of_nat cnt -> P i t ->
                 exists t', body i t = Done t' /\ P (i + 1) t') ->
    exists s', for_iter cnt lo body s = Done s' /\ P (lo + Z.of_nat cnt) s'.
Proof.
  induction cnt as [|c IH]; intros lo s H0 Hstep.
  - exists s. split; [reflexivity | now replace (lo + Z.of_nat 0) with lo by lia].
  - destruct (Hstep lo s) as (t & Ht & HP); [lia | exact H0 | ].
    cbn [for_iter]. rewrite Ht. cbn [bind].
    replace (lo + Z.of_nat (S c)) with ((lo + 1) + Z.of_nat c) by lia.
    apply IH; [exact HP | ].
    intros i u Hi. apply Hstep. lia.
Qed.

Lemma for_loop_total {St : Type} (P : Z -> St -> Prop) (lo hi : Z)
  (body : Z -> St -> result St) (s : St) :
  lo <= hi ->
  P lo s ->
  (forall i t, lo <= i < hi -> P i t ->
               exists t', body i t = Done t' /\ P (i + 1) t') ->
  exists s', for_loop lo hi body s = Done s' /\ P hi s'.
Proof.
  intros Hle H0 Hstep. unfold for_loop.
  destruct (for_iter_total P body (Z.to_nat (hi - lo)) lo s H0) as (s' & H1 & H2).
  - intros i t Hi. apply Hstep. lia.
  - exists s'. split; [exact H1 | ].
    now replace hi with (lo + Z.of_nat (Z.to_nat (hi - lo))) by lia.
Qed.

Lemma for_loop_empty {St : Type} (lo hi : Z) (body : Z -> St -> result St) (s : St) :
  hi <= lo -> for_loop lo hi body s = Done s.
Proof.
  intros H. unfold for_loop.
  replace (Z.to_nat (hi - lo)) with O by lia. reflexivity.
Qed.

Lemma for_loop_step {St : Type} (lo hi : Z) (body : Z -> St -> result St) (s : St) :
  lo < hi ->
  for_loop lo hi body s = (s' <- body lo s ;; for_loop (lo + 1) hi body s').
Proof.
  intros H. unfold for_loop.
  replace (Z.to_nat (hi - lo)) with (S (Z.to_nat (hi - (lo + 1)))) by lia.
  reflexivity.
Qed.

Lemma for_iter_ext_range {St : Type} (f g : Z -> St -> result St) :
  forall cnt lo s,
    (forall i t, lo <= i < lo + Z.of_nat cnt -> f i t = g i t) ->
    for_iter cnt lo f s = for_iter cnt lo g s.
Proof.
  induction cnt as [|c IH]; intros lo s H; cbn [for_iter]; [reflexivity | ].
  rewrite (H lo s) by lia. destruct (g lo s); cbn [bind]; auto.
  apply IH. intros i t Hi. apply H. lia.
Qed.

Lemma for_loop_ext_range {St : Type} (lo hi : Z) (f g : Z -> St -> result St)
  (s : St) :
  (forall i t, lo <= i < hi -> f i t = g i t) ->
  for_loop lo hi f s = for_loop lo hi g s.
Proof.
  intros H. unfold for_loop. apply for_iter_ext_range.
  intros i t Hi. apply H. lia.
Qed.

(** ** Arrays *)

Lemma length_upd {A : Type} (l : list A) (i : nat) (v : A) :
  length (upd l i v) = length l.
Proof.
  revert i; induction l as [|h t IH]; intros [|i]; simpl; auto.
Qed.

Lemma nth_error_upd_same {A : Type} (l : list A) (i : nat) (v : A) :
  (i < length l)%nat -> nth_error (upd l i v) i = Some v.
Proof.
  revert i; induction l as [|h t IH]; intros [|i] H; simpl in *;
    try lia; auto. apply IH. lia.
Qed.

Lemma nth_error_upd_other {A : Type} (l : list A) (i j : nat) (v : A) :
  i <> j -> nth_error (upd l i v) j = nth_error l j.
Proof.
  revert i j; induction l as [|h t IH]; intros [|i] [|j] H; simpl;
    auto; try congruence.
Qed.

Lemma rd_Done {A : Type} (l : list A) (i : Z) (x : A) :
  rd l i = Done x <-> 0 <= i /\ nth_error l (Z.to_nat i) = Some x.
Proof.
  unfold rd. destruct (Z.leb_spec 0 i) as [Hi|Hi].
  - destruct (nth_error l (Z.to_nat i)) as [y|]; split.
    + intros [= ->]. auto.
    + intros [_ [= ->]]. reflexivity.
    + discriminate.
    + intros [_ H]; discriminate.
  - split; [discriminate | lia].
Qed.

Lemma rd_in_range {A : Type} (l : list A) (i : Z) :
  0 <= i < len l -> exists x, rd l i = Done x.
Proof.
  intros [H0 H1]. unfold len in H1.
  destruct (nth_error l (Z.to_nat i)) as [x|] eqn:E.
  - exists x. apply rd_Done. auto.
  - apply nth_error_None in E. lia.
Qed.

Lemma rd_range {A : Type} (l : list A) (i : Z) (x : A) :
  rd l i = Done x -> 0 <= i < len l.
Proof.
  intros H. apply rd_Done in H. destruct H as [H0 H1].
  assert (Z.to_nat i < length l)%nat by (apply nth_error_Some; congruence).
  unfold len. lia.
Qed.

Lemma wr_Done {A : Type} (l l' : list A) (i : Z) (v : A) :
  wr l i v = Done l' <-> 0 <= i < len l /\ l' = upd l (Z.to_nat i) v.
Proof.
  unfold wr.
  destruct (Z.leb_spec 0 i), (Z.ltb_spec i (len l)); simpl; split;
    try discriminate; try lia.
  - intros [= <-]. auto.
  - intros [_ ->]. reflexivity.
Qed.

Lemma wr_in_range {A : Type} (l : list A) (i : Z) (v : A) :
  0 <= i < len l -> wr l i v = Done (upd l (Z.to_nat i) v).
Proof. intros H. apply wr_Done. auto. Qed.

Lemma len_upd {A : Type} (l : list A) (i : nat) (v : A) :
  len (upd l i v) = len l.
Proof. unfold len. now rewrite length_upd. Qed.

Lemma wr_len {A : Type} (l l' : list A) (i : Z) (v : A) :
  wr l i v = Done l' -> len l' = len l.
Proof. intros H. apply wr_Done in H. destruct H as [_ ->]. apply len_upd. Qed.

Lemma rd_wr_same {A : Type} (l l' : list A) (i : Z) (v : A) :
  wr l i v = Done l' -> rd l' i = Done v.
Proof.
  intros H. apply wr_Done in H. destruct H as [[H0 H1] ->].
  apply rd_Done. split; [exact H0 | ].
  apply nth_error_upd_same. unfold len in H1. lia.
Qed.

Lemma rd_wr_other {A : Type} (l l' : list A) (i j : Z) (v : A) :
  wr l i v = Done l' -> i <> j -> rd l' j = rd l j.
Proof.
  intros H Hne. apply wr_Done in H. destruct H as [[H0 H1] ->].
  unfold rd. destruct (Z.leb_spec 0 j); [ | reflexivity].
  rewrite nth_error_upd_other; [reflexivity | lia].
Qed.

Lemma rd_repeat {A : Type} (x : A) (k : nat) (p : Z) :
  0 <= p < Z.of_nat k -> rd (repeat x k) p = Done x.
Proof.
  intros Hp. apply rd_Done. split; [lia | ].
  apply nth_error_repeat. lia.
Qed.

Lemma len_repeat {A : Type} (x : A) (k : nat) : len (repeat x k) = Z.of_nat k.
Proof. unfold len. now rewrite repeat_length. Qed.

(** ** [break_in_blocks]: a rule for every store operation *)

Lemma counter_bump_same {M : Type} (b : blk) (m : M) (s : seg M) :
  counter b (bump b m s) = counter b s + 1.
Proof. destruct b; reflexivity. Qed.

Lemma counter_bump_other {M : Type} (b b' : blk) (m : M) (s : seg M) :
  b' <> b -> counter b' (bump b m s) = counter b' s.
Proof. destruct b, b'; simpl; congruence. Qed.

Lemma mem_bump {M : Type} (b : blk) (m : M) (s : seg M) :
  mem (bump b m s) = m.
Proof. destruct b; reflexivity. Qed.

Lemma twice_half_consecutive (x : Z) :
  0 <= x -> 2 * Z.quot (x * (x + 1)) 2 = x * (x + 1).
Proof.
  intros Hx. rewrite Z.quot_div_nonneg by nia.
  assert (E : (x * (x + 1)) mod 2 = 0).
  { rewrite Z.mul_mod by lia.
    destruct (Z.mod_pos_bound x 2) as [? ?]; [lia | ].
    assert (Hc : x mod 2 = 0 \/ x mod 2 = 1) by lia.
    destruct Hc as [Hc|Hc].
    - rewrite Hc. reflexivity.
    - rewrite <- (Z.add_mod_idemp_l x 1 2) by lia. rewrite Hc. reflexivity. }
  pose proof (Z.div_mod (x * (x + 1)) 2). lia.
Qed.

Section SegmenterRule.
Context {A M : Type}.
Variable store : blk -> Z -> A -> M -> result M.
Variables (mat : list A) (n i j : Z).
Hypothesis Hi : 0 <= i.
Hypothesis Hij : i <= j.
Hypothesis Hj : j < n.
Hypothesis Hmat : len mat = n * n.

(** [J next s]: the invariant of the memory, when every index read from the
    matrix so far is below [next]. *)
Variable J : Z -> seg M -> Prop.
Hypothesis Jmono : forall next next' s, J next s -> next <= next' -> J next' s.
Hypothesis Jstore : forall b s src v,
  J src s -> 0 <= src < n * n -> rd mat src = Done v ->
  0 <= counter b s < block_count b n i j ->
  exists m', store b (counter b s) v (mem s) = Done m' /\
             J (src + 1) (bump b m' s).

Lemma copy_rows_rule (col : Z) (b : blk) (lo hi : Z) (s : seg M) :
  0 <= col < n -> 0 <= lo <= hi -> hi <= n ->
  J (lo + col * n) s ->
  0 <= counter b s -> counter b s + (hi - lo) <= block_count b n i j ->
  exists s', copy_rows store mat n col b lo hi s = Done s' /\
             J (hi + col * n) s' /\
             counter b s' = counter b s + (hi - lo) /\
             (forall b', b' <> b -> counter b' s' = counter b' s).
Proof.
  intros Hcol Hlo Hhi HJ Hc0 Hc1. unfold copy_rows.
  destruct (for_loop_total
    (fun row t => J (row + col * n) t /\
                  counter b t = counter b s + (row - lo) /\
                  (forall b', b' <> b -> counter b' t = counter b' s))
    lo hi
    (fun row s0 =>
       v <- rd mat (row + col * n) ;;
       m <- store b (counter b s0) v (mem s0) ;; Done (bump b m s0)) s)
    as (s' & Hrun & HJ' & Hc & Ho).
  - lia.
  - split; [exact HJ | ]. split; [lia | ].
    intros b' Hb'. reflexivity.
  - intros row t Hrow (HJt & Hct & Hot).
    assert (Hsrc : 0 <= row + col * n < n * n) by nia.
    destruct (rd_in_range mat (row + col * n)) as (v & Hv); [lia | ].
    destruct (Jstore b t (row + col * n) v HJt Hsrc Hv) as (m' & Hm' & HJ');
      [lia | ].
    exists (bump b m' t). rewrite Hv; simpl. rewrite Hm'; simpl.
    split; [reflexivity | ]. repeat split.
    + replace (row + 1 + col * n) with (row + col * n + 1) by lia. exact HJ'.
    + rewrite counter_bump_same. lia.
    + intros b' Hb'. rewrite counter_bump_other by exact Hb'. now apply Hot.
  - exists s'. repeat split; [exact Hrun | exact HJ' | lia | exact Ho].
Qed.

Lemma break_in_blocks_rule (bs : M) :
  J 0 (mkSeg bs 0 0 0) ->
  exists s', break_in_blocks_with store mat n i j bs = Done s' /\
             J (n * n) s' /\
             (forall b, counter b s' = block_count b n i j).
Proof.
  intros HJ0. unfold break_in_blocks_with.
  destruct (for_loop_total
    (fun col t => J (col * n) t /\
                  top_counter t = i * (col - i) /\
                  2 * tri_counter t = (col - i) * (col - i - 1) /\
                  bot_counter t = (n - j - 1) * (col - i))
    i (j + 1)
    (fun col s =>
       s <- copy_rows store mat n col Top 0 i s ;;
       s <- copy_rows store mat n col Tri i col s ;;
       copy_rows store mat n col Bot (j + 1) n s)
    (mkSeg bs 0 0 0)) as (s' & Hrun & HJ' & Ht & Hr & Hb).
  - lia.
  - simpl. repeat split; try lia.
    apply (Jmono 0); [exact HJ0 | nia].
  - intros col t Hcol (HJt & Htt & Htr & Htb).
    assert (Hhalf : 2 * Z.quot ((j - i) * (j - i + 1)) 2 = (j - i) * (j - i + 1))
      by (apply twice_half_consecutive; lia).
    assert (Hx0 : 0 <= (col - i) * (col - i - 1))
      by (destruct (Z.eq_dec col i) as [->|]; [lia | nia]).
    assert (Hx1 : (col - i) * (col - i + 1) <= (j - i) * (j - i + 1)) by nia.
    destruct (copy_rows_rule col Top 0 i t) as (t1 & E1 & J1 & C1 & O1);
      try lia.
    { replace (0 + col * n) with (col * n) by lia. exact HJt. }
    { unfold counter, block_count. nia. }
    { unfold counter, block_count. nia. }
    destruct (copy_rows_rule col Tri i col t1) as (t2 & E2 & J2 & C2 & O2);
      try lia.
    { exact J1. }
    { rewrite (O1 Tri) by discriminate. unfold counter, block_count. nia. }
    { rewrite (O1 Tri) by discriminate. unfold counter, block_count. nia. }
    destruct (copy_rows_rule col Bot (j + 1) n t2) as (t3 & E3 & J3 & C3 & O3);
      try lia.
    { apply (Jmono (col + col * n)); [exact J2 | lia]. }
    { rewrite (O2 Bot), (O1 Bot) by discriminate. unfold counter, block_count. nia. }
    { rewrite (O2 Bot), (O1 Bot) by discriminate. unfold counter, block_count. nia. }
    exists t3. rewrite E1; cbn [bind]. rewrite E2; cbn [bind].
    split; [exact E3 | ].
    pose proof (O3 Top) as O3t. pose proof (O3 Tri) as O3r.
    pose proof (O2 Top) as O2t. pose proof (O1 Tri) as O1r.
    pose proof (O2 Bot) as O2b. pose proof (O1 Bot) as O1b.
    unfold counter in *.
    rewrite O3t, O3r, O2t, C1, C2, C3, O1r, O2b, O1b by discriminate.
    repeat split.
    + replace ((col + 1) * n) with (n + col * n) by lia. exact J3.
    + nia.
    + nia.
    + nia.
  - exists s'. split; [exact Hrun | ]. split.
    + apply (Jmono ((j + 1) * n)); [exact HJ' | nia].
    + assert (Hhalf : 2 * Z.quot ((j - i) * (j - i + 1)) 2 = (j - i) * (j - i + 1))
        by (apply twice_half_consecutive; lia).
      intros [ | | ]; unfold counter, block_count; nia.
Qed.

End SegmenterRule.

(** ** [break_in_blocks] on the buffers *)

Lemma store_buf_Done {A : Type} (b : blk) (pos : Z) (v : A) (m : blocks A) :
  0 <= pos < len (buf b m) ->
  exists m', store_buf b pos v m = Done m' /\
             forall b', len (buf b' m') = len (buf b' m).
Proof.
  intros Hpos. destruct b; simpl in *; rewrite (wr_in_range _ _ _ Hpos);
    simpl; eexists; (split; [reflexivity | ]);
    intros [ | | ]; simpl; try reflexivity; apply len_upd.
Qed.

Lemma break_in_blocks_with_buf {A : Type} (mat : list A) (n i j : Z)
  (bs : blocks A) :
  0 <= i -> i <= j -> j < n -> len mat = n * n ->
  (forall b, block_count b n i j <= len (buf b bs)) ->
  exists s, break_in_blocks_with store_buf mat n i j bs = Done s /\
            (forall b, counter b s = block_count b n i j) /\
            (forall b, len (buf b (mem s)) = len (buf b bs)).
Proof.
  intros Hi Hij Hj Hmat Hcap.
  destruct (break_in_blocks_rule store_buf mat n i j Hi Hij Hj Hmat
              (fun _ s => forall b, len (buf b (mem s)) = len (buf b bs)))
    with (bs := bs) as (s & Hrun & HJ & Hc).
  - intros next next' s H _. exact H.
  - intros b s src v HJ _ _ Hcnt.
    destruct (store_buf_Done b (counter b s) v (mem s)) as (m' & Hm' & Hlen).
    + rewrite HJ. specialize (Hcap b). lia.
    + exists m'. split; [exact Hm' | ].
      intros b'. rewrite mem_bump, Hlen. apply HJ.
  - intros b. reflexivity.
  - exists s. auto.
Qed.

Lemma break_in_blocks_Done {A : Type} (mat : list A) (n i j : Z)
  (bs : blocks A) :
  0 <= i -> i <= j -> j < n -> len mat = n * n ->
  (forall b, block_count b n i j <= len (buf b bs)) ->
  exists bs', break_in_blocks mat n i j bs = Done bs' /\
              forall b, len (buf b bs') = len (buf b bs).
Proof.
  intros Hi Hij Hj Hmat Hcap.
  destruct (break_in_blocks_with_buf mat n i j bs Hi Hij Hj Hmat Hcap)
    as (s & Hrun & _ & Hlen).
  exists (mem s). unfold break_in_blocks. rewrite Hrun. simpl. auto.
Qed.

(** The counts are within the capacities allocated by [tadbit]. *)
Lemma block_count_capacity (b : blk) (n i j : Z) :
  0 <= i -> i <= j -> j < n ->
  0 <= block_count b n i j <= block_capacity b n.
Proof.
  intros Hi Hij Hj.
  assert (Hhalf : 2 * Z.quot ((j - i) * (j - i + 1)) 2 = (j - i) * (j - i + 1))
    by (apply twice_half_consecutive; lia).
  assert (Hn : 2 * Z.quot (n * (n + 1)) 2 = n * (n + 1))
    by (apply twice_half_consecutive; lia).
  assert (Hq : forall x, 0 <= x -> 4 * x <= (n + 1) * (n + 1) ->
                         x <= Z.quot ((n + 1) * (n + 1)) 4).
  { intros x Hx H4. rewrite Z.quot_div_nonneg by nia.
    apply Z.div_le_lower_bound; lia. }
  destruct b; unfold block_count, block_capacity.
  - assert (H1 : i * (j - i + 1) <= i * (n - i)) by nia.
    assert (H2 : 0 <= (n - 2 * i) * (n - 2 * i)) by apply Z.square_nonneg.
    assert (H3 : 0 <= i * (j - i + 1)) by nia.
    split; [exact H3 | ]. apply Hq; [exact H3 | ].
    clear Hq Hhalf Hn. lia.
  - split; nia.
  - assert (H1 : (n - j - 1) * (j - i + 1) <= (n - j - 1) * (j + 1)) by nia.
    assert (H2 : 0 <= (n - 2 * (j + 1)) * (n - 2 * (j + 1)))
      by apply Z.square_nonneg.
    assert (H3 : 0 <= (n - j - 1) * (j - i + 1)) by nia.
    split; [exact H3 | ]. apply Hq; [exact H3 | ].
    clear Hq Hhalf Hn. lia.
Qed.

(** ** [break_in_blocks] on the log of its stores *)

Lemma blk_eqb_eq (a b : blk) : blk_eqb a b = true <-> a = b.
Proof. destruct a, b; simpl; split; congruence. Qed.

Lemma len_index_matrix (n : Z) : 0 <= n -> len (index_matrix n) = n * n.
Proof.
  intros Hn. unfold len, index_matrix. rewrite length_map, length_seq. nia.
Qed.

Lemma rd_index_matrix (n src v : Z) :
  rd (index_matrix n) src = Done v -> v = src.
Proof.
  intros H. apply rd_Done in H. destruct H as [H0 H].
  unfold index_matrix in H. rewrite nth_error_map in H.
  destruct (nth_error (seq 0 (Z.to_nat (n * n))) (Z.to_nat src)) as [k|] eqn:E;
    [ | discriminate].
  injection H as <-.
  assert (Hlt : (Z.to_nat src < length (seq 0 (Z.to_nat (n * n))))%nat)
    by (apply nth_error_Some; congruence).
  rewrite length_seq in Hlt.
  apply (nth_error_nth _ _ O) in E. rewrite seq_nth in E by exact Hlt. lia.
Qed.

Lemma log_ok_store (next : Z) (b : blk) (s : seg (list (blk * Z * Z))) :
  log_ok next (fun b' => counter b' s) (mem s) ->
  0 <= counter b s -> 0 <= next ->
  log_ok (next + 1) (fun b' => counter b' (bump b ((b, counter b s, next) :: mem s) s))
         ((b, counter b s, next) :: mem s).
Proof.
  intros (Hpos & Hnd & Hsrc & Hnds & Hcnt) Hc Hn.
  assert (Hmono : forall b', counter b' s <= counter b' (bump b ((b, counter b s, next) :: mem s) s)).
  { intros b'. destruct b, b'; simpl; lia. }
  unfold log_ok. split; [ | split; [ | split; [ | split]]].
  - intros e [<- | He]; simpl.
    + rewrite counter_bump_same. lia.
    + specialize (Hpos e He). specialize (Hmono (fst (out_pos e))). lia.
  - simpl. constructor; [ | exact Hnd].
    intros Hin. apply in_map_iff in Hin. destruct Hin as (e & He & Hin).
    specialize (Hpos e Hin). rewrite He in Hpos. simpl in Hpos. lia.
  - intros e [<- | He]; simpl; [lia | ].
    specialize (Hsrc e He). lia.
  - simpl. constructor; [ | exact Hnds].
    intros Hin. apply in_map_iff in Hin. destruct Hin as (e & He & Hin).
    specialize (Hsrc e Hin). lia.
  - intros b'. specialize (Hcnt b'). unfold count_stores, len in *.
    simpl. destruct b, b'; simpl; simpl in Hcnt; lia.
Qed.

Lemma break_in_blocks_log_index (n i j : Z) :
  0 <= i -> i <= j -> j < n ->
  exists s, break_in_blocks_log (index_matrix n) n i j = Done s /\
            log_ok (n * n) (fun b => block_count b n i j) (mem s).
Proof.
  intros Hi Hij Hj. unfold break_in_blocks_log.
  destruct (break_in_blocks_rule store_log (index_matrix n) n i j Hi Hij Hj
              (len_index_matrix n ltac:(lia))
              (fun next s => 0 <= next /\ (forall b, 0 <= counter b s) /\
                             log_ok next (fun b => counter b s) (mem s)))
    with (bs := @nil (blk * Z * Z)) as (s & Hrun & (_ & _ & HJ) & Hc).
  - intros next next' s (H0 & Hc & Hpos & Hnd & Hsrc & Hnds & Hcnt) Hle.
    split; [lia | ]. split; [exact Hc | ].
    unfold log_ok. repeat split; auto;
      try (specialize (Hsrc e H); lia); try (specialize (Hpos e H); lia).
  - intros b s src v (H0 & Hc & HJ) Hsrc Hrd Hcnt.
    apply rd_index_matrix in Hrd. subst v.
    exists ((b, counter b s, src) :: mem s). split; [reflexivity | ].
    split; [lia | ]. split.
    + intros b'. specialize (Hc b'). destruct b, b'; simpl in *; lia.
    + rewrite mem_bump. apply log_ok_store; [exact HJ | lia | lia].
  - split; [lia | ]. split; [intros [ | | ]; simpl; lia | ].
    unfold log_ok. simpl. repeat split; try constructor; try contradiction.
    intros [ | | ]; reflexivity.
  - exists s. split; [exact Hrun | ].
    destruct HJ as (Hpos & Hnd & Hsrc & Hnds & Hcnt).
    unfold log_ok. repeat split; auto.
    + specialize (Hpos e H). lia.
    + specialize (Hpos e H). rewrite <- Hc. lia.
    + specialize (Hsrc e H). lia.
    + specialize (Hsrc e H). lia.
    + intros b. rewrite Hcnt. apply Hc.
Qed.

(** *** Two runs in step

    The log of the stores on any matrix is the log on the index matrix, with
    each index replaced by the matrix entry at that index. *)

Lemma for_iter_sim {S T : Type} (R : S -> T -> Prop)
  (f : Z -> S -> result S) (g : Z -> T -> result T) :
  forall (cnt : nat) (lo : Z) (s : S) (t : T),
    R s t ->
    (forall i s t, lo <= i < lo + Z.of_nat cnt -> R s t ->
                   rel_result R (f i s) (g i t)) ->
    rel_result R (for_iter cnt lo f s) (for_iter cnt lo g t).
Proof.
  induction cnt as [|c IH]; intros lo s t HR Hstep.
  - exact HR.
  - cbn [for_iter].
    assert (H := Hstep lo s t ltac:(lia) HR).
    destruct (f lo s) as [s'| |], (g lo t) as [t'| |]; simpl in H;
      try contradiction; simpl; auto.
    apply IH; [exact H | ].
    intros i s0 t0 Hi. apply Hstep. lia.
Qed.

Lemma for_loop_sim {S T : Type} (R : S -> T -> Prop) (lo hi : Z)
  (f : Z -> S -> result S) (g : Z -> T -> result T) (s : S) (t : T) :
  R s t ->
  (forall i s t, lo <= i < hi -> R s t -> rel_result R (f i s) (g i t)) ->
  rel_result R (for_loop lo hi f s) (for_loop lo hi g t).
Proof.
  intros HR Hstep. unfold for_loop. apply for_iter_sim; [exact HR | ].
  intros i s0 t0 Hi. apply Hstep. lia.
Qed.

Lemma copy_rows_sim {A : Type} (mat : list A) (n col : Z) (b : blk)
  (lo hi : Z) (s : seg (list (blk * Z * Z))) (t : seg (list (blk * Z * A))) :
  0 <= n -> len mat = n * n ->
  same_log mat s t ->
  rel_result (same_log mat)
    (copy_rows store_log (index_matrix n) n col b lo hi s)
    (copy_rows store_log mat n col b lo hi t).
Proof.
  intros Hn Hmat HR. unfold copy_rows. apply for_loop_sim; [exact HR | ].
  intros row s0 t0 _ (Hc & Hlog).
  destruct (rd (index_matrix n) (row + col * n)) as [v| |] eqn:Ev.
  - pose proof (rd_range _ _ _ Ev) as Hr.
    rewrite len_index_matrix in Hr by exact Hn.
    pose proof (rd_index_matrix _ _ _ Ev) as ->.
    destruct (rd_in_range mat (row + col * n)) as (a & Ea); [lia | ].
    rewrite Ea. simpl. split.
    + intros b'. pose proof (Hc Top). pose proof (Hc Tri). pose proof (Hc Bot).
      destruct b, b'; simpl in *; lia.
    + rewrite !mem_bump. constructor; [ | exact Hlog].
      split; [unfold out_pos; simpl; now rewrite (Hc b) | exact Ea].
  - destruct (rd mat (row + col * n)) as [a| |] eqn:Ea; simpl; auto.
    + apply rd_range in Ea. rewrite Hmat in Ea.
      destruct (rd_in_range (index_matrix n) (row + col * n)) as (v & Hv).
      * rewrite len_index_matrix by exact Hn. exact Ea.
      * congruence.
    + unfold rd in Ea. destruct (0 <=? row + col * n);
        [destruct (nth_error mat _) | ]; discriminate.
  - unfold rd in Ev. destruct (0 <=? row + col * n);
      [destruct (nth_error (index_matrix n) _) | ]; discriminate.
Qed.

Lemma break_in_blocks_log_sim {A : Type} (mat : list A) (n i j : Z) :
  0 <= n -> len mat = n * n ->
  rel_result (same_log mat)
    (break_in_blocks_log (index_matrix n) n i j)
    (break_in_blocks_log mat n i j).
Proof.
  intros Hn Hmat. unfold break_in_blocks_log, break_in_blocks_with.
  apply for_loop_sim.
  - split; [intros [ | | ]; reflexivity | constructor].
  - intros col s t _ HR.
    pose proof (copy_rows_sim mat n col Top 0 i s t Hn Hmat HR) as H1.
    destruct (copy_rows store_log (index_matrix n) n col Top 0 i s) as [s1| |],
             (copy_rows store_log mat n col Top 0 i t) as [t1| |];
      simpl in H1; try contradiction; simpl; auto.
    pose proof (copy_rows_sim mat n col Tri i col s1 t1 Hn Hmat H1) as H2.
    destruct (copy_rows store_log (index_matrix n) n col Tri i col s1) as [s2| |],
             (copy_rows store_log mat n col Tri i col t1) as [t2| |];
      simpl in H2; try contradiction; simpl; auto.
    apply copy_rows_sim; assumption.
Qed.

Lemma for_iter_sim_Done {S T : Type} (R : S -> T -> Prop)
  (f : Z -> S -> result S) (g : Z -> T -> result T) :
  (forall i s t s', R s t -> f i s = Done s' ->
                    exists t', g i t = Done t' /\ R s' t') ->
  forall (cnt : nat) (lo : Z) (s s' : S) (t : T),
    R s t -> for_iter cnt lo f s = Done s' ->
    exists t', for_iter cnt lo g t = Done t' /\ R s' t'.
Proof.
  intros Hstep. induction cnt as [|c IH]; intros lo s s' t HR Hrun;
    cbn [for_iter] in *.
  - injection Hrun as <-. exists t. auto.
  - bind_inv Hrun. destruct (Hstep lo s t x HR Hx) as (t1 & Ht1 & HR1).
    rewrite Ht1. cbn [bind]. apply (IH _ _ _ _ HR1 Hrun).
Qed.

Lemma copy_rows_replayed {A : Type} (mat : list A) (n col : Z) (b : blk)
  (lo hi : Z) (bs : blocks A) (s s' : seg (blocks A))
  (t : seg (list (blk * Z * A))) :
  replayed bs s t ->
  copy_rows store_buf mat n col b lo hi s = Done s' ->
  exists t', copy_rows store_log mat n col b lo hi t = Done t' /\
             replayed bs s' t'.
Proof.
  unfold copy_rows, for_loop. apply for_iter_sim_Done.
  intros row s0 t0 s1 [Hc Hrep] Hbody. bind_inv Hbody. bind_inv Hbody.
  injection Hbody as <-. rewrite Hx. cbn [bind store_log].
  eexists. split; [reflexivity | ]. split.
  - intros b'. pose proof (Hc Top). pose proof (Hc Tri). pose proof (Hc Bot).
    destruct b, b'; simpl in *; lia.
  - rewrite !mem_bump. cbn [replay]. rewrite Hrep. cbn [bind].
    rewrite <- (Hc b). exact Hx0.
Qed.

Lemma break_in_blocks_replayed {A : Type} (mat : list A) (n i j : Z)
  (bs : blocks A) (s : seg (blocks A)) :
  break_in_blocks_with store_buf mat n i j bs = Done s ->
  exists t, break_in_blocks_log mat n i j = Done t /\ replayed bs s t.
Proof.
  unfold break_in_blocks_log, break_in_blocks_with, for_loop.
  apply for_iter_sim_Done.
  - intros col s0 t0 s3 HR Hbody. bind_inv Hbody. bind_inv Hbody.
    destruct (copy_rows_replayed _ _ _ _ _ _ _ _ _ _ HR Hx) as (t1 & E1 & R1).
    destruct (copy_rows_replayed _ _ _ _ _ _ _ _ _ _ R1 Hx0) as (t2 & E2 & R2).
    destruct (copy_rows_replayed _ _ _ _ _ _ _ _ _ _ R2 Hbody) as (t3 & E3 & R3).
    exists t3. rewrite E1. cbn [bind]. rewrite E2. cbn [bind]. auto.
  - split; [intros [ | | ]; reflexivity | reflexivity].
Qed.

Lemma same_log_out_pos {A : Type} (mat : list A) (l : list (blk * Z * Z))
  (l' : list (blk * Z * A)) :
  Forall2 (same_store mat) l l' -> map out_pos l' = map out_pos l.
Proof.
  induction 1 as [|e e' l l' [He _] _ IH]; simpl; [reflexivity | ].
  now rewrite He, IH.
Qed.

Lemma count_stores_out_pos {A B : Type} (b : blk) (l : list (blk * Z * A))
  (l' : list (blk * Z * B)) :
  map out_pos l' = map out_pos l -> count_stores b l' = count_stores b l.
Proof.
  revert l'. unfold count_stores, len.
  induction l as [|e l IH]; intros [|e' l'] H; simpl in *; try discriminate;
    [reflexivity | ].
  injection H as He Hl. specialize (IH l' Hl). rewrite He.
  destruct (blk_eqb (fst (out_pos e)) b); simpl; lia.
Qed.

Lemma same_log_sources {A : Type} (mat : list A) (l : list (blk * Z * Z))
  (l' : list (blk * Z * A)) :
  Forall2 (same_store mat) l l' ->
  Forall2 (fun e' src => rd mat src = Done (snd e')) l' (map snd l).
Proof.
  induction 1 as [|e e' l l' [_ He] _ IH]; simpl; constructor; assumption.
Qed.

(** ** [break_in_blocks]: the layout of the blocks *)

Lemma store_buf_spec {A : Type} (b : blk) (pos : Z) (v : A) (m : blocks A) :
  0 <= pos < len (buf b m) ->
  exists m', store_buf b pos v m = Done m' /\
             wr (buf b m) pos v = Done (buf b m') /\
             forall b', b' <> b -> buf b' m' = buf b' m.
Proof.
  intros Hpos.
  destruct b; cbn [buf store_buf] in *; rewrite (wr_in_range _ _ _ Hpos);
    cbn [bind]; eexists; (split; [reflexivity | ]);
    (split; [reflexivity | ]);
    intros [ | | ] Hb; cbn [buf top tri bot]; congruence.
Qed.

Lemma copy_rows_buf {A : Type} (mat : list A) (n col : Z) (b : blk)
  (lo hi : Z) (s : seg (blocks A)) :
  0 <= col < n -> 0 <= lo <= hi -> hi <= n -> len mat = n * n ->
  0 <= counter b s -> counter b s + (hi - lo) <= len (buf b (mem s)) ->
  exists s', copy_rows store_buf mat n col b lo hi s = Done s' /\
    counter b s' = counter b s + (hi - lo) /\
    (forall b', b' <> b ->
       counter b' s' = counter b' s /\ buf b' (mem s') = buf b' (mem s)) /\
    len (buf b (mem s')) = len (buf b (mem s)) /\
    (forall row, lo <= row < hi ->
       rd (buf b (mem s')) (counter b s + (row - lo)) = rd mat (row + col * n)) /\
    (forall p, ~ counter b s <= p < counter b s + (hi - lo) ->
       rd (buf b (mem s')) p = rd (buf b (mem s)) p).
Proof.
  intros Hcol Hlo Hhi Hmat Hc0 Hc1. unfold copy_rows.
  destruct (for_loop_total
    (fun r t =>
       counter b t = counter b s + (r - lo) /\
       (forall b', b' <> b ->
          counter b' t = counter b' s /\ buf b' (mem t) = buf b' (mem s)) /\
       len (buf b (mem t)) = len (buf b (mem s)) /\
       (forall row, lo <= row < r ->
          rd (buf b (mem t)) (counter b s + (row - lo)) = rd mat (row + col * n)) /\
       (forall p, ~ counter b s <= p < counter b s + (r - lo) ->
          rd (buf b (mem t)) p = rd (buf b (mem s)) p))
    lo hi
    (fun row s0 =>
       v <- rd mat (row + col * n) ;;
       m <- store_buf b (counter b s0) v (mem s0) ;; Done (bump b m s0)) s)
    as (s' & Hrun & H1 & H2 & H3 & H4 & H5).
  - lia.
  - split; [lia | ]. split; [intros b' _; split; reflexivity | ].
    split; [reflexivity | ]. split; [intros row Hr; lia | ].
    intros p _. reflexivity.
  - intros r t Hr (I1 & I2 & I3 & I4 & I5).
    assert (Hsrc : 0 <= r + col * n < n * n) by nia.
    destruct (rd_in_range mat (r + col * n)) as (v & Hv); [lia | ].
    destruct (store_buf_spec b (counter b t) v (mem t)) as (m' & Hm' & Hw & Ho);
      [lia | ].
    exists (bump b m' t). rewrite Hv; cbn [bind]. rewrite Hm'; cbn [bind].
    split; [reflexivity | ].
    rewrite counter_bump_same, mem_bump.
    split; [lia | ]. split; [ | split; [ | split]].
    + intros b' Hb'. rewrite counter_bump_other by exact Hb'.
      rewrite (Ho b' Hb'). now apply I2.
    + rewrite (wr_len _ _ _ _ Hw). exact I3.
    + intros row Hrow. destruct (Z.eq_dec row r) as [->|Hne].
      * rewrite <- I1. rewrite (rd_wr_same _ _ _ _ Hw). now rewrite Hv.
      * rewrite (rd_wr_other _ _ _ _ _ Hw) by lia. apply I4. lia.
    + intros p Hp. rewrite (rd_wr_other _ _ _ _ _ Hw) by lia. apply I5. lia.
  - exists s'. split; [exact Hrun | ]. split; [exact H1 | ].
    split; [exact H2 | ]. split; [exact H3 | ]. split; [exact H4 | exact H5].
Qed.

Lemma tri_pos_twice (x : Z) :
  0 <= x -> 2 * Z.quot (x * (x - 1)) 2 = x * (x - 1).
Proof.
  intros Hx. destruct (Z.eq_dec x 0) as [->|Hne]; [reflexivity | ].
  pose proof (twice_half_consecutive (x - 1) ltac:(lia)) as H.
  replace (x - 1 + 1) with x in H by lia.
  replace (x * (x - 1)) with ((x - 1) * x) by lia. exact H.
Qed.

Lemma in_block_rows (b : blk) (n i j row col : Z) :
  in_block b n i j row col <->
  i <= col <= j /\ first_row b i j <= row < last_row b n i col.
Proof. unfold in_block. destruct b; cbn [first_row last_row]; lia. Qed.

Lemma block_pos_first (b : blk) (n i j row col : Z) :
  block_pos b n i j row col
  = block_pos b n i j (first_row b i j) col + (row - first_row b i j).
Proof. destruct b; cbn [block_pos first_row]; lia. Qed.

Lemma block_pos_next (b : blk) (n i j col : Z) :
  0 <= i <= col ->
  block_pos b n i j (first_row b i j) (col + 1)
  = block_pos b n i j (first_row b i j) col
    + (last_row b n i col - first_row b i j).
Proof.
  intros H. destruct b; cbn [block_pos first_row last_row]; try lia.
  pose proof (tri_pos_twice (col - i) ltac:(lia)).
  pose proof (tri_pos_twice (col + 1 - i) ltac:(lia)).
  replace (col + 1 - i - 1) with (col - i) in * by lia. nia.
Qed.

Lemma block_pos_start (b : blk) (n i j : Z) :
  block_pos b n i j (first_row b i j) i = 0.
Proof.
  destruct b; cbn [block_pos first_row]; try lia.
  replace (i - i) with 0 by lia. reflexivity.
Qed.

Lemma block_pos_end (b : blk) (n i j : Z) :
  0 <= i <= j ->
  block_pos b n i j (first_row b i j) (j + 1) = block_count b n i j.
Proof.
  intros H. destruct b; cbn [block_pos first_row block_count]; try lia.
  replace ((j + 1 - i) * (j + 1 - i - 1)) with ((j - i) * (j - i + 1)) by lia.
  lia.
Qed.

Lemma rows_nonneg (b : blk) (n i j col : Z) :
  0 <= i <= col -> col <= j < n -> first_row b i j <= last_row b n i col.
Proof. destruct b; cbn [first_row last_row]; lia. Qed.

Lemma block_pos_mono (b : blk) (n i j c c' : Z) :
  0 <= i <= c -> c <= c' -> c' <= j + 1 -> j < n ->
  block_pos b n i j (first_row b i j) c
  <= block_pos b n i j (first_row b i j) c'.
Proof.
  intros H0 H1 H2 H3.
  replace c' with (c + Z.of_nat (Z.to_nat (c' - c))) by lia.
  assert (Hk : c + Z.of_nat (Z.to_nat (c' - c)) <= j + 1) by lia.
  induction (Z.to_nat (c' - c)) as [|k IH].
  - replace (c + Z.of_nat 0) with c by lia. lia.
  - replace (c + Z.of_nat (S k)) with (c + Z.of_nat k + 1) in * by lia.
    rewrite block_pos_next by lia.
    pose proof (rows_nonneg b n i j (c + Z.of_nat k) ltac:(lia) ltac:(lia)).
    specialize (IH ltac:(lia)). lia.
Qed.

(** One column of [break_in_blocks]: the three inner loops. *)
Lemma copy_column_buf {A : Type} (mat : list A) (n i j c : Z)
  (t : seg (blocks A)) :
  0 <= i <= c -> c <= j < n -> len mat = n * n ->
  (forall b, 0 <= counter b t /\
     counter b t + (last_row b n i c - first_row b i j)
       <= len (buf b (mem t))) ->
  exists t', (s <- copy_rows store_buf mat n c Top 0 i t ;;
              s <- copy_rows store_buf mat n c Tri i c s ;;
              copy_rows store_buf mat n c Bot (j + 1) n s) = Done t' /\
    forall b,
      counter b t' = counter b t + (last_row b n i c - first_row b i j) /\
      len (buf b (mem t')) = len (buf b (mem t)) /\
      (forall row, first_row b i j <= row < last_row b n i c ->
         rd (buf b (mem t')) (counter b t + (row - first_row b i j))
         = rd mat (row + c * n)) /\
      (forall p, ~ counter b t <= p
                   < counter b t + (last_row b n i c - first_row b i j) ->
         rd (buf b (mem t')) p = rd (buf b (mem t)) p).
Proof.
  intros Hi Hc Hmat Hcap.
  destruct (copy_rows_buf mat n c Top 0 i t)
    as (t1 & E1 & C1 & O1 & L1 & R1 & F1); try lia.
  { apply (Hcap Top). } { apply (Hcap Top). }
  destruct (O1 Tri ltac:(discriminate)) as [O1rc O1rb].
  destruct (O1 Bot ltac:(discriminate)) as [O1bc O1bb].
  destruct (copy_rows_buf mat n c Tri i c t1)
    as (t2 & E2 & C2 & O2 & L2 & R2 & F2); try lia.
  { rewrite O1rc. apply (Hcap Tri). }
  { rewrite O1rc, O1rb. apply (Hcap Tri). }
  destruct (O2 Top ltac:(discriminate)) as [O2tc O2tb].
  destruct (O2 Bot ltac:(discriminate)) as [O2bc O2bb].
  destruct (copy_rows_buf mat n c Bot (j + 1) n t2)
    as (t3 & E3 & C3 & O3 & L3 & R3 & F3); try lia.
  { rewrite O2bc, O1bc. apply (Hcap Bot). }
  { rewrite O2bc, O1bc, O2bb, O1bb. apply (Hcap Bot). }
  destruct (O3 Top ltac:(discriminate)) as [O3tc O3tb].
  destruct (O3 Tri ltac:(discriminate)) as [O3rc O3rb].
  exists t3. rewrite E1; cbn [bind]. rewrite E2; cbn [bind].
  split; [exact E3 | ].
  intros [ | | ]; cbn [first_row last_row].
  - rewrite O3tc, O3tb, O2tc, O2tb, C1, L1.
    split; [reflexivity | ]. split; [reflexivity | ]. split; [exact R1 | exact F1].
  - rewrite O3rc, O3rb, C2, L2, O1rc, O1rb.
    split; [reflexivity | ]. split; [reflexivity | ].
    rewrite O1rc in R2, F2. rewrite O1rb in F2. split; [exact R2 | exact F2].
  - rewrite C3, L3, O2bc, O2bb, O1bc, O1bb.
    split; [reflexivity | ]. split; [reflexivity | ].
    rewrite O2bc, O1bc in R3, F3. rewrite O2bb, O1bb in F3.
    split; [exact R3 | exact F3].
Qed.

Lemma break_in_blocks_segmented {A : Type} (mat : list A) (n i j : Z)
  (bs : blocks A) :
  0 <= i -> i <= j -> j < n -> len mat = n * n ->
  (forall b, block_count b n i j <= len (buf b bs)) ->
  exists bs', break_in_blocks mat n i j bs = Done bs' /\
              segmented mat n i j bs bs'.
Proof.
  intros Hi Hij Hj Hmat Hcap. unfold break_in_blocks, break_in_blocks_with.
  set (filled := fun b c => block_pos b n i j (first_row b i j) c).
  destruct (for_loop_total
    (fun c t =>
       (forall b, counter b t = filled b c) /\
       (forall b, len (buf b (mem t)) = len (buf b bs)) /\
       (forall b row col, in_block b n i j row col -> col < c ->
          rd (buf b (mem t)) (block_pos b n i j row col)
          = rd mat (row + col * n)) /\
       (forall b p, 0 <= p < filled b c ->
          exists row col, in_block b n i j row col /\
                          p = block_pos b n i j row col) /\
       (forall b p, ~ 0 <= p < filled b c ->
          rd (buf b (mem t)) p = rd (buf b bs) p))
    i (j + 1)
    (fun col s =>
       s <- copy_rows store_buf mat n col Top 0 i s ;;
       s <- copy_rows store_buf mat n col Tri i col s ;;
       copy_rows store_buf mat n col Bot (j + 1) n s)
    (mkSeg bs 0 0 0)) as (s' & Hrun & I1 & I2 & I3 & I4 & I5).
  - lia.
  - split; [ | split; [ | split; [ | split]]].
    + intros b. unfold filled. rewrite block_pos_start. destruct b; reflexivity.
    + intros b. reflexivity.
    + intros b row col Hin Hc. apply in_block_rows in Hin. lia.
    + intros b p Hp. unfold filled in Hp. rewrite block_pos_start in Hp. lia.
    + intros b p _. reflexivity.
  - intros c t Hc (C & L & R & S & F).
    assert (Hfill : forall b,
              0 <= filled b c /\
              filled b (c + 1)
              = filled b c + (last_row b n i c - first_row b i j) /\
              filled b (c + 1) <= block_count b n i j /\
              first_row b i j <= last_row b n i c).
    { intros b. unfold filled.
      pose proof (block_pos_mono b n i j i c ltac:(lia) ltac:(lia) ltac:(lia)
                    ltac:(lia)) as M0.
      rewrite block_pos_start in M0.
      pose proof (block_pos_mono b n i j (c + 1) (j + 1) ltac:(lia) ltac:(lia)
                    ltac:(lia) ltac:(lia)) as M1.
      rewrite block_pos_end in M1 by lia.
      pose proof (rows_nonneg b n i j c ltac:(lia) ltac:(lia)).
      rewrite block_pos_next in M1 by lia.
      rewrite block_pos_next by lia. lia. }
    destruct (copy_column_buf mat n i j c t) as (t' & E & Hsum); try lia.
    { intros b. rewrite C, L. destruct (Hfill b) as (F0 & F1 & F2 & _).
      specialize (Hcap b). lia. }
    exists t'. split; [exact E | ].
    split; [ | split; [ | split; [ | split]]].
    + intros b. destruct (Hsum b) as (S1 & _). destruct (Hfill b) as (_ & F1 & _).
      rewrite S1, C, F1. reflexivity.
    + intros b. destruct (Hsum b) as (_ & S2 & _). rewrite S2. apply L.
    + intros b row col Hin Hcol.
      destruct (Hsum b) as (_ & _ & S3 & S4).
      destruct (Hfill b) as (F0 & F1 & F2 & F3).
      pose proof Hin as Hin'. apply in_block_rows in Hin'.
      rewrite block_pos_first.
      destruct (Z.eq_dec col c) as [->|Hne].
      * fold (filled b c). rewrite <- C. apply S3. lia.
      * rewrite S4.
        -- rewrite <- block_pos_first. apply R; [exact Hin | lia].
        -- rewrite C.
           pose proof (block_pos_mono b n i j (col + 1) c ltac:(lia) ltac:(lia)
                         ltac:(lia) ltac:(lia)) as M.
           rewrite block_pos_next in M by lia. fold (filled b c) in M.
           destruct b; cbn [first_row last_row] in *; lia.
    + intros b p Hp. destruct (Hfill b) as (F0 & F1 & F2 & F3).
      destruct (Z.lt_ge_cases p (filled b c)) as [Hlt|Hge].
      * apply S. lia.
      * exists (first_row b i j + (p - filled b c)), c. split.
        -- apply in_block_rows. lia.
        -- rewrite block_pos_first. fold (filled b c). lia.
    + intros b p Hp. destruct (Hsum b) as (_ & _ & _ & S4).
      destruct (Hfill b) as (F0 & F1 & F2 & F3).
      rewrite S4 by (rewrite C; lia). apply F. lia.
  - exists (mem s'). rewrite Hrun. cbn [bind]. split; [reflexivity | ].
    assert (Hend : forall b, filled b (j + 1) = block_count b n i j)
      by (intros b; apply block_pos_end; lia).
    split; [ | split; [ | split]].
    + intros b row col Hin. split.
      * pose proof Hin as Hin'. apply in_block_rows in Hin'.
        rewrite block_pos_first.
        pose proof (block_pos_mono b n i j i col ltac:(lia) ltac:(lia)
                      ltac:(lia) ltac:(lia)) as M0.
        rewrite block_pos_start in M0.
        pose proof (block_pos_mono b n i j (col + 1) (j + 1) ltac:(lia)
                      ltac:(lia) ltac:(lia) ltac:(lia)) as M1.
        rewrite block_pos_end, block_pos_next in M1 by lia.
        destruct b; cbn [first_row last_row] in *; lia.
      * apply I3; [exact Hin | ]. apply in_block_rows in Hin. lia.
    + intros b p Hp. apply I4. rewrite Hend. exact Hp.
    + intros b p Hp. apply I5. rewrite Hend. exact Hp.
    + exact I2.
Qed.

(** ** [break_in_blocks]: the stores and the buffers *)

Lemma store_buf_rd {A : Type} (b : blk) (pos : Z) (v : A) (m m' : blocks A) :
  store_buf b pos v m = Done m' ->
  rd (buf b m') pos = Done v /\
  forall b' pos', (b', pos') <> (b, pos) ->
                  rd (buf b' m') pos' = rd (buf b' m) pos'.
Proof.
  intros H. destruct b; cbn [store_buf] in H; bind_inv H; injection H as <-;
    (split; [apply (rd_wr_same _ _ _ _ Hx) | ]);
    intros [ | | ] pos' Hne; cbn [buf top tri bot]; try reflexivity;
    apply (rd_wr_other _ _ _ _ _ Hx); congruence.
Qed.

(** After the stores of a log in which no place occurs twice, each place
    holds the value of its store. *)
Lemma replay_rd {A : Type} (log : list (blk * Z * A)) (bs : blocks A) :
  NoDup (map out_pos log) ->
  forall bs', replay log bs = Done bs' ->
  forall b pos v, In (b, pos, v) log -> rd (buf b bs') pos = Done v.
Proof.
  induction log as [|[[b0 p0] v0] older IH]; intros Hnd bs' Hrun b pos v Hin;
    [contradiction | ].
  cbn [replay] in Hrun. bind_inv Hrun. rename x into m, Hx into Hm.
  destruct (store_buf_rd _ _ _ _ _ Hrun) as [Hsame Hother].
  cbn [map] in Hnd. inversion Hnd as [|? ? Hnotin Hnd']; subst.
  destruct Hin as [E | Hin].
  - injection E as <- <- <-. exact Hsame.
  - rewrite Hother.
    + apply (IH Hnd' m Hm b pos v Hin).
    + intros E. apply Hnotin. apply in_map_iff.
      exists (b, pos, v). split; [exact E | exact Hin].
Qed.

(** The stores of [break_in_blocks]: each one puts the entry of a region at
    the position of the layout. *)
Lemma break_in_blocks_log_regions (n i j : Z) (t : seg (list (blk * Z * Z))) :
  0 <= i -> i <= j -> j < n ->
  break_in_blocks_log (index_matrix n) n i j = Done t ->
  forall b pos src, In (b, pos, src) (mem t) ->
    exists row col, in_block b n i j row col /\ src = row + col * n /\
                    pos = block_pos b n i j row col.
Proof.
  intros Hi Hij Hj Ht b pos src Hin.
  destruct (break_in_blocks_log_index n i j Hi Hij Hj)
    as (u & Hu & Hpos & Hnd & _).
  rewrite Ht in Hu. injection Hu as <-.
  set (bs0 := mkBlocks (repeat 0 (Z.to_nat (block_count Top n i j)))
                       (repeat 0 (Z.to_nat (block_count Tri n i j)))
                       (repeat 0 (Z.to_nat (block_count Bot n i j)))).
  assert (Hcap : forall b', block_count b' n i j <= len (buf b' bs0)).
  { intros b'. pose proof (block_count_capacity b' n i j Hi Hij Hj) as [H0 _].
    destruct b'; cbn [buf bs0 top tri bot]; rewrite len_repeat; lia. }
  pose proof (len_index_matrix n ltac:(lia)) as Hlen.
  destruct (break_in_blocks_segmented (index_matrix n) n i j bs0 Hi Hij Hj
              Hlen Hcap) as (bs' & Hrun & Hreg & Hsur & _).
  unfold break_in_blocks in Hrun. bind_inv Hrun. injection Hrun as <-.
  rename x into s, Hx into Hs.
  destruct (break_in_blocks_replayed _ _ _ _ _ _ Hs) as (t' & Ht' & _ & Hrep).
  rewrite Ht in Ht'. injection Ht' as <-.
  pose proof (replay_rd (mem t) bs0 Hnd (mem s) Hrep b pos src Hin) as Hval.
  specialize (Hpos _ Hin). cbn [out_pos fst snd] in Hpos.
  destruct (Hsur b pos Hpos) as (row & col & Hrc & ->).
  exists row, col. split; [exact Hrc | ]. split; [ | reflexivity].
  destruct (Hreg b row col Hrc) as [_ Hrd]. rewrite Hval in Hrd.
  symmetry in Hrd. now apply rd_index_matrix in Hrd.
Qed.

(** C5.  For every [n] by [n] matrix [mat] and every pair
    [0 <= i < j <= n-1], one call to [break_in_blocks] (on buffers that can
    hold the values) ends with the counters [i*(j-i+1)], [(j-i)*(j-i+1)/2]
    and [(n-j-1)*(j-i+1)].  Its stores are those of the log [t], which
    gives for each store the block, the position and the index read from
    the matrix (the log [t'] of the call on [mat] has at the same places
    the entries of [mat] at these indices): that many stores go to the top,
    the triangular and the bottom block; no position of a block is stored
    twice; no index is read twice, and the entry read for a block lies in
    the region of that block (the three regions have no row in common), so
    that every entry goes to at most one place of one block.  At the end
    the buffers hold, at the position of each store, the entry of [mat]
    that it read, and outside the counts what they held before. *)
Theorem break_in_blocks_counts_and_disjointness {A : Type} (mat : list A)
  (n i j : Z) (bs : blocks A) :
  0 <= i -> i < j -> j <= n - 1 -> len mat = n * n ->
  (forall b, block_count b n i j <= len (buf b bs)) ->
  exists (s : seg (blocks A)) (t : seg (list (blk * Z * Z)))
         (t' : seg (list (blk * Z * A))),
    break_in_blocks_with store_buf mat n i j bs = Done s /\
    break_in_blocks_log (index_matrix n) n i j = Done t /\
    break_in_blocks_log mat n i j = Done t' /\
    Forall2 (same_store mat) (mem t) (mem t') /\
    top_counter s = i * (j - i + 1) /\
    tri_counter s = Z.quot ((j - i) * (j - i + 1)) 2 /\
    bot_counter s = (n - j - 1) * (j - i + 1) /\
    count_stores Top (mem t) = i * (j - i + 1) /\
    count_stores Tri (mem t) = Z.quot ((j - i) * (j - i + 1)) 2 /\
    count_stores Bot (mem t) = (n - j - 1) * (j - i + 1) /\
    NoDup (map out_pos (mem t)) /\
    NoDup (map snd (mem t)) /\
    (forall b pos src, In (b, pos, src) (mem t) ->
       0 <= pos < block_count b n i j /\
       (exists row col, in_block b n i j row col /\ src = row + col * n /\
                        pos = block_pos b n i j row col) /\
       rd (buf b (mem s)) pos = rd mat src) /\
    (forall b pos, ~ 0 <= pos < block_count b n i j ->
       rd (buf b (mem s)) pos = rd (buf b bs) pos).
Proof.
  intros Hi Hij Hj Hmat Hcap.
  destruct (break_in_blocks_with_buf mat n i j bs Hi ltac:(lia) ltac:(lia)
              Hmat Hcap) as (s & Hs & Hcs & _).
  destruct (break_in_blocks_log_index n i j Hi ltac:(lia) ltac:(lia))
    as (t & Ht & Hpos & Hnd & Hsrc & Hnds & Hcnt).
  pose proof (break_in_blocks_log_sim mat n i j ltac:(lia) Hmat) as Hsim.
  rewrite Ht in Hsim.
  destruct (break_in_blocks_replayed mat n i j bs s Hs) as (t' & Ht' & _).
  rewrite Ht' in Hsim. cbn [rel_result] in Hsim. destruct Hsim as [_ Hlog].
  destruct (break_in_blocks_segmented mat n i j bs Hi ltac:(lia) ltac:(lia)
              Hmat Hcap) as (bs' & Hrun & Hreg & _ & Hframe & _).
  unfold break_in_blocks in Hrun. rewrite Hs in Hrun. cbn [bind] in Hrun.
  injection Hrun as <-.
  exists s, t, t'.
  split; [exact Hs | ]. split; [exact Ht | ]. split; [exact Ht' | ].
  split; [exact Hlog | ].
  split; [apply (Hcs Top) | ]. split; [apply (Hcs Tri) | ].
  split; [apply (Hcs Bot) | ].
  split; [apply (Hcnt Top) | ]. split; [apply (Hcnt Tri) | ].
  split; [apply (Hcnt Bot) | ]. split; [exact Hnd | ].
  split; [exact Hnds | ]. split; [ | exact Hframe].
  intros b pos src Hin.
  split; [apply (Hpos _ Hin) | ].
  destruct (break_in_blocks_log_regions n i j t Hi ltac:(lia) ltac:(lia) Ht
              b pos src Hin) as (row & col & Hrc & -> & ->).
  split; [exists row, col; auto | ].
  now apply Hreg.
Qed.

Lemma break_in_blocks_counts_witness :
  exists (s : seg (blocks Z)) (t : seg (list (blk * Z * Z)))
         (t' : seg (list (blk * Z * Z))),
    break_in_blocks_with store_buf counts_example 4 1 3
      (mkBlocks (repeat 0 6) (repeat 0 10) (repeat 0 6)) = Done s /\
    break_in_blocks_log (index_matrix 4) 4 1 3 = Done t /\
    break_in_blocks_log counts_example 4 1 3 = Done t' /\
    Forall2 (same_store counts_example) (mem t) (mem t') /\
    top_counter s = 1 * (3 - 1 + 1) /\
    tri_counter s = Z.quot ((3 - 1) * (3 - 1 + 1)) 2 /\
    bot_counter s = (4 - 3 - 1) * (3 - 1 + 1) /\
    count_stores Top (mem t) = 1 * (3 - 1 + 1) /\
    count_stores Tri (mem t) = Z.quot ((3 - 1) * (3 - 1 + 1)) 2 /\
    count_stores Bot (mem t) = (4 - 3 - 1) * (3 - 1 + 1) /\
    NoDup (map out_pos (mem t)) /\
    NoDup (map snd (mem t)) /\
    (forall b pos src, In (b, pos, src) (mem t) ->
       0 <= pos < block_count b 4 1 3 /\
       (exists row col, in_block b 4 1 3 row col /\ src = row + col * 4 /\
                        pos = block_pos b 4 1 3 row col) /\
       rd (buf b (mem s)) pos = rd counts_example src) /\
    (forall b pos, ~ 0 <= pos < block_count b 4 1 3 ->
       rd (buf b (mem s)) pos
       = rd (buf b (mkBlocks (repeat 0 6) (repeat 0 10) (repeat 0 6))) pos).
Proof.
  apply (break_in_blocks_counts_and_disjointness counts_example 4 1 3
           (mkBlocks (repeat 0 6) (repeat 0 10) (repeat 0 6)));
    try lia; try reflexivity.
  intros [ | | ]; vm_compute; discriminate.
Defined.

(** The run of this example: the stores, the latest first, and the
    buffers at the end. *)
Example break_in_blocks_counts_run :
  break_in_blocks_log (index_matrix 4) 4 1 3
  = Done (mkSeg [(Tri, 2, 14); (Tri, 1, 13); (Top, 2, 12); (Tri, 0, 9);
                 (Top, 1, 8); (Top, 0, 4)] 3 3 0) /\
  break_in_blocks counts_example 4 1 3
    (mkBlocks (repeat 0 6) (repeat 0 10) (repeat 0 6))
  = Done (mkBlocks [104; 108; 112; 0; 0; 0]
                   [109; 113; 114; 0; 0; 0; 0; 0; 0; 0] (repeat 0 6)).
Proof. split; reflexivity. Qed.

(** ** [ml_ab] *)

Section FitterProps.
Variable exp : double -> double.

Lemma recompute_fg_score (k d : list double) (n : Z) (a da b db : double) :
  recompute_fg exp k d n a da b db = score exp k d n (a + da)%D (b + db)%D.
Proof. reflexivity. Qed.

Lemma dadd_zero_r (x : double) : x <> S754_zero true -> (x + d0)%D = x.
Proof. destruct x as [[|]| | |]; simpl; intros H; congruence. Qed.

Lemma backtrack_Done (fuel : nat) (k d : list double) (n : Z)
  (a b oldgrad : double) :
  forall da db f g da' db' f' g',
    recompute_fg exp k d n a da b db = Done (f, g) ->
    backtrack exp fuel k d n a b oldgrad da db f g = Done (da', db', f', g') ->
    recompute_fg exp k d n a da' b db' = Done (f', g').
Proof.
  induction fuel as [|fuel IH]; intros da db f g da' db' f' g' Hfg Hrun;
    simpl in Hrun; destruct (dgt _ oldgrad); try discriminate;
    try (injection Hrun as <- <- <- <-; exact Hfg).
  bind_inv Hrun. destruct x as [f1 g1].
  apply (IH _ _ _ _ _ _ _ _ Hx Hrun).
Qed.

(** When the Newton-Raphson loop ends, the test [f*f + g*g > TOLERANCE] is
    false; either no step was taken, or [f] and [g] are the scores at the
    parameters the loop ends with. *)
Lemma newton_Done (inner fuel : nat) (k d : list double) (n : Z) :
  forall s s',
    newton exp inner fuel k d n s = Done s' ->
    (ns_f s' * ns_f s' + ns_g s' * ns_g s' >? TOLERANCE)%D = false /\
    (s' = s \/
     score exp k d n (ns_a s') (ns_b s') = Done (ns_f s', ns_g s')).
Proof.
  induction fuel as [|fuel IH]; intros s s' Hrun; simpl in Hrun;
    destruct (dgt _ TOLERANCE) eqn:Etest; try discriminate;
    try (injection Hrun as <-; split; [exact Etest | left; reflexivity]).
  bind_inv Hrun. destruct x as [[dfda dgda] dgdb].
  bind_inv Hrun. destruct x as [f g].
  bind_inv Hrun. destruct x as [[[da db] f1] g1].
  pose proof (backtrack_Done _ _ _ _ _ _ _ _ _ _ _ _ _ _ _ Hx0 Hx1) as Hfg.
  destruct (IH _ _ Hrun) as [Htest [-> | Hsc]].
  - split; [exact Htest | right]. simpl. rewrite <- recompute_fg_score. exact Hfg.
  - split; [exact Htest | right; exact Hsc].
Qed.

(** X11.  What [ml_ab] returns: the parameters [(a, b)] it leaves in [ab],
    at which the exit test of the loop is false, and the sum
    [exp(a + b*d_i) + k_i*(a + b*d_i)] over the [n] elements at these
    parameters.  (A start at a negative zero is excluded: the first
    evaluation of the scores adds [da = db = 0.0] to the parameters.) *)
Lemma ml_ab_Done (fuel : nat) (k d : list double) (n : Z)
  (a0 b0 llik a b : double) :
  a0 <> S754_zero true -> b0 <> S754_zero true ->
  ml_ab exp fuel k d (a0, b0) n = Done (llik, (a, b)) ->
  exists f g,
    score exp k d n a b = Done (f, g) /\
    (f * f + g * g >? TOLERANCE)%D = false /\
    loglik exp k d n a b = Done llik.
Proof.
  intros Ha Hb Hrun. unfold ml_ab in Hrun. simpl in Hrun.
  bind_inv Hrun. destruct x as [f g].
  bind_inv Hrun. bind_inv Hrun. injection Hrun as <- <- <-.
  destruct (newton_Done _ _ _ _ _ _ _ Hx0) as [Htest [-> | Hsc]].
  - exists f, g. simpl in *. split; [ | split; [exact Htest | exact Hx1]].
    rewrite recompute_fg_score, !dadd_zero_r in Hx by assumption. exact Hx.
  - exists (ns_f x), (ns_g x). auto.
Qed.

(** C6.  With length 0, [ml_ab] returns the log-likelihood [+0.0] and leaves
    the parameter pair as it was, whatever the two sequences are; it does so
    on the empty sequences, every read of which is a fault: no element is
    read. *)
Theorem ml_ab_length_zero (fuel : nat) (k d : list double)
  (ab : double * double) :
  ml_ab exp fuel k d ab 0 = Done (d0, ab) /\
  ml_ab exp fuel [] [] ab 0 = Done (d0, ab).
Proof.
  destruct ab as [a b]. split; destruct fuel; reflexivity.
Qed.

End FitterProps.

Lemma ml_ab_Done_witness :
  exists f g,
    score exp_c99 [of_int 5; of_int 3; of_int 2]
      [of_int 1; of_int 2; of_int 3] 3
      (fst (snd fit_example)) (snd (snd fit_example)) = Done (f, g) /\
    (f * f + g * g >? TOLERANCE)%D = false /\
    loglik exp_c99 [of_int 5; of_int 3; of_int 2]
      [of_int 1; of_int 2; of_int 3] 3
      (fst (snd fit_example)) (snd (snd fit_example))
    = Done (fst fit_example).
Proof.
  apply (ml_ab_Done exp_c99 30 [of_int 5; of_int 3; of_int 2]
           [of_int 1; of_int 2; of_int 3] 3 d0 d0 (fst fit_example)
           (fst (snd fit_example)) (snd (snd fit_example)));
    [discriminate | discriminate | vm_compute; reflexivity].
Defined.

(** The fitter depends on [exp] through its values only. *)
Lemma for_iter_ext {St : Type} (f g : Z -> St -> result St) :
  (forall i s, f i s = g i s) ->
  forall cnt lo s, for_iter cnt lo f s = for_iter cnt lo g s.
Proof.
  intros H. induction cnt as [|c IH]; intros lo s; cbn [for_iter];
    [reflexivity | ].
  rewrite H. destruct (g lo s); cbn [bind]; auto.
Qed.

Section FitterExt.
Variables exp exp' : double -> double.
Hypothesis Hexp : forall x, exp x = exp' x.

Lemma recompute_fg_ext (k d : list double) (n : Z) (a da b db : double) :
  recompute_fg exp k d n a da b db = recompute_fg exp' k d n a da b db.
Proof.
  unfold recompute_fg, for_loop. apply for_iter_ext.
  intros i [f g]. destruct (rd d i) as [di| |]; cbn [bind]; auto.
  destruct (rd k i) as [ki| |]; cbn [bind]; auto. now rewrite Hexp.
Qed.

Lemma score_ext (k d : list double) (n : Z) (a b : double) :
  score exp k d n a b = score exp' k d n a b.
Proof.
  unfold score, for_loop. apply for_iter_ext.
  intros i [f g]. destruct (rd d i) as [di| |]; cbn [bind]; auto.
  destruct (rd k i) as [ki| |]; cbn [bind]; auto. now rewrite Hexp.
Qed.

Lemma derivatives_ext (d : list double) (n : Z) (a b : double) :
  derivatives exp d n a b = derivatives exp' d n a b.
Proof.
  unfold derivatives, for_loop. apply for_iter_ext.
  intros i [[x y] z]. destruct (rd d i) as [di| |]; cbn [bind]; auto.
  now rewrite Hexp.
Qed.

Lemma loglik_ext (k d : list double) (n : Z) (a b : double) :
  loglik exp k d n a b = loglik exp' k d n a b.
Proof.
  unfold loglik, for_loop. apply for_iter_ext.
  intros i l. destruct (rd d i) as [di| |]; cbn [bind]; auto.
  destruct (rd k i) as [ki| |]; cbn [bind]; auto. now rewrite Hexp.
Qed.

Lemma backtrack_ext (fuel : nat) (k d : list double) (n : Z)
  (a b oldgrad : double) :
  forall da db f g,
    backtrack exp fuel k d n a b oldgrad da db f g
    = backtrack exp' fuel k d n a b oldgrad da db f g.
Proof.
  induction fuel as [|fuel IH]; intros da db f g; cbn [backtrack];
    [reflexivity | ].
  destruct (dgt _ oldgrad); [ | reflexivity].
  rewrite recompute_fg_ext.
  destruct (recompute_fg exp' k d n a _ b _) as [[f1 g1]| |]; cbn [bind]; auto.
Qed.

Lemma newton_ext (inner fuel : nat) (k d : list double) (n : Z) :
  forall s, newton exp inner fuel k d n s = newton exp' inner fuel k d n s.
Proof.
  induction fuel as [|fuel IH]; intros s; cbn [newton]; [reflexivity | ].
  destruct (dgt _ TOLERANCE); [ | reflexivity].
  rewrite derivatives_ext.
  destruct (derivatives exp' d n (ns_a s) (ns_b s)) as [[[x y] z]| |];
    cbn [bind]; auto.
  rewrite recompute_fg_ext.
  destruct (recompute_fg exp' k d n (ns_a s) _ (ns_b s) _) as [[f g]| |];
    cbn [bind]; auto.
  rewrite backtrack_ext.
  destruct (backtrack exp' inner k d n (ns_a s) (ns_b s) _ _ _ f g)
    as [[[[da db] f1] g1]| |]; cbn [bind]; auto.
Qed.

Lemma ml_ab_ext (fuel : nat) (k d : list double) (ab : double * double)
  (n : Z) :
  ml_ab exp fuel k d ab n = ml_ab exp' fuel k d ab n.
Proof.
  unfold ml_ab. rewrite recompute_fg_ext.
  destruct (recompute_fg exp' k d n (fst ab) d0 (snd ab) d0) as [[f g]| |];
    cbn [bind]; auto.
  rewrite newton_ext.
  destruct (newton exp' fuel fuel k d n _) as [s| |]; cbn [bind]; auto.
  now rewrite loglik_ext.
Qed.

End FitterExt.

(** C3 (the code departs from the claim).  For every [exp] with the values
    C99 fixes at [+0.0] and at NaN: on one observation [k = [5]] at distance
    [d = [0]], from [(a, b) = (0, 0)], the scores are [f = -4] and [g = -0],
    the determinant [dfdb*dgda - dfda*dgdb] of the Newton-Raphson step is
    [0], the step is [0/0], and the test [NaN > TOLERANCE] ends the loop.
    [ml_ab] returns with [(a, b) = (NaN, NaN)] and the value [NaN]: the
    scores at the returned parameters are [NaN], and [F*F + G*G <= 1e-6]
    does not hold. *)
Theorem ml_ab_singular_step_ends_on_nan (exp : double -> double)
  (fuel : nat) :
  exp d0 = d1 -> exp NAN = NAN ->
  ml_ab exp (S fuel) [of_int 5] [d0] (d0, d0) 1 = Done (NAN, (NAN, NAN)) /\
  score exp [of_int 5] [d0] 1 NAN NAN = Done (NAN, NAN) /\
  SFleb (NAN * NAN + NAN * NAN)%D TOLERANCE = false /\
  (NAN * NAN + NAN * NAN >? TOLERANCE)%D = false.
Proof.
  intros H0 H1.
  set (exp' := fun x : double =>
                 match x with
                 | S754_zero false => d1
                 | S754_nan => NAN
                 | _ => exp x
                 end).
  assert (Hexp : forall x, exp x = exp' x).
  { intros [[|]| | |]; cbn; auto. }
  rewrite (ml_ab_ext exp exp' Hexp), (score_ext exp exp' Hexp).
  split; [destruct fuel; vm_compute; reflexivity | ].
  split; [vm_compute; reflexivity | ]. split; reflexivity.
Qed.

Lemma ml_ab_singular_step_witness :
  ml_ab exp_c99 1 [of_int 5] [d0] (d0, d0) 1 = Done (NAN, (NAN, NAN)) /\
  score exp_c99 [of_int 5] [d0] 1 NAN NAN = Done (NAN, NAN) /\
  SFleb (NAN * NAN + NAN * NAN)%D TOLERANCE = false /\
  (NAN * NAN + NAN * NAN >? TOLERANCE)%D = false.
Proof.
  apply (ml_ab_singular_step_ends_on_nan exp_c99 0); reflexivity.
Defined.

(** ** The order of the doubles *)

Lemma dlt_spec (x y : double) :
  dlt x y = true <-> is_nan x = false /\ is_nan y = false /\ klt (key x) (key y).
Proof.
  unfold dlt, SFltb, klt.
  destruct x as [[|]|[|]| |[|] m e], y as [[|]|[|]| |[|] m' e']; simpl;
    try (split; [discriminate | intros (? & ? & ?); try discriminate; lia]);
    try (split; [intros _; repeat split; lia | reflexivity]).
  - destruct (Z.compare_spec e e'); try fold (Pos.compare m m');
      try destruct (Pos.compare_spec m m'); simpl;
      (split; [try discriminate; intros _; repeat split; lia
              | intros (_ & _ & ?); try reflexivity; lia]).
  - destruct (Z.compare_spec e e'); try fold (Pos.compare m m');
      try destruct (Pos.compare_spec m m'); simpl;
      (split; [try discriminate; intros _; repeat split; lia
              | intros (_ & _ & ?); try reflexivity; lia]).
Qed.

Lemma dlt_irrefl (x : double) : dlt x x = false.
Proof.
  destruct (dlt x x) eqn:E; [ | reflexivity].
  apply dlt_spec in E. destruct E as (_ & _ & E). unfold klt in E. lia.
Qed.

Lemma dlt_not_nan (x y : double) :
  dlt x y = true -> is_nan x = false /\ is_nan y = false.
Proof. intros H. apply dlt_spec in H. tauto. Qed.

(** If [t > c] is false and [c' > c], then [t > c'] is false. *)
Lemma dgt_false_mono (t c c' : double) :
  (t >? c)%D = false -> (c' >? c)%D = true -> (t >? c')%D = false.
Proof.
  change (dlt c t = false -> dlt c c' = true -> dlt c' t = false).
  intros H1 H2. destruct (dlt c' t) eqn:E; [ | reflexivity].
  apply dlt_spec in H2, E.
  destruct H2 as (Hc & Hc' & H2), E as (_ & Ht & E).
  assert (H : dlt c t = true).
  { apply dlt_spec. repeat split; try assumption. unfold klt in *. lia. }
  congruence.
Qed.

Lemma dgt_neg_infinity (c c' : double) :
  (c' >? c)%D = true -> (c' >? NEG_INFINITY)%D = true.
Proof.
  change (dlt c c' = true -> dlt NEG_INFINITY c' = true).
  intros H. apply dlt_spec in H. destruct H as (Hc & Hc' & H).
  apply dlt_spec. repeat split; try assumption.
  unfold klt in *.
  destruct c as [[|]|[|]| |[|] m e], c' as [[|]|[|]| |[|] m' e']; simpl in *;
    try discriminate; lia.
Qed.

Lemma neg_infinity_not_gt (c : double) : (NEG_INFINITY >? c)%D = false.
Proof. destruct c as [[|]|[|]| |[|] m e]; reflexivity. Qed.

Lemma dadd_nan (o l : double) :
  is_nan (o + l)%D = false -> is_nan o = false /\ is_nan l = false.
Proof.
  destruct o as [[|]|[|]| |[|] m e], l as [[|]|[|]| |[|] m' e']; simpl;
    intros H; try discriminate; split; reflexivity.
Qed.

Lemma dadd_neg_infinity (l : double) :
  (NEG_INFINITY + l)%D = NEG_INFINITY \/ (NEG_INFINITY + l)%D = NAN.
Proof. destruct l as [[|]|[|]| |[|] m e]; simpl; auto. Qed.

(** ** [get_breakpoints] *)

Lemma rd_app_l {A : Type} (l : list A) (v : A) (p : Z) :
  0 <= p < len l -> rd (l ++ [v]) p = rd l p.
Proof.
  intros Hp. unfold rd, len in *. destruct (0 <=? p); [ | reflexivity].
  rewrite nth_error_app1 by lia. reflexivity.
Qed.

Lemma rd_app_r {A : Type} (l : list A) (v : A) :
  rd (l ++ [v]) (len l) = Done v.
Proof.
  apply rd_Done. unfold len. split; [lia | ].
  rewrite Nat2Z.id, nth_error_app2 by lia.
  now rewrite Nat.sub_diag.
Qed.

Lemma fill_Done {A : Type} (n : Z) (f : Z -> result A) :
  0 <= n ->
  (forall i, 0 <= i < n -> exists v, f i = Done v) ->
  exists l, fill n f = Done l /\ len l = n /\
            forall i, 0 <= i < n -> rd l i = f i.
Proof.
  intros Hn Hf. unfold fill.
  destruct (for_loop_total
    (fun i l => len l = i /\ forall p, 0 <= p < i -> rd l p = f p)
    0 n (fun i l => v <- f i ;; Done (l ++ [v])) [])
    as (l & Hrun & Hlen & Hrd).
  - exact Hn.
  - split; [reflexivity | intros p Hp; lia].
  - intros i l Hi (Hlen & Hrd).
    destruct (Hf i Hi) as (v & Hv). exists (l ++ [v]).
    rewrite Hv. split; [reflexivity | ]. split.
    + unfold len in *. rewrite length_app. simpl. lia.
    + intros p Hp. destruct (Z.eq_dec p i) as [-> | Hne].
      * rewrite <- Hlen at 1. rewrite rd_app_r. now rewrite Hv.
      * rewrite rd_app_l by lia. apply Hrd. lia.
  - exists l. auto.
Qed.

Lemma candidate_mono (llik old : list double) (n nb j hi hi' i : Z) (t : double) :
  hi <= hi' -> candidate llik old n nb j hi i t ->
  candidate llik old n nb j hi' i t.
Proof. intros Hle [Hi H]. split; [lia | exact H]. Qed.

Section DynamicProgram.
Variables (llik : list double) (n : Z).
Hypothesis Hn : 1 <= n.
Hypothesis Hllik : len llik = n * n.

Lemma dp_start_loop (old new : list double) (nb j bp : Z) :
  len new = n -> len old = n -> 1 <= nb -> 3 * nb + 2 <= j < n ->
  rd new j = Done NEG_INFINITY ->
  exists new' bp',
    for_loop (3 * nb) (j - 1) (dp_start llik n j old) (new, bp)
      = Done (new', bp') /\
    len new' = n /\
    (forall p, p <> j -> rd new' p = rd new p) /\
    exists v, rd new' j = Done v /\ best llik old n nb j (j - 1) v bp'.
Proof.
  intros Hnew Hold Hnb Hj Hneg.
  destruct (for_loop_total
    (fun i0 (s : list double * Z) =>
       len (fst s) = n /\
       (forall p, p <> j -> rd (fst s) p = rd new p) /\
       exists v, rd (fst s) j = Done v /\ best llik old n nb j i0 v (snd s))
    (3 * nb) (j - 1) (dp_start llik n j old) (new, bp))
    as ([new' bp'] & Hrun & Hlen & Hframe & v & Hv & Hbest).
  - lia.
  - cbn [fst snd]. split; [exact Hnew | ]. split; [reflexivity | ].
    exists NEG_INFINITY. split; [exact Hneg | ]. split; [ | left; reflexivity].
    intros i t [Hi _]. lia.
  - intros i0 [nw b] Hi0 (Hlen & Hframe & v & Hv & Hub & Hat). cbn [fst snd] in *.
    destruct (rd_in_range old (i0 - 1)) as (o & Ho); [lia | ].
    destruct (rd_in_range llik (i0 + j * n)) as (l & Hl); [nia | ].
    unfold dp_start. rewrite Ho. cbn [bind]. rewrite Hl. cbn [bind].
    rewrite Hv. cbn [bind].
    assert (Hcand : forall i t, candidate llik old n nb j (i0 + 1) i t ->
                      candidate llik old n nb j i0 i t \/ t = (o + l)%D).
    { intros i t [Hi (o' & l' & Ho' & Hl' & ->)].
      destruct (Z.eq_dec i i0) as [-> | Hne].
      - right. congruence.
      - left. split; [lia | ]. exists o', l'. auto. }
    destruct (dgt (o + l) v) eqn:Etest.
    + rewrite (wr_in_range nw j (o + l)%D) by lia. cbn [bind].
      eexists. split; [reflexivity | ]. cbn [fst snd].
      split; [now rewrite len_upd | ]. split.
      * intros p Hp. rewrite <- (Hframe p Hp).
        apply (rd_wr_other nw _ j p (o + l)%D); [ | congruence].
        apply wr_in_range; lia.
      * exists (o + l)%D. split.
        { apply (rd_wr_same nw _ j). apply wr_in_range; lia. }
        split.
        { intros i t Hc. destruct (Hcand i t Hc) as [Hc' | ->].
          - apply (dgt_false_mono t v); [now apply (Hub i) | exact Etest].
          - apply dlt_irrefl. }
        { right. exists i0. split; [ | split; [ | reflexivity]].
          - split; [lia | ]. exists o, l. auto.
          - apply (dgt_neg_infinity v). exact Etest. }
    + eexists. split; [reflexivity | ]. cbn [fst snd].
      split; [exact Hlen | ]. split; [exact Hframe | ].
      exists v. split; [exact Hv | ]. split.
      * intros i t Hc. destruct (Hcand i t Hc) as [Hc' | ->];
          [now apply (Hub i) | exact Etest].
      * destruct Hat as [-> | (i & Hc & Hgt & Hb)]; [left; reflexivity | ].
        right. exists i. split; [ | auto].
        apply (candidate_mono _ _ _ _ _ i0); [lia | exact Hc].
  - exists new', bp'. cbn [fst snd] in *. split; [exact Hrun | ].
    split; [exact Hlen | ]. split; [exact Hframe | ].
    exists v. auto.
Qed.

End DynamicProgram.

Lemma for_loop_total_max {St : Type} (P : Z -> St -> Prop) (lo hi : Z)
  (body : Z -> St -> result St) (s : St) :
  P lo s ->
  (forall i t, lo <= i < hi -> P i t ->
               exists t', body i t = Done t' /\ P (i + 1) t') ->
  exists s', for_loop lo hi body s = Done s' /\ P (Z.max lo hi) s'.
Proof.
  intros H0 Hstep. destruct (Z_le_gt_dec lo hi) as [Hle | Hgt].
  - rewrite Z.max_r by lia. now apply for_loop_total.
  - rewrite Z.max_l by lia. exists s.
    split; [apply for_loop_empty; lia | exact H0].
Qed.

Lemma bits_wr (l l' : list Z) (p x : Z) :
  bits l -> wr l p x = Done l' -> x = 0 \/ x = 1 -> bits l'.
Proof.
  intros Hb Hw Hx q y Hq. destruct (Z.eq_dec p q) as [<- | Hne].
  - rewrite (rd_wr_same _ _ _ _ Hw) in Hq. congruence.
  - rewrite (rd_wr_other _ _ _ _ _ Hw Hne) in Hq. now apply (Hb q).
Qed.

Section DynamicProgramLists.
Variable n : Z.
Hypothesis Hn : 1 <= n.

Lemma dp_update_list_Done (j bp : Z) (new : list double)
  (old_list new_list : list Z) (v : double) :
  len old_list = n * n -> len new_list = n * n ->
  bits old_list -> bits new_list ->
  last_row_zero n old_list -> last_row_zero n new_list ->
  0 <= j < n -> rd new j = Done v ->
  ((v >? NEG_INFINITY)%D = true -> 0 <= bp <= j - 3) ->
  exists nl, dp_update_list n j bp new old_list new_list = Done nl /\
             len nl = n * n /\ bits nl /\ last_row_zero n nl /\
             ((v >? NEG_INFINITY)%D = false -> nl = new_list).
Proof.
  intros Hlo Hln Hbo Hbn Hzo Hzn Hj Hv Hbp. unfold dp_update_list.
  rewrite Hv. cbn [bind]. destruct (dgt v NEG_INFINITY) eqn:Etest.
  2: { exists new_list. repeat split; auto. }
  specialize (Hbp eq_refl).
  destruct (for_loop_total
    (fun (i : Z) nl => len nl = n * n /\ bits nl /\ last_row_zero n nl)
    0 n (fun i nl => x <- rd old_list (bp + i * n) ;; wr nl (j + i * n) x)
    new_list) as (nl & Hrun & Hlen & Hb & Hz).
  - lia.
  - auto.
  - intros i nl Hi (Hlen & Hb & Hz).
    destruct (rd_in_range old_list (bp + i * n)) as (x & Hx); [nia | ].
    rewrite Hx. cbn [bind].
    assert (Hw : wr nl (j + i * n) x = Done (upd nl (Z.to_nat (j + i * n)) x))
      by (apply wr_in_range; nia).
    rewrite Hw. eexists. split; [reflexivity | ].
    split; [now rewrite len_upd | ]. split.
    + apply (bits_wr nl _ _ x Hb Hw). now apply (Hbo (bp + i * n)).
    + intros p Hp. destruct (Z.eq_dec (j + i * n) (p + (n - 1) * n)) as [E | E].
      * rewrite <- E. rewrite (rd_wr_same _ _ _ _ Hw).
        assert (i = n - 1) by nia. subst i.
        rewrite (Hzo bp) in Hx by lia. congruence.
      * rewrite (rd_wr_other _ _ _ _ _ Hw E). now apply Hz.
  - rewrite Hrun. cbn [bind].
    assert (Hw : wr nl (j + bp * n) 1 = Done (upd nl (Z.to_nat (j + bp * n)) 1))
      by (apply wr_in_range; nia).
    rewrite Hw. eexists. split; [reflexivity | ].
    split; [now rewrite len_upd | ]. split; [ | split].
    + apply (bits_wr nl _ _ 1 Hb Hw). now right.
    + intros p Hp.
      rewrite (rd_wr_other _ _ _ _ _ Hw); [now apply Hz | nia].
    + discriminate.
Qed.

End DynamicProgramLists.

Section DynamicProgramRound.
Variables (llik : list double) (n : Z).
Hypothesis Hn : 1 <= n.
Hypothesis Hllik : len llik = n * n.

Lemma dp_end_Done (nb j bp : Z) (old new : list double)
  (old_list nl : list Z) :
  1 <= nb -> 3 * nb + 2 <= j < n ->
  len new = n -> len old = n -> len old_list = n * n -> len nl = n * n ->
  bits old_list -> bits nl -> last_row_zero n old_list -> last_row_zero n nl ->
  exists new' bp' nl',
    dp_end llik n nb old old_list j (new, bp, nl) = Done (new', bp', nl') /\
    len new' = n /\
    (forall p, p <> j -> rd new' p = rd new p) /\
    (exists v, rd new' j = Done v /\ best llik old n nb j (j - 1) v bp' /\
               ((v >? NEG_INFINITY)%D = false -> nl' = nl)) /\
    len nl' = n * n /\ bits nl' /\ last_row_zero n nl'.
Proof.
  intros Hnb Hj Hnew Hold Hlo Hln Hbo Hbn Hzo Hzn. unfold dp_end.
  assert (Hw : wr new j NEG_INFINITY
               = Done (upd new (Z.to_nat j) NEG_INFINITY))
    by (apply wr_in_range; lia).
  rewrite Hw. cbn [bind].
  destruct (dp_start_loop llik n Hn Hllik old
              (upd new (Z.to_nat j) NEG_INFINITY) nb j bp)
    as (new' & bp' & Hrun & Hlen & Hframe & v & Hv & Hbest); auto.
  { now rewrite len_upd. }
  { apply (rd_wr_same _ _ _ _ Hw). }
  rewrite Hrun. cbn [bind].
  destruct (dp_update_list_Done n Hn j bp' new' old_list nl v)
    as (nl' & Hup & Hlen' & Hb' & Hz' & Hsame); auto; try lia.
  { intros Hgt. destruct Hbest as [_ [-> | (i & [Hi _] & _ & ->)]].
    - rewrite neg_infinity_not_gt in Hgt. discriminate.
    - lia. }
  rewrite Hup. cbn [bind]. exists new', bp', nl'.
  split; [reflexivity | ]. split; [exact Hlen | ]. split.
  - intros p Hp. rewrite (Hframe p Hp).
    apply (rd_wr_other _ _ _ _ _ Hw). congruence.
  - split; [exists v; auto | auto].
Qed.

Lemma dp_round_Done (s : dp) :
  dp_inv n s ->
  exists s',
    dp_round llik n s = Done s' /\
    dp_inv n s' /\
    nbreaks s' = nbreaks s + 1 /\
    old_llik s' = new_llik s' /\
    old_bkpt_list s' = new_bkpt_list s /\
    old_full_llik s' = new_full_llik s /\
    rd (new_llik s') (n - 1) = Done (new_full_llik s') /\
    (forall j, ~ (3 * (nbreaks s + 1) + 2 <= j < n) ->
               rd (new_llik s') j = rd (new_llik s) j) /\
    (forall j, 3 * (nbreaks s + 1) + 2 <= j < n ->
               exists v bp, rd (new_llik s') j = Done v /\
                 best llik (old_llik s) n (nbreaks s + 1) j (j - 1) v bp).
Proof.
  intros [Hnew Hold Hnl Hol Hbn Hbo Hzn Hzo Hnb]. unfold dp_round.
  set (nb := nbreaks s + 1).
  destruct (for_loop_total_max
    (fun j (t : list double * Z * list Z) =>
       len (fst (fst t)) = n /\
       len (snd t) = n * n /\ bits (snd t) /\ last_row_zero n (snd t) /\
       (forall p, ~ (3 * nb + 2 <= p < j) ->
                  rd (fst (fst t)) p = rd (new_llik s) p) /\
       (forall p, 3 * nb + 2 <= p < j ->
                  exists v bp, rd (fst (fst t)) p = Done v /\
                    best llik (old_llik s) n nb p (p - 1) v bp))
    (3 * nb + 2) n
    (dp_end llik n nb (old_llik s) (new_bkpt_list s))
    (new_llik s, new_breakpoint s, new_bkpt_list s))
    as ([[new bp] nl] & Hrun & Hlen & Hlen' & Hb & Hz & Hframe & Hbest).
  - cbn [fst snd]. repeat split; auto. intros p Hp. lia.
  - intros j [[nw b] l] Hj (Hlen & Hlen' & Hb & Hz & Hframe & Hbest).
    cbn [fst snd] in *.
    destruct (dp_end_Done nb j b (old_llik s) nw (new_bkpt_list s) l)
      as (nw' & b' & l' & Hrun & Hl1 & Hf1 & (v & Hv & Hbv & _) & Hl2 & Hb2 & Hz2);
      auto; try lia.
    exists (nw', b', l'). split; [exact Hrun | ]. cbn [fst snd].
    split; [exact Hl1 | ]. split; [exact Hl2 | ]. split; [exact Hb2 | ].
    split; [exact Hz2 | ]. split.
    + intros p Hp. rewrite Hf1 by lia. apply Hframe. lia.
    + intros p Hp. destruct (Z.eq_dec p j) as [-> | Hne].
      * exists v, b'. auto.
      * rewrite Hf1 by exact Hne. apply Hbest. lia.
  - cbn [fst snd] in *. rewrite Hrun. cbn [bind].
    destruct (rd_in_range new (n - 1)) as (full & Hfull); [lia | ].
    rewrite Hfull. cbn [bind]. eexists. split; [reflexivity | ].
    cbn [nbreaks new_llik old_llik new_bkpt_list old_bkpt_list
         new_full_llik old_full_llik].
    split; [constructor; cbn; auto; lia | ].
    repeat split; auto.
    + intros j Hj. apply Hframe. lia.
    + intros j Hj. apply Hbest. lia.
Qed.

End DynamicProgramRound.

Section DynamicProgramLoop.
Variables (llik : list double) (n : Z).
Hypothesis Hn : 1 <= n.
Hypothesis Hllik : len llik = n * n.

Lemma dp_init_Done (garbage : list double) :
  len garbage = n ->
  exists s, dp_init llik n garbage = Done s /\
            dp_inv n s /\ nbreaks s = 0 /\ new_llik s = garbage /\
            (forall j, 0 <= j < n -> rd (old_llik s) j = rd llik (j * n)) /\
            rd (old_llik s) (n - 1) = Done (new_full_llik s) /\
            old_full_llik s = NEG_INFINITY.
Proof.
  intros Hg. unfold dp_init.
  destruct (fill_Done n (fun j => rd llik (j * n))) as (old & Hfill & Hlen & Hrd).
  - lia.
  - intros i Hi. apply rd_in_range. nia.
  - rewrite Hfill. cbn [bind].
    destruct (rd_in_range old (n - 1)) as (full & Hfull); [lia | ].
    rewrite Hfull. cbn [bind]. eexists. split; [reflexivity | ].
    cbn [nbreaks new_llik old_llik new_full_llik old_full_llik].
    split; [ | auto].
    constructor; cbn; auto; try lia; try (rewrite len_repeat; nia).
    + intros p x Hp. pose proof (rd_range _ _ _ Hp) as Hr.
      rewrite len_repeat in Hr. rewrite rd_repeat in Hp by lia. left; congruence.
    + intros p x Hp. pose proof (rd_range _ _ _ Hp) as Hr.
      rewrite len_repeat in Hr. rewrite rd_repeat in Hp by lia. left; congruence.
    + intros p Hp. apply rd_repeat. nia.
    + intros p Hp. apply rd_repeat. nia.
Qed.

Lemma loop_inv_round (s : dp) :
  loop_inv n s ->
  exists s', dp_round llik n s = Done s' /\ loop_inv n s' /\
             nbreaks s' = nbreaks s + 1.
Proof.
  intros (Hinv & HA & HB).
  destruct (dp_round_Done llik n Hn Hllik s Hinv)
    as (s' & Hrun & Hinv' & Hnb & _ & _ & Hof & Hfull & Hframe & _).
  exists s'. split; [exact Hrun | ]. split; [ | exact Hnb].
  split; [exact Hinv' | ]. split; [intros _; exact Hfull | ].
  intros H2 Hlast. rewrite Hof.
  rewrite Hframe in Hfull by lia. rewrite HA in Hfull by lia.
  injection Hfull as <-. apply dlt_irrefl.
Qed.

Lemma dp_loop_Done (fuel : nat) :
  forall s, loop_inv n s -> 5 + n - 3 * nbreaks s <= Z.of_nat fuel ->
            exists s', dp_loop fuel llik n s = Done s' /\ dp_inv n s'.
Proof.
  induction fuel as [|fuel IH]; intros s Hinv Hfuel; cbn [dp_loop].
  - destruct Hinv as (Hinv & _ & HB). rewrite HB by lia. exists s. auto.
  - destruct (dlt (old_full_llik s) (new_full_llik s)).
    + destruct (loop_inv_round s Hinv) as (s' & Hrun & Hinv' & Hnb).
      rewrite Hrun. cbn [bind]. apply IH; [exact Hinv' | lia].
    + exists s. split; [reflexivity | apply Hinv].
Qed.

Lemma get_breakpoints_Done (fuel : nat) (garbage : list double) :
  len garbage = n -> n + 5 <= Z.of_nat fuel ->
  exists out, get_breakpoints fuel llik n garbage = Done out /\
              len out = n /\
              (forall i x, rd out i = Done x -> x = 0 \/ x = 1) /\
              rd out (n - 1) = Done 0.
Proof.
  intros Hg Hfuel. unfold get_breakpoints.
  destruct (dp_init_Done garbage Hg) as (s0 & Hinit & Hinv0 & Hnb0 & _).
  rewrite Hinit. cbn [bind].
  destruct (dp_loop_Done fuel s0) as (s & Hloop & Hinv).
  - split; [exact Hinv0 | ]. split; intros; lia.
  - lia.
  - rewrite Hloop. cbn [bind].
    destruct Hinv as [_ _ _ Hol _ Hbo _ Hzo _].
    destruct (fill_Done n (fun i => rd (old_bkpt_list s) (n - 1 + i * n)))
      as (out & Hfill & Hlen & Hrd).
    + lia.
    + intros i Hi. apply rd_in_range. nia.
    + exists out. split; [exact Hfill | ]. split; [exact Hlen | ]. split.
      * intros i x Hx. pose proof (rd_range _ _ _ Hx) as Hr.
        rewrite Hrd in Hx by lia. now apply (Hbo _ _ Hx).
      * rewrite Hrd by lia. apply Hzo. lia.
Qed.

End DynamicProgramLoop.

(** ** The rounds of the dynamic program *)

(** The [while] loop ends in a state that some number of rounds gives. *)
Lemma dp_loop_rounds (fuel : nat) (llik : list double) (n : Z) :
  forall s s', dp_loop fuel llik n s = Done s' ->
               exists r, dp_rounds r llik n s = Done s'.
Proof.
  induction fuel as [|fuel IH]; intros s s' Hrun; cbn [dp_loop] in Hrun;
    destruct (dlt (old_full_llik s) (new_full_llik s)); try discriminate;
    try (exists O; exact Hrun).
  bind_inv Hrun. destruct (IH _ _ Hrun) as (r & Hr).
  exists (S r). cbn [dp_rounds]. rewrite Hx. exact Hr.
Qed.

Section DynamicProgramRounds.
Variables (llik : list double) (n : Z).
Hypothesis Hn : 1 <= n.
Hypothesis Hllik : len llik = n * n.

Lemma scores_built_round (s s' : dp) :
  dp_inv n s -> scores_built llik n s -> dp_round llik n s = Done s' ->
  scores_built llik n s'.
Proof.
  intros Hinv [H0 H1] Hrun.
  destruct (dp_round_Done llik n Hn Hllik s Hinv)
    as (s1 & Hrun1 & Hinv1 & Hnb & Hold & _ & _ & _ & _ & Hbest).
  rewrite Hrun in Hrun1. injection Hrun1 as <-.
  pose proof (inv_nb n s Hinv) as Hnb0.
  split; [intros E; lia | ]. intros _. split; [now rewrite Hold | ].
  intros j Hj. rewrite Hnb in Hj.
  destruct (Hbest j Hj) as (v & bp & Hv & _ & Hat).
  exists v. split; [exact Hv | ].
  destruct Hat as [-> | (i & [Hi (o & l & Ho & Hl & ->)] & Hgt & _)];
    [left; reflexivity | right].
  destruct (dlt_not_nan _ _ Hgt) as [_ Hnan].
  destruct (dadd_nan _ _ Hnan) as [Hno Hnl].
  rewrite Hnb. apply (built_next llik n (nbreaks s) i j o l); auto; try lia.
  destruct (Z.eq_dec (nbreaks s) 0) as [E | E].
  - rewrite E. apply built_first; [ | exact Hno].
    rewrite <- (H0 E) by lia. exact Ho.
  - destruct (H1 ltac:(lia)) as [Hsame Hb].
    destruct (Hb (i - 1) ltac:(lia)) as (o' & Ho' & Hbo).
    rewrite Hsame in Ho'. rewrite Ho in Ho'. injection Ho' as <-.
    destruct Hbo as [-> | Hbo]; [ | exact Hbo].
    destruct (dadd_neg_infinity l) as [E' | E']; rewrite E' in Hgt;
      [rewrite neg_infinity_not_gt in Hgt | ]; discriminate.
Qed.

Lemma dp_rounds_Done (r : nat) :
  forall s, dp_inv n s -> scores_built llik n s ->
    exists s', dp_rounds r llik n s = Done s' /\ dp_inv n s' /\
               scores_built llik n s' /\
               nbreaks s' = nbreaks s + Z.of_nat r.
Proof.
  induction r as [|r IH]; intros s Hinv Hsb; cbn [dp_rounds].
  - exists s. split; [reflexivity | ]. split; [exact Hinv | ].
    split; [exact Hsb | lia].
  - destruct (dp_round_Done llik n Hn Hllik s Hinv)
      as (s1 & Hrun & Hinv1 & Hnb & _).
    rewrite Hrun. cbn [bind].
    destruct (IH s1 Hinv1 (scores_built_round s s1 Hinv Hsb Hrun))
      as (s' & Hr & Hinv' & Hsb' & Hnb').
    exists s'. split; [exact Hr | ]. split; [exact Hinv' | ].
    split; [exact Hsb' | lia].
Qed.

Lemma dp_state_after_Done (r : nat) (garbage : list double) :
  len garbage = n ->
  exists s, dp_state_after r llik n garbage = Done s /\ dp_inv n s /\
            scores_built llik n s /\ nbreaks s = Z.of_nat r.
Proof.
  intros Hg. unfold dp_state_after.
  destruct (dp_init_Done llik n Hn Hllik garbage Hg)
    as (s0 & Hinit & Hinv0 & Hnb0 & _ & Hold & _).
  rewrite Hinit. cbn [bind].
  destruct (dp_rounds_Done r s0 Hinv0) as (s & Hr & Hinv & Hsb & Hnb).
  - split; [intros _; exact Hold | intros H; lia].
  - exists s. split; [exact Hr | ]. split; [exact Hinv | ].
    split; [exact Hsb | lia].
Qed.

End DynamicProgramRounds.

Lemma dadd_is_nan (o l : double) :
  is_nan o = true \/ is_nan l = true -> (o + l)%D = NAN.
Proof.
  destruct o as [[|]|[|]| |[|] m e], l as [[|]|[|]| |[|] m' e']; simpl;
    intros [H | H]; try discriminate; reflexivity.
Qed.

Lemma nan_not_gt (c : double) : (NAN >? c)%D = false.
Proof. destruct c as [[|]|[|]| |[|] m e]; reflexivity. Qed.


Section DynamicProgramScores.
Variables (llik : list double) (n : Z).
Hypothesis Hn : 1 <= n.
Hypothesis Hllik : len llik = n * n.








End DynamicProgramScores.


(** C10.  In the state after any number [r] of rounds: a candidate sum one
    term of which is NaN is not greater than any score, and the step of
    the loop over the start points leaves [new_llik[j]] and the breakpoint
    as they were; after a round, each score [new_llik[j]], [3r+2 <= j <= n-1],
    is [-INFINITY] or is built from entries that are not NaN; and the
    breakpoint list is left as it was when [new_llik[j] > -INFINITY] is
    false. *)
Theorem nan_never_enters_a_solution (llik : list double) (n : Z)
  (garbage : list double) (r : nat) :
  1 <= n -> len llik = n * n -> len garbage = n ->
  exists s,
    dp_state_after r llik n garbage = Done s /\
    nbreaks s = Z.of_nat r /\
    (forall i j new bp o l c,
       rd (old_llik s) (i - 1) = Done o -> rd llik (i + j * n) = Done l ->
       rd new j = Done c ->
       is_nan o = true \/ is_nan l = true ->
       (o + l >? c)%D = false /\
       dp_start llik n j (old_llik s) i (new, bp) = Done (new, bp)) /\
    (1 <= Z.of_nat r ->
     forall j, 3 * Z.of_nat r + 2 <= j <= n - 1 ->
       exists v, rd (new_llik s) j = Done v /\
                 (v = NEG_INFINITY \/ built llik n (Z.of_nat r) j v)) /\
    (forall j bp new old_list new_list c,
       rd new j = Done c -> (c >? NEG_INFINITY)%D = false ->
       dp_update_list n j bp new old_list new_list = Done new_list).
Proof.
  intros Hn Hllik Hg.
  destruct (dp_state_after_Done llik n Hn Hllik r garbage Hg)
    as (s & Hs & Hinv & [_ Hsb] & Hnb).
  exists s. split; [exact Hs | ]. split; [exact Hnb | ]. split; [ | split].
  - intros i j new bp o l c Ho Hl Hc Hnan.
    rewrite (dadd_is_nan o l Hnan), nan_not_gt. split; [reflexivity | ].
    unfold dp_start. rewrite Ho. cbn [bind]. rewrite Hl. cbn [bind].
    rewrite Hc. cbn [bind].
    rewrite (dadd_is_nan o l Hnan), nan_not_gt. reflexivity.
  - intros Hr j Hj. rewrite <- Hnb. apply Hsb; lia.
  - intros j bp new old_list new_list c Hc Hgt.
    unfold dp_update_list. rewrite Hc. cbn [bind]. now rewrite Hgt.
Qed.


(** The scores of this example: with one breakpoint, 66, 85, 104 and 113
    for the end points 5 to 8; with two breakpoints, 144 for the end
    point 8. *)
Example dp_round_scores_run :
  map (best_score 1 llik_example 9) [5; 6; 7; 8]
  = map (fun v => Done (of_int v)) [66; 85; 104; 113] /\
  best_score 2 llik_example 9 8 = Done (of_int 144) /\
  match dp_state_after 2 llik_example 9 (repeat NAN 9) with
  | Done s => (rd (old_llik s) 8, rd (new_llik s) 8)
  | _ => (Fault, Fault)
  end = (Done (of_int 144), Done (of_int 144)).
Proof. vm_compute. auto. Qed.

Lemma nan_never_enters_witness :
  exists s,
    dp_state_after 1 llik_example 9 (repeat NAN 9) = Done s /\
    nbreaks s = 1 /\
    (forall i j new bp o l c,
       rd (old_llik s) (i - 1) = Done o ->
       rd llik_example (i + j * 9) = Done l ->
       rd new j = Done c ->
       is_nan o = true \/ is_nan l = true ->
       (o + l >? c)%D = false /\
       dp_start llik_example 9 j (old_llik s) i (new, bp) = Done (new, bp)) /\
    (1 <= 1 ->
     forall j, 3 * 1 + 2 <= j <= 9 - 1 ->
       exists v, rd (new_llik s) j = Done v /\
                 (v = NEG_INFINITY \/ built llik_example 9 1 j v)) /\
    (forall j bp new old_list new_list c,
       rd new j = Done c -> (c >? NEG_INFINITY)%D = false ->
       dp_update_list 9 j bp new old_list new_list = Done new_list).
Proof.
  apply (nan_never_enters_a_solution llik_example 9 (repeat NAN 9) 1);
    [lia | reflexivity | reflexivity].
Defined.

(** ** The candidate mask *)

Lemma mark_local_maxima_Done (n : Z) (llik : list double) (bkpts : list Z) :
  1 <= n -> len llik = n -> len bkpts = n ->
  exists bk, mark_local_maxima n llik bkpts = Done bk /\
             len bk = n /\
             rd bk (n - 1) = Done 1 /\
             (forall i, 0 <= i < n - 1 -> ~ (3 <= i) -> rd bk i = Done 0) /\
             (forall i, 3 <= i < n - 1 ->
                (local_maximum llik i /\ rd bk i = Done 1) \/
                (~ local_maximum llik i /\ rd bk i = Done 0)).
Proof.
  intros Hn Hl Hb. unfold mark_local_maxima.
  assert (Hw : wr bkpts (n - 1) 1 = Done (upd bkpts (Z.to_nat (n - 1)) 1))
    by (apply wr_in_range; lia).
  rewrite Hw. cbn [bind].
  destruct (for_loop_total_max
    (fun i0 bk => len bk = n /\ rd bk (n - 1) = Done 1 /\
                  forall i, 0 <= i < i0 -> rd bk i = Done 0)
    0 (n - 1) (fun i bk => wr bk i 0) (upd bkpts (Z.to_nat (n - 1)) 1))
    as (bk1 & Hrun1 & Hlen1 & Hlast1 & Hzero1).
  - split; [now rewrite len_upd | ].
    split; [apply (rd_wr_same _ _ _ _ Hw) | intros i Hi; lia].
  - intros i bk Hi (Hlen & Hlast & Hzero).
    assert (Hwi : wr bk i 0 = Done (upd bk (Z.to_nat i) 0))
      by (apply wr_in_range; lia).
    rewrite Hwi. eexists. split; [reflexivity | ].
    split; [now rewrite len_upd | ]. split.
    + rewrite (rd_wr_other _ _ _ _ _ Hwi); [exact Hlast | lia].
    + intros p Hp. destruct (Z.eq_dec i p) as [<- | Hne].
      * apply (rd_wr_same _ _ _ _ Hwi).
      * rewrite (rd_wr_other _ _ _ _ _ Hwi Hne). apply Hzero. lia.
  - rewrite Hrun1. cbn [bind].
    rewrite Z.max_r in Hzero1 by lia.
    destruct (for_loop_total_max
      (fun i0 bk => len bk = n /\ rd bk (n - 1) = Done 1 /\
         (forall i, 0 <= i < n - 1 -> ~ (3 <= i < i0) -> rd bk i = Done 0) /\
         (forall i, 3 <= i < i0 ->
            (local_maximum llik i /\ rd bk i = Done 1) \/
            (~ local_maximum llik i /\ rd bk i = Done 0)))
      3 (n - 1)
      (fun i bk =>
         li <- rd llik i ;;
         lp <- rd llik (i - 1) ;;
         if (li >? lp)%D then
           ln <- rd llik (i + 1) ;;
           if (li >? ln)%D then wr bk i 1 else Done bk
         else Done bk) bk1)
      as (bk & Hrun & Hlen & Hlast & Hzero & Hmax).
    + split; [exact Hlen1 | ]. split; [exact Hlast1 | ].
      split; [intros i Hi _; now apply Hzero1 | intros i Hi; lia].
    + intros i bk Hi (Hlen & Hlast & Hzero & Hmax).
      destruct (rd_in_range llik i) as (li & Hli); [lia | ].
      destruct (rd_in_range llik (i - 1)) as (lp & Hlp); [lia | ].
      destruct (rd_in_range llik (i + 1)) as (ln & Hln); [lia | ].
      rewrite Hli. cbn [bind]. rewrite Hlp. cbn [bind].
      assert (Hkeep : ~ local_maximum llik i ->
                exists t', Done bk = Done t' /\
                  len t' = n /\ rd t' (n - 1) = Done 1 /\
                  (forall p, 0 <= p < n - 1 -> ~ (3 <= p < i + 1) ->
                             rd t' p = Done 0) /\
                  (forall p, 3 <= p < i + 1 ->
                     (local_maximum llik p /\ rd t' p = Done 1) \/
                     (~ local_maximum llik p /\ rd t' p = Done 0))).
      { intros Hno. exists bk. split; [reflexivity | ].
        split; [exact Hlen | ]. split; [exact Hlast | ]. split.
        - intros p Hp Hout. apply Hzero; [exact Hp | lia].
        - intros p Hp. destruct (Z.eq_dec p i) as [-> | Hne].
          + right. split; [exact Hno | apply Hzero; lia].
          + apply Hmax. lia. }
      destruct (dgt li lp) eqn:E1.
      2: { apply Hkeep. intros (a & b & c & Ha & Hb' & Hc & H1 & H2).
           congruence. }
      rewrite Hln. cbn [bind]. destruct (dgt li ln) eqn:E2.
      2: { apply Hkeep. intros (a & b & c & Ha & Hb' & Hc & H1 & H2).
           congruence. }
      assert (Hwi : wr bk i 1 = Done (upd bk (Z.to_nat i) 1))
        by (apply wr_in_range; lia).
      rewrite Hwi. eexists. split; [reflexivity | ].
      split; [now rewrite len_upd | ]. split; [ | split].
      * rewrite (rd_wr_other _ _ _ _ _ Hwi); [exact Hlast | lia].
      * intros p Hp Hout. rewrite (rd_wr_other _ _ _ _ _ Hwi) by lia.
        apply Hzero; [exact Hp | lia].
      * intros p Hp. destruct (Z.eq_dec p i) as [-> | Hne].
        { left. split; [ | apply (rd_wr_same _ _ _ _ Hwi)].
          exists li, lp, ln. auto. }
        { rewrite (rd_wr_other _ _ _ _ _ Hwi) by lia. apply Hmax. lia. }
    + exists bk. split; [exact Hrun | ]. split; [exact Hlen | ].
      split; [exact Hlast | ]. split.
      * intros i Hi H3. apply Hzero; [exact Hi | lia].
      * intros i Hi. apply Hmax. lia.
Qed.

Ltac binds H :=
  repeat first
    [ bind_inv H
    | match type of H with
      | context [match ?x with (_, _) => _ end] => destruct x
      end ].

Section ProfileProps.
Variable exp : double -> double.
Variable fuel : nat.

Lemma forward_scan_len (obs : list (list double)) (dis : list double)
  (n m j : Z) (s s' : fit_state) :
  forward_scan exp fuel obs dis n m j s = Done s' ->
  len (f_llik s') = len (f_llik s).
Proof.
  unfold forward_scan. intros H. binds H.
  destruct (Z_le_gt_dec 0 m) as [Hm | Hm].
  - apply (for_loop_inv (fun _ t => len (f_llik t) = len (f_llik s)) 0 m)
      in H; auto.
    + cbn. apply (wr_len _ _ _ _ Hx0).
    + intros k t t' _ Ht Hb. binds Hb. injection Hb as <-. cbn.
      rewrite (wr_len _ _ _ _ Hx6). exact Ht.
  - rewrite for_loop_empty in H by lia. injection H as <-. cbn.
    apply (wr_len _ _ _ _ Hx0).
Qed.

Lemma backward_scan_len (obs : list (list double)) (dis : list double)
  (n m j : Z) (s s' : fit_state) :
  backward_scan exp fuel obs dis n m j s = Done s' ->
  len (f_llik s') = len (f_llik s).
Proof.
  unfold backward_scan. intros H. binds H.
  destruct (Z_le_gt_dec 0 m) as [Hm | Hm].
  - apply (for_loop_inv (fun _ t => len (f_llik t) = len (f_llik s)) 0 m)
      in H; auto.
    intros k t t' _ Ht Hb. binds Hb. injection Hb as <-. cbn.
    rewrite (wr_len _ _ _ _ Hx5). exact Ht.
  - rewrite for_loop_empty in H by lia. injection H as <-. reflexivity.
Qed.

Lemma for_loop_len (lo hi : Z) (body : Z -> fit_state -> result fit_state)
  (s s' : fit_state) :
  (forall i t t', body i t = Done t' -> len (f_llik t') = len (f_llik t)) ->
  for_loop lo hi body s = Done s' ->
  len (f_llik s') = len (f_llik s).
Proof.
  intros Hbody H. destruct (Z_le_gt_dec lo hi) as [Hle | Hgt].
  - apply (for_loop_inv (fun _ t => len (f_llik t) = len (f_llik s)) lo hi)
      in H; auto.
    intros i t t' _ Ht Hb. rewrite (Hbody _ _ _ Hb). exact Ht.
  - rewrite for_loop_empty in H by lia. now injection H as <-.
Qed.

Lemma single_break_profile_len (obs : list (list double)) (dis : list double)
  (n m : Z) (kb db : blocks double) (garbage : list double) (s : fit_state) :
  single_break_profile exp fuel obs dis n m kb db garbage = Done s ->
  len (f_llik s) = len garbage.
Proof.
  unfold single_break_profile. intros H. bind_inv H.
  apply for_loop_len in H; [ | intros i t t'; apply backward_scan_len].
  apply for_loop_len in Hx; [ | intros i t t'; apply forward_scan_len].
  rewrite H, Hx. reflexivity.
Qed.


End ProfileProps.

(** ** The likelihood matrix *)

Section MatrixCell.
Variable exp : double -> double.
Variable fuel : nat.

Lemma matrix_state_ext (obs : list (list double)) (dis : list double)
  (n m : Z) (done done' : Z -> Z -> Prop) (llik : list double) :
  (forall i j, 0 <= i < n -> 0 <= j < n -> (done i j <-> done' i j)) ->
  matrix_state exp fuel obs dis n m done llik -> matrix_state exp fuel obs dis n m done' llik.
Proof.
  intros Hext [Hlen H]. split; [exact Hlen | ].
  intros i j Hi Hj. destruct (H i j Hi Hj) as [[Hd Hv] | [Hd Hv]].
  - left. split; [now apply Hext | exact Hv].
  - right. split; [ | exact Hv]. intros Hd'. apply Hd. now apply Hext.
Qed.

Lemma llik_replicate_sim (obs : list (list double)) (n i j k : Z)
  (ll : list double) (t : fit_state) (x : double * fit_state) :
  cell_rel (i + j * n) ll t x ->
  rel_result (cell_rel (i + j * n) ll)
    (llik_replicate exp fuel obs n i j k t) (pair_sum_step exp fuel obs n i j k x).
Proof.
  destruct x as [acc u]. intros (Hd & Hk & H0 & H1 & H2 & Hacc & Hlen & Hfr).
  cbn [fst snd] in *. unfold llik_replicate, pair_sum_step.
  rewrite Hd, Hk, H0, H1, H2. cbn [block_count].
  destruct (rd obs k) as [mat| |]; cbn [bind rel_result]; auto.
  destruct (break_in_blocks mat n i j (k_blk u)) as [kb| |];
    cbn [bind rel_result]; auto.
  destruct (ml_ab exp fuel (top kb) (top (d_blk u)) (ab0 u) (i * (j - i + 1)))
    as [[l0 p0]| |]; cbn [bind rel_result]; auto.
  destruct (ml_ab exp fuel (tri kb) (tri (d_blk u)) (ab1 u)
              (Z.quot ((j - i) * (j - i + 1)) 2))
    as [[l1 p1]| |]; cbn [bind rel_result]; auto.
  destruct (ml_ab exp fuel (bot kb) (bot (d_blk u)) (ab2 u)
              ((n - j - 1) * (j - i + 1)))
    as [[l2 p2]| |]; cbn [bind rel_result]; auto.
  rewrite Hacc. cbn [bind].
  pose proof (rd_range _ _ _ Hacc) as Hr.
  set (v := (acc + (l0 / d2 + l1 + l2 / d2))%D).
  assert (Hw : wr (f_llik t) (i + j * n) v
               = Done (upd (f_llik t) (Z.to_nat (i + j * n)) v))
    by (apply wr_in_range; exact Hr).
  rewrite Hw. cbn [bind rel_result]. unfold cell_rel. cbn.
  repeat split; auto.
  - apply (rd_wr_same _ _ _ _ Hw).
  - now rewrite len_upd.
  - intros p Hp. rewrite (rd_wr_other _ _ _ _ _ Hw) by congruence.
    now apply Hfr.
Qed.

Lemma llik_cell_Done (obs : list (list double)) (dis : list double)
  (n m i j : Z) (s s' : fit_state) :
  llik_cell exp fuel obs dis n m i j s = Done s' ->
  len (f_llik s') = len (f_llik s) /\
  (forall p, p <> i + j * n -> rd (f_llik s') p = rd (f_llik s) p) /\
  exists v, rd (f_llik s') (i + j * n) = Done v /\
            computed exp fuel obs dis n m i j v.
Proof.
  unfold llik_cell. intros H. bind_inv H. bind_inv H.
  rename x into db, x0 into ll, Hx into Hdb, Hx0 into Hll.
  pose proof (for_loop_sim (cell_rel (i + j * n) ll) 0 m
                (llik_replicate exp fuel obs n i j)
                (pair_sum_step exp fuel obs n i j)
                (mkFit db (k_blk s) (ab0 s) (ab1 s) (ab2 s) ll)
                (d0, mkFit db (k_blk s) (ab0 s) (ab1 s) (ab2 s) (f_llik s)))
    as Hsim.
  rewrite H in Hsim.
  destruct (for_loop 0 m (pair_sum_step exp fuel obs n i j)
              (d0, mkFit db (k_blk s) (ab0 s) (ab1 s) (ab2 s) (f_llik s)))
    as [[v u]| |] eqn:Esum.
  - cbn [rel_result] in Hsim.
    destruct Hsim as (_ & _ & _ & _ & _ & Hv & Hlen & Hfr).
    + unfold cell_rel. cbn. repeat split; auto.
      apply (rd_wr_same _ _ _ _ Hll).
    + intros k t x _. apply llik_replicate_sim.
    + cbn [fst] in Hv. split; [ | split].
      * rewrite Hlen. apply (wr_len _ _ _ _ Hll).
      * intros p Hp. rewrite (Hfr p Hp).
        apply (rd_wr_other _ _ _ _ _ Hll). congruence.
      * exists v. split; [exact Hv | ]. exists s.
        unfold pair_sum. rewrite Hdb. cbn [bind]. rewrite Esum. reflexivity.
  - exfalso. apply Hsim.
    + unfold cell_rel. cbn. repeat split; auto.
      apply (rd_wr_same _ _ _ _ Hll).
    + intros k t x _. apply llik_replicate_sim.
  - exfalso. apply Hsim.
    + unfold cell_rel. cbn. repeat split; auto.
      apply (rd_wr_same _ _ _ _ Hll).
    + intros k t x _. apply llik_replicate_sim.
Qed.

End MatrixCell.

Lemma index_inj (n i j i' j' : Z) :
  0 <= i < n -> 0 <= i' < n -> i + j * n = i' + j' * n -> i = i' /\ j = j'.
Proof.
  intros Hi Hi' E. assert (j = j') by nia. subst. lia.
Qed.

Section MatrixProps.
Variable exp : double -> double.
Variable fuel : nat.
Variables (obs : list (list double)) (dis : list double) (n m : Z).
Variable bkpts : list Z.

Lemma matrix_state_cell (done : Z -> Z -> Prop) (i0 j0 : Z)
  (s s' : fit_state) :
  matrix_state exp fuel obs dis n m done (f_llik s) ->
  0 <= i0 < n -> 0 <= j0 < n ->
  llik_cell exp fuel obs dis n m i0 j0 s = Done s' ->
  matrix_state exp fuel obs dis n m
    (fun i j => done i j \/ (i = i0 /\ j = j0)) (f_llik s').
Proof.
  intros [Hlen H] Hi0 Hj0 Hrun.
  destruct (llik_cell_Done exp fuel obs dis n m i0 j0 s s' Hrun)
    as (Hlen' & Hfr & v & Hv & Hc).
  split; [congruence | ]. intros i j Hi Hj.
  destruct (Z.eq_dec i i0) as [-> | Hne].
  - destruct (Z.eq_dec j j0) as [-> | Hne].
    + left. split; [right; auto | exists v; auto].
    + rewrite Hfr by nia.
      destruct (H i0 j Hi Hj) as [[Hd Hx] | [Hd Hx]];
        [left; split; [left; exact Hd | exact Hx] | right].
      split; [ | exact Hx]. intros [Hd' | [_ E]]; [auto | congruence].
  - rewrite Hfr.
    + destruct (H i j Hi Hj) as [[Hd Hx] | [Hd Hx]];
        [left; split; [left; exact Hd | exact Hx] | right].
      split; [ | exact Hx]. intros [Hd' | [E _]]; [auto | congruence].
    + intros E. apply index_inj in E; [tauto | lia | lia].
Qed.

Lemma llik_row_state (i0 : Z) (s s' : fit_state) :
  0 <= i0 < n - 2 ->
  matrix_state exp fuel obs dis n m
    (fun i j => i < i0 /\ evaluated bkpts n i j) (f_llik s) ->
  llik_row exp fuel obs dis n m bkpts i0 s = Done s' ->
  matrix_state exp fuel obs dis n m
    (fun i j => i < i0 + 1 /\ evaluated bkpts n i j) (f_llik s').
Proof.
  intros Hi0 Hst Hrun. unfold llik_row in Hrun. bind_inv Hrun.
  rename x into skip, Hx into Hskip.
  assert (Hcand : if skip then ~ (i0 = 0 \/ rd bkpts (i0 - 1) = Done 1)
                  else i0 = 0 \/ rd bkpts (i0 - 1) = Done 1).
  { destruct (Z.ltb_spec 0 i0) as [Hpos | Hpos].
    - bind_inv Hskip. injection Hskip as <-.
      destruct (Z.eqb_spec x 1) as [-> | Hne]; cbn.
      + right. exact Hx.
      + intros [E | E]; [lia | congruence].
    - injection Hskip as <-. left. lia. }
  destruct skip.
  - injection Hrun as <-. revert Hst. apply matrix_state_ext.
    intros i j Hi Hj. unfold evaluated. split.
    + intros [H1 H2]. split; [lia | exact H2].
    + intros [H1 H2]. split; [ | exact H2].
      destruct (Z.eq_dec i i0) as [-> | Hne]; [tauto | lia].
  - apply (for_loop_inv
      (fun j0 t => matrix_state exp fuel obs dis n m
         (fun i j => (i < i0 /\ evaluated bkpts n i j) \/
                     (i = i0 /\ j < j0 /\ evaluated bkpts n i0 j))
         (f_llik t)) (i0 + 2) n) in Hrun.
    + revert Hrun. apply matrix_state_ext.
      intros i j Hi Hj. split.
      * intros [[H1 H2] | [-> [H1 H2]]]; split; auto; lia.
      * intros [H1 H2]. destruct (Z.eq_dec i i0) as [-> | Hne];
          [right | left; split; [lia | exact H2]].
        split; [reflexivity | ]. split; [lia | exact H2].
    + lia.
    + revert Hst. apply matrix_state_ext.
      intros i j Hi Hj. split; [auto | ].
      intros [H | [_ [H1 [_ [H2 _]]]]]; [exact H | lia].
    + intros j0 t t' Hj0 Ht Hbody. bind_inv Hbody.
      destruct (Z.eqb_spec x 1) as [-> | Hne]; cbn [negb] in Hbody.
      * pose proof (matrix_state_cell _ i0 j0 t t' Ht ltac:(lia) ltac:(lia)
                      Hbody) as Hc.
        revert Hc. apply matrix_state_ext.
        intros i j Hi Hj. split.
        { intros [[H | [-> [H1 H2]]] | [-> ->]]; auto.
          - right. split; [reflexivity | ]. split; [lia | exact H2].
          - right. split; [reflexivity | ]. split; [lia | ].
            unfold evaluated. repeat split; auto; lia. }
        { intros [H | [-> [H1 H2]]]; [left; left; exact H | ].
          destruct (Z.eq_dec j j0) as [-> | Hne]; [right; auto | ].
          left. right. split; [reflexivity | ]. split; [lia | exact H2]. }
      * injection Hbody as <-. revert Ht. apply matrix_state_ext.
        intros i j Hi Hj. split.
        { intros [H | [-> [H1 H2]]]; [left; exact H | right].
          split; [reflexivity | ]. split; [lia | exact H2]. }
        { intros [H | [-> [H1 H2]]]; [left; exact H | right].
          split; [reflexivity | ]. split; [ | exact H2].
          destruct (Z.eq_dec j j0) as [-> | Hne']; [ | lia].
          destruct H2 as (_ & _ & _ & H2). congruence. }
Qed.

Lemma likelihood_matrix_state (s s' : fit_state) :
  0 <= n -> f_llik s = repeat NAN (Z.to_nat (n * n)) ->
  likelihood_matrix exp fuel obs dis n m bkpts s = Done s' ->
  matrix_state exp fuel obs dis n m (evaluated bkpts n) (f_llik s').
Proof.
  intros Hn Hinit Hrun. unfold likelihood_matrix in Hrun.
  assert (Hstart : matrix_state exp fuel obs dis n m
                     (fun i j => i < 0 /\ evaluated bkpts n i j) (f_llik s)).
  { rewrite Hinit. split; [rewrite len_repeat; nia | ].
    intros i j Hi Hj. right. split; [lia | ].
    apply rd_repeat. nia. }
  destruct (Z_le_gt_dec 0 (n - 2)) as [Hle | Hgt].
  - apply (for_loop_inv
      (fun i0 t => matrix_state exp fuel obs dis n m
         (fun i j => i < i0 /\ evaluated bkpts n i j) (f_llik t))
      0 (n - 2)) in Hrun; auto.
    + revert Hrun. apply matrix_state_ext.
      intros i j Hi Hj. unfold evaluated. split; [tauto | ].
      intros H. split; [lia | exact H].
    + intros i0 t t' Hi0 Ht. apply llik_row_state; [lia | exact Ht].
  - rewrite for_loop_empty in Hrun by lia. injection Hrun as <-.
    revert Hstart. apply matrix_state_ext.
    intros i j Hi Hj. unfold evaluated. split; [tauto | lia].
Qed.

End MatrixProps.

(** ** The value returned *)

Lemma get_breakpoints_output (llik : list double) (n : Z) (fuel : nat)
  (garbage : list double) (out : list Z) :
  1 <= n -> len llik = n * n -> len garbage = n ->
  get_breakpoints fuel llik n garbage = Done out ->
  len out = n /\
  (forall i x, rd out i = Done x -> x = 0 \/ x = 1) /\
  rd out (n - 1) = Done 0.
Proof.
  intros Hn Hllik Hg Hrun. unfold get_breakpoints in Hrun.
  bind_inv Hrun. bind_inv Hrun. rename x into s0, x0 into s.
  destruct (dp_init_Done llik n Hn Hllik garbage Hg)
    as (s0' & Hinit & Hinv0 & Hnb0 & _ & Hold & _).
  rewrite Hx in Hinit. injection Hinit as <-.
  destruct (dp_loop_rounds _ _ _ _ _ Hx0) as (r & Hr).
  destruct (dp_rounds_Done llik n Hn Hllik r s0 Hinv0)
    as (s' & Hr' & Hinv & _).
  { split; [intros _; exact Hold | intros H; lia]. }
  rewrite Hr in Hr'. injection Hr' as <-.
  destruct Hinv as [_ _ _ Hol _ Hbo _ Hzo _].
  destruct (fill_Done n (fun i => rd (old_bkpt_list s) (n - 1 + i * n)))
    as (out' & Hfill & Hlen & Hrd).
  - lia.
  - intros i Hi. apply rd_in_range. nia.
  - rewrite Hrun in Hfill. injection Hfill as <-.
    split; [exact Hlen | ]. split.
    + intros i x Hx'. pose proof (rd_range _ _ _ Hx') as Hrg.
      rewrite Hrd in Hx' by lia. now apply (Hbo _ _ Hx').
    + rewrite Hrd by lia. apply Hzo. lia.
Qed.

(** C1, as the code has it.  For [n >= 1], a likelihood matrix of [n*n]
    entries and any content of the uninitialised array [new_llik]:
    [get_breakpoints] returns as soon as the budget of rounds is [n + 5];
    whenever it returns, and whenever [tadbit] returns, the value is a
    sequence of length [n] whose entries are all 0 or 1, and its entry at
    the position [n-1] is 0: the last position is never marked. *)
Theorem breakpoints_zero_one_last_zero (llik : list double) (n : Z)
  (garbage : list double) :
  1 <= n -> len llik = n * n -> len garbage = n ->
  (forall fuel, n + 5 <= Z.of_nat fuel ->
     exists out, get_breakpoints fuel llik n garbage = Done out) /\
  (forall fuel out,
     get_breakpoints fuel llik n garbage = Done out ->
     len out = n /\
     (forall i x, rd out i = Done x -> x = 0 \/ x = 1) /\
     rd out (n - 1) = Done 0) /\
  (forall exp fuel obs m fast kb db garbage_profile out,
     tadbit exp fuel obs n m fast kb db garbage_profile garbage = Done out ->
     len out = n /\
     (forall i x, rd out i = Done x -> x = 0 \/ x = 1) /\
     rd out (n - 1) = Done 0).
Proof.
  intros Hn Hllik Hg. split; [ | split].
  - intros fuel Hfuel.
    destruct (get_breakpoints_Done llik n Hn Hllik fuel garbage Hg Hfuel)
      as (out & Hout & _).
    exists out. exact Hout.
  - intros fuel out. now apply get_breakpoints_output.
  - intros exp fuel obs m fast kb db gp out Hrun. unfold tadbit in Hrun.
    bind_inv Hrun. destruct x as [[bkpts kb'] db']. bind_inv Hrun.
    apply likelihood_matrix_state in Hx0; [ | lia | reflexivity].
    destruct Hx0 as [Hlen _].
    now apply (get_breakpoints_output (f_llik x) n fuel garbage).
Qed.

Lemma breakpoints_zero_one_witness :
  (forall fuel, 9 + 5 <= Z.of_nat fuel ->
     exists out, get_breakpoints fuel llik_example 9 (repeat NAN 9) = Done out) /\
  (forall fuel out,
     get_breakpoints fuel llik_example 9 (repeat NAN 9) = Done out ->
     len out = 9 /\
     (forall i x, rd out i = Done x -> x = 0 \/ x = 1) /\
     rd out (9 - 1) = Done 0) /\
  (forall exp fuel obs m fast kb db garbage_profile out,
     tadbit exp fuel obs 9 m fast kb db garbage_profile (repeat NAN 9)
     = Done out ->
     len out = 9 /\
     (forall i x, rd out i = Done x -> x = 0 \/ x = 1) /\
     rd out (9 - 1) = Done 0).
Proof.
  apply (breakpoints_zero_one_last_zero llik_example 9 (repeat NAN 9));
    [lia | reflexivity | reflexivity].
Defined.

(** C1, as stated, fails: on two identical replicates of the 4 by 4 matrix
    of ones, [tadbit] returns [0; 0; 0; 0]; the entry at the position
    [n-1 = 3] is 0, not 1. *)
Lemma uniform_counts_last_entry_is_zero :
  tadbit exp_c99 10 [ones 4; ones 4] 4 2 0 (blocks_of 4 NAN)
    (blocks_of 4 NAN) (repeat NAN 4) (repeat NAN 4) = Done [0; 0; 0; 0] /\
  rd [0; 0; 0; 0] (4 - 1) = Done 0 /\
  rd [0; 0; 0; 0] (4 - 1) <> Done 1.
Proof.
  split; [vm_compute; reflexivity | ].
  split; [reflexivity | discriminate].
Qed.

(** ** Loops over lists *)

Lemma for_iter_fold {St : Type} (body : Z -> St -> result St) :
  forall (cnt : nat) (lo : Z) (s : St),
    for_iter cnt lo body s
    = fold_result (map (fun k => lo + Z.of_nat k) (seq 0 cnt)) body s.
Proof.
  induction cnt as [|c IH]; intros lo s; [reflexivity | ].
  cbn [for_iter seq map fold_result].
  replace (lo + Z.of_nat 0) with lo by lia.
  destruct (body lo s) as [s'| |]; cbn [bind]; try reflexivity.
  rewrite IH, <- seq_shift, map_map. f_equal.
  apply map_ext. intros k. lia.
Qed.

Lemma for_loop_fold {St : Type} (lo hi : Z) (body : Z -> St -> result St)
  (s : St) :
  for_loop lo hi body s = fold_result (interval lo hi) body s.
Proof. apply for_iter_fold. Qed.

Lemma fold_result_app {X St : Type} (l l' : list X)
  (body : X -> St -> result St) (s : St) :
  fold_result (l ++ l') body s
  = (s' <- fold_result l body s ;; fold_result l' body s').
Proof.
  revert s. induction l as [|x l IH]; intros s; [reflexivity | ].
  cbn [app fold_result]. destruct (body x s); cbn [bind]; auto.
Qed.

Lemma fold_result_ext {X St : Type} (l : list X)
  (f g : X -> St -> result St) (s : St) :
  (forall x t, In x l -> f x t = g x t) ->
  fold_result l f s = fold_result l g s.
Proof.
  revert s. induction l as [|x l IH]; intros s H; [reflexivity | ].
  cbn [fold_result]. rewrite (H x s) by (left; reflexivity).
  destruct (g x s); cbn [bind]; auto.
  apply IH. intros y t Hy. apply H. now right.
Qed.

Lemma fold_result_filter {X St : Type} (p : X -> bool) (l : list X)
  (body : X -> St -> result St) (s : St) :
  fold_result (filter p l) body s
  = fold_result l (fun x t => if p x then body x t else Done t) s.
Proof.
  revert s. induction l as [|x l IH]; intros s; [reflexivity | ].
  cbn [filter fold_result]. destruct (p x); cbn [fold_result bind].
  - destruct (body x s); cbn [bind]; auto.
  - apply IH.
Qed.

Lemma fold_result_flat_map {X Y St : Type} (g : X -> list Y) (l : list X)
  (body : Y -> St -> result St) (s : St) :
  fold_result (flat_map g l) body s
  = fold_result l (fun x t => fold_result (g x) body t) s.
Proof.
  revert s. induction l as [|x l IH]; intros s; [reflexivity | ].
  cbn [flat_map fold_result]. rewrite fold_result_app.
  destruct (fold_result (g x) body s); cbn [bind]; auto.
Qed.

Lemma fold_result_map {X Y St : Type} (h : X -> Y) (l : list X)
  (body : Y -> St -> result St) (s : St) :
  fold_result (map h l) body s = fold_result l (fun x => body (h x)) s.
Proof.
  revert s. induction l as [|x l IH]; intros s; [reflexivity | ].
  cbn [map fold_result]. destruct (body (h x) s); cbn [bind]; auto.
Qed.

Lemma fold_result_skip {X St : Type} (l : list X) (s : St) :
  fold_result l (fun _ t => Done t) s = Done s.
Proof. induction l as [|x l IH]; [reflexivity | exact IH]. Qed.

Lemma in_interval (lo hi x : Z) : In x (interval lo hi) <-> lo <= x < hi.
Proof.
  unfold interval. rewrite in_map_iff. split.
  - intros (k & <- & Hk). apply in_seq in Hk. lia.
  - intros Hx. exists (Z.to_nat (x - lo)). split; [lia | ].
    apply in_seq. lia.
Qed.

Lemma NoDup_interval (lo hi : Z) : NoDup (interval lo hi).
Proof.
  unfold interval. apply NoDup_map_NoDup_ForallPairs; [ | apply seq_NoDup].
  intros x y _ _ H. lia.
Qed.

Lemma in_pairs (n i j : Z) :
  In (i, j) (pairs n) <-> 0 <= i <= n - 3 /\ i + 2 <= j <= n - 1.
Proof.
  unfold pairs. rewrite in_flat_map. split.
  - intros (i' & Hi & Hj). apply in_interval in Hi.
    apply in_map_iff in Hj. destruct Hj as (j' & E & Hj).
    injection E as <- <-. apply in_interval in Hj. lia.
  - intros [Hi Hj]. exists i. split; [apply in_interval; lia | ].
    apply in_map_iff. exists j. split; [reflexivity | ].
    apply in_interval. lia.
Qed.

Lemma NoDup_pairs (n : Z) : NoDup (pairs n).
Proof.
  unfold pairs. generalize (NoDup_interval 0 (n - 2)).
  induction (interval 0 (n - 2)) as [|i l IH]; intros Hnd; [constructor | ].
  inversion Hnd as [|? ? Hnotin Hnd']; subst. cbn [flat_map].
  apply NoDup_app.
  - apply NoDup_map_NoDup_ForallPairs; [ | apply NoDup_interval].
    intros x y _ _ H. congruence.
  - apply IH. exact Hnd'.
  - intros [i' j'] H1 H2. apply in_map_iff in H1.
    destruct H1 as (j0 & E & _). injection E as <- <-.
    apply in_flat_map in H2. destruct H2 as (i0 & Hi0 & H2).
    apply in_map_iff in H2. destruct H2 as (j1 & E & _).
    injection E as -> _. contradiction.
Qed.

Lemma marked_spec (bkpts : list Z) (p : Z) :
  marked bkpts p = true <-> rd bkpts p = Done 1.
Proof.
  unfold marked. destruct (rd bkpts p) as [b| |]; split; intros H;
    try discriminate.
  - apply Z.eqb_eq in H. now subst.
  - injection H as ->. reflexivity.
Qed.

Lemma in_evaluated_pairs (bkpts : list Z) (n i j : Z) :
  In (i, j) (evaluated_pairs bkpts n) <-> evaluated bkpts n i j.
Proof.
  unfold evaluated_pairs, evaluated. rewrite filter_In, in_pairs.
  cbn [fst snd]. rewrite andb_true_iff, orb_true_iff, Z.eqb_eq, !marked_spec.
  tauto.
Qed.

Lemma NoDup_evaluated_pairs (bkpts : list Z) (n : Z) :
  NoDup (evaluated_pairs bkpts n).
Proof. apply NoDup_filter, NoDup_pairs. Qed.

(** ** The likelihood matrix, pair after pair *)

Section MatrixChain.
Variable exp : double -> double.
Variable fuel : nat.
Variables (obs : list (list double)) (dis : list double) (n m : Z).

(** The construction of the matrix is the loop over the evaluated pairs. *)
Lemma likelihood_matrix_fold (bkpts : list Z) (s : fit_state) :
  len bkpts = n ->
  likelihood_matrix exp fuel obs dis n m bkpts s
  = fold_result (evaluated_pairs bkpts n)
      (fun p t => llik_cell exp fuel obs dis n m (fst p) (snd p) t) s.
Proof.
  intros Hb. unfold likelihood_matrix, evaluated_pairs, pairs.
  rewrite for_loop_fold, fold_result_filter, fold_result_flat_map.
  apply fold_result_ext. intros i t Hi. apply in_interval in Hi.
  rewrite fold_result_map. cbn [fst snd]. unfold llik_row.
  assert (Hskip : (if 0 <? i
                   then b <- rd bkpts (i - 1) ;; Done (negb (b =? 1))
                   else Done false)
                  = Done (negb ((i =? 0) || marked bkpts (i - 1)))).
  { destruct (Z.ltb_spec 0 i) as [Hpos | Hpos].
    - destruct (rd_in_range bkpts (i - 1)) as (b & Hrd); [lia | ].
      unfold marked. rewrite Hrd. cbn [bind].
      destruct (Z.eqb_spec i 0); [lia | reflexivity].
    - replace i with 0 by lia. reflexivity. }
  rewrite Hskip. cbn [bind].
  destruct ((i =? 0) || marked bkpts (i - 1)); cbn [negb andb].
  - rewrite for_loop_fold. apply fold_result_ext.
    intros j u Hj. apply in_interval in Hj.
    destruct (rd_in_range bkpts j) as (b & Hrd); [lia | ].
    unfold marked. rewrite Hrd. cbn [bind].
    destruct (b =? 1); reflexivity.
  - symmetry. apply fold_result_skip.
Qed.

(** One pair: the body of the loop of [tadbit] against [pair_fit]. *)
Lemma llik_cell_sim (i j : Z) (t u : fit_state) :
  same_fits t u -> 0 <= i + j * n < len (f_llik t) ->
  rel_result
    (fun t' (r : double * fit_state) =>
       same_fits t' (snd r) /\
       len (f_llik t') = len (f_llik t) /\
       rd (f_llik t') (i + j * n) = Done (fst r) /\
       forall p, p <> i + j * n -> rd (f_llik t') p = rd (f_llik t) p)
    (llik_cell exp fuel obs dis n m i j t)
    (pair_fit exp fuel obs dis n m i j u).
Proof.
  intros (Hd & Hk & H0 & H1 & H2) Hpos. unfold llik_cell, pair_fit.
  rewrite Hd, Hk, H0, H1, H2.
  destruct (break_in_blocks dis n i j (d_blk u)) as [db| |];
    cbn [bind rel_result]; auto.
  assert (Hw : wr (f_llik t) (i + j * n) d0
               = Done (upd (f_llik t) (Z.to_nat (i + j * n)) d0))
    by (apply wr_in_range; exact Hpos).
  rewrite Hw. cbn [bind].
  set (ll := upd (f_llik t) (Z.to_nat (i + j * n)) d0).
  pose proof (for_loop_sim (cell_rel (i + j * n) ll) 0 m
                (llik_replicate exp fuel obs n i j)
                (pair_sum_step exp fuel obs n i j)
                (mkFit db (k_blk u) (ab0 u) (ab1 u) (ab2 u) ll)
                (d0, mkFit db (k_blk u) (ab0 u) (ab1 u) (ab2 u) (f_llik u)))
    as Hsim.
  assert (Hstart : cell_rel (i + j * n) ll
                     (mkFit db (k_blk u) (ab0 u) (ab1 u) (ab2 u) ll)
                     (d0, mkFit db (k_blk u) (ab0 u) (ab1 u) (ab2 u)
                            (f_llik u))).
  { unfold cell_rel. cbn. repeat split; auto.
    apply (rd_wr_same _ _ _ _ Hw). }
  specialize (Hsim Hstart
                (fun k t0 x _ => llik_replicate_sim exp fuel obs n i j k ll t0 x)).
  destruct (for_loop 0 m (llik_replicate exp fuel obs n i j) _) as [t'| |],
           (for_loop 0 m (pair_sum_step exp fuel obs n i j) _) as [[v u']| |];
    cbn [rel_result] in *; try contradiction; auto.
  destruct Hsim as (Hd' & Hk' & H0' & H1' & H2' & Hv & Hlen & Hfr).
  cbn [fst snd] in *. unfold same_fits. repeat split; auto.
  - rewrite Hlen. unfold ll. apply len_upd.
  - intros p Hp. rewrite (Hfr p Hp).
    apply (rd_wr_other _ _ _ _ _ Hw). congruence.
Qed.

(** The loop over a list of pairs against [pair_sums]. *)
Lemma llik_cells_sim (ps : list (Z * Z)) :
  NoDup ps ->
  (forall i j, In (i, j) ps -> 0 <= i < n /\ 0 <= j < n) ->
  forall t u,
    same_fits t u -> len (f_llik t) = n * n ->
    rel_result
      (fun t' (r : list (Z * Z * double) * fit_state) =>
         same_fits t' (snd r) /\ map fst (fst r) = ps /\
         stored n (fst r) (f_llik t) (f_llik t'))
      (fold_result ps
         (fun p t => llik_cell exp fuel obs dis n m (fst p) (snd p) t) t)
      (pair_sums exp fuel obs dis n m ps u).
Proof.
  induction ps as [|[i j] ps IH]; intros Hnd Hin t u Hsame Hlen.
  - cbn [fold_result pair_sums rel_result fst snd map].
    split; [exact Hsame | ]. split; [reflexivity | ].
    split; [reflexivity | ]. split; [intros ? ? ? [] | reflexivity].
  - cbn [fold_result pair_sums fst snd].
    inversion Hnd as [|? ? Hnotin Hnd']; subst.
    destruct (Hin i j (or_introl eq_refl)) as [Hi Hj].
    assert (Hpos : 0 <= i + j * n < len (f_llik t)) by nia.
    pose proof (llik_cell_sim i j t u Hsame Hpos) as Hcell.
    destruct (llik_cell exp fuel obs dis n m i j t) as [t1| |],
             (pair_fit exp fuel obs dis n m i j u) as [[v u1]| |];
      cbn [rel_result bind] in *; try contradiction; auto.
    destruct Hcell as (Hsame1 & Hlen1 & Hv & Hfr). cbn [fst snd] in *.
    specialize (IH Hnd' (fun i' j' H => Hin i' j' (or_intror H)) t1 u1 Hsame1
                  ltac:(congruence)).
    destruct (fold_result ps _ t1) as [t'| |],
             (pair_sums exp fuel obs dis n m ps u1) as [[vals u']| |];
      cbn [rel_result bind] in *; try contradiction; auto.
    destruct IH as (Hsame' & Hmap & Hl' & Hval & Hrest). cbn [fst snd] in *.
    split; [exact Hsame' | ]. split; [cbn [map fst]; now rewrite Hmap | ].
    split; [congruence | ]. split.
    + intros i' j' v' [E | Hin'].
      * injection E as <- <- <-. rewrite Hrest; [exact Hv | lia | lia | ].
        now rewrite Hmap.
      * now apply Hval.
    + intros i' j' Hi' Hj' Hn'. cbn [map fst] in Hn'.
      rewrite Hrest by (auto; intros H; apply Hn'; now right).
      apply Hfr. intros E. apply index_inj in E; [ | lia | lia].
      apply Hn'. left. destruct E as [-> ->]. reflexivity.
Qed.

End MatrixChain.

(** C4.  The construction of the likelihood matrix, started on a matrix of
    NaN with a mask of [n] cells, against the sums of the evaluated pairs
    taken one after the other ([pair_sums]): the construction returns
    exactly when these sums do (it faults or exceeds the budget of the fits
    exactly when they do), and then, for every pair [(i, j)] with
    [0 <= i <= n-3] and [i+2 <= j <= n-1] such that [i-1] and [j] are
    candidates (the index -1 counting as one), the entry [llik[i+j*n]]
    holds the sum over the [m] replicates of
    [fit(top)/2 + fit(triangular) + fit(bottom)/2], for the three blocks
    that [break_in_blocks] gives for the replicate at [(i, j)], the fits
    starting from the parameters that the pair before left (from zero for
    the first pair); for every other pair the entry is the NaN it was set
    to. *)
Theorem likelihood_matrix_entries (exp : double -> double) (fuel : nat)
  (obs : list (list double)) (dis : list double) (n m : Z) (bkpts : list Z)
  (s : fit_state) :
  0 <= n -> len bkpts = n -> f_llik s = repeat NAN (Z.to_nat (n * n)) ->
  (forall i j, In (i, j) (evaluated_pairs bkpts n) <-> evaluated bkpts n i j) /\
  rel_result
    (fun s' (r : list (Z * Z * double) * fit_state) =>
       map fst (fst r) = evaluated_pairs bkpts n /\
       (forall i j v, In (i, j, v) (fst r) ->
          rd (f_llik s') (i + j * n) = Done v) /\
       (forall i j, 0 <= i < n -> 0 <= j < n -> ~ evaluated bkpts n i j ->
          rd (f_llik s') (i + j * n) = Done NAN))
    (likelihood_matrix exp fuel obs dis n m bkpts s)
    (pair_sums exp fuel obs dis n m (evaluated_pairs bkpts n) s).
Proof.
  intros Hn Hb Hinit. split; [intros i j; apply in_evaluated_pairs | ].
  rewrite (likelihood_matrix_fold exp fuel obs dis n m bkpts s Hb).
  pose proof (llik_cells_sim exp fuel obs dis n m (evaluated_pairs bkpts n)
                (NoDup_evaluated_pairs bkpts n)) as Hsim.
  assert (Hrange : forall i j, In (i, j) (evaluated_pairs bkpts n) ->
                           0 <= i < n /\ 0 <= j < n).
  { intros i j H. apply in_evaluated_pairs in H. unfold evaluated in H. lia. }
  specialize (Hsim Hrange s s).
  assert (Hsame : same_fits s s) by (unfold same_fits; auto).
  assert (Hlen : len (f_llik s) = n * n)
    by (rewrite Hinit, len_repeat; nia).
  specialize (Hsim Hsame Hlen).
  destruct (fold_result (evaluated_pairs bkpts n) _ s) as [s'| |],
           (pair_sums exp fuel obs dis n m (evaluated_pairs bkpts n) s)
    as [[vals u]| |]; cbn [rel_result] in *; try contradiction; auto.
  destruct Hsim as (_ & Hmap & _ & Hval & Hrest). cbn [fst snd] in *.
  split; [exact Hmap | ]. split; [exact Hval | ].
  intros i j Hi Hj He. rewrite Hrest; auto.
  - rewrite Hinit. apply rd_repeat. nia.
  - rewrite Hmap. intros H. apply He. now apply in_evaluated_pairs.
Qed.

(** C8.  When the construction of the likelihood matrix returns, started on
    a matrix of NaN: every entry of a pair that is not evaluated (a pair
    the candidate mask prunes, a pair with [j < i+2], the lower triangle)
    is still NaN, and every entry of the [n*n] is NaN or the complete sum
    over the [m] replicates of an evaluated pair. *)
Theorem likelihood_matrix_nan_or_complete (exp : double -> double)
  (fuel : nat) (obs : list (list double)) (dis : list double) (n m : Z)
  (bkpts : list Z) (s s' : fit_state) :
  0 <= n -> f_llik s = repeat NAN (Z.to_nat (n * n)) ->
  likelihood_matrix exp fuel obs dis n m bkpts s = Done s' ->
  len (f_llik s') = n * n /\
  (forall i j, 0 <= i < n -> 0 <= j < n -> ~ evaluated bkpts n i j ->
     rd (f_llik s') (i + j * n) = Done NAN) /\
  (forall i j, 0 <= i < n -> 0 <= j < n -> j < i + 2 ->
     rd (f_llik s') (i + j * n) = Done NAN) /\
  (forall p, 0 <= p < n * n ->
     exists v, rd (f_llik s') p = Done v /\
       (v = NAN \/
        exists i j st, p = i + j * n /\ evaluated bkpts n i j /\
                       pair_sum exp fuel obs dis n m i j st = Done v)).
Proof.
  intros Hn Hinit Hrun.
  destruct (likelihood_matrix_state exp fuel obs dis n m bkpts s s' Hn Hinit
              Hrun) as [Hlen H].
  assert (Hnot : forall i j, 0 <= i < n -> 0 <= j < n ->
            ~ evaluated bkpts n i j -> rd (f_llik s') (i + j * n) = Done NAN).
  { intros i j Hi Hj He.
    destruct (H i j Hi Hj) as [[He' _] | [_ Hv]]; [contradiction | exact Hv]. }
  split; [exact Hlen | ]. split; [exact Hnot | ]. split.
  - intros i j Hi Hj Hlow. apply Hnot; auto.
    unfold evaluated. lia.
  - intros p Hp. assert (Hn1 : 0 < n) by nia.
    pose proof (Z.div_mod p n ltac:(lia)) as Hdm.
    pose proof (Z.mod_pos_bound p n Hn1) as Hmod.
    assert (Hdiv : 0 <= p / n < n).
    { split; [apply Z.div_pos; lia | apply Z.div_lt_upper_bound; lia]. }
    assert (Ep : p mod n + p / n * n = p) by lia.
    destruct (H (p mod n) (p / n) Hmod Hdiv)
      as [[He (v & Hv & st & Hst)] | [He Hv]]; rewrite Ep in Hv.
    + exists v. split; [exact Hv | right].
      exists (p mod n), (p / n), st.
      split; [lia | split; [exact He | exact Hst]].
    + exists NAN. split; [exact Hv | left; reflexivity].
Qed.

Lemma rel_result_Done_r {S T : Type} (R : S -> T -> Prop) (r : result S)
  (b : T) :
  rel_result R r (Done b) -> exists a, r = Done a /\ R a b.
Proof.
  destruct r as [a| |]; cbn [rel_result]; intros H; try contradiction.
  exists a. auto.
Qed.

(** The sums of the three pairs of a 4 by 4 matrix of ones, with two
    replicates: 9, 12 and 9. *)
Example pair_sums_ones :
  exists st,
    pair_sums exp_c99 0 [ones 4; ones 4] (distance_matrix 4) 4 2
      (evaluated_pairs (repeat 1 4) 4) example_fit_state
    = Done ([(0, 2, of_int 9); (0, 3, of_int 12); (1, 3, of_int 9)], st).
Proof. eexists. vm_compute. reflexivity. Qed.

Lemma likelihood_matrix_entries_witness :
  evaluated_pairs (repeat 1 4) 4 = [(0, 2); (0, 3); (1, 3)] /\
  exists s' st,
    likelihood_matrix exp_c99 0 [ones 4; ones 4] (distance_matrix 4) 4 2
      (repeat 1 4) example_fit_state = Done s' /\
    pair_sums exp_c99 0 [ones 4; ones 4] (distance_matrix 4) 4 2
      (evaluated_pairs (repeat 1 4) 4) example_fit_state
    = Done ([(0, 2, of_int 9); (0, 3, of_int 12); (1, 3, of_int 9)], st) /\
    rd (f_llik s') (0 + 2 * 4) = Done (of_int 9) /\
    rd (f_llik s') (0 + 3 * 4) = Done (of_int 12) /\
    rd (f_llik s') (1 + 3 * 4) = Done (of_int 9) /\
    (forall i j, 0 <= i < 4 -> 0 <= j < 4 ->
       ~ evaluated (repeat 1 4) 4 i j ->
       rd (f_llik s') (i + j * 4) = Done NAN).
Proof.
  split; [reflexivity | ].
  destruct (likelihood_matrix_entries exp_c99 0 [ones 4; ones 4]
              (distance_matrix 4) 4 2 (repeat 1 4) example_fit_state)
    as [_ H]; [lia | reflexivity | reflexivity | ].
  destruct pair_sums_ones as [st E]. rewrite E in H.
  apply rel_result_Done_r in H.
  destruct H as (s' & Hs' & _ & Hval & Hnan). cbn [fst] in Hval.
  exists s', st. split; [exact Hs' | ]. split; [exact E | ].
  split; [apply Hval; cbn [In]; auto | ].
  split; [apply Hval; cbn [In]; auto | ].
  split; [apply Hval; cbn [In]; auto | exact Hnan].
Defined.

Lemma likelihood_matrix_nan_or_complete_witness :
  exists s',
    likelihood_matrix exp_c99 0 [ones 4; ones 4] (distance_matrix 4) 4 2
      (repeat 1 4) example_fit_state = Done s' /\
    len (f_llik s') = 4 * 4 /\
    (forall i j, 0 <= i < 4 -> 0 <= j < 4 -> ~ evaluated (repeat 1 4) 4 i j ->
       rd (f_llik s') (i + j * 4) = Done NAN) /\
    (forall i j, 0 <= i < 4 -> 0 <= j < 4 -> j < i + 2 ->
       rd (f_llik s') (i + j * 4) = Done NAN) /\
    (forall p, 0 <= p < 4 * 4 ->
       exists v, rd (f_llik s') p = Done v /\
         (v = NAN \/
          exists i j st, p = i + j * 4 /\ evaluated (repeat 1 4) 4 i j /\
                         pair_sum exp_c99 0 [ones 4; ones 4]
                           (distance_matrix 4) 4 2 i j st = Done v)).
Proof.
  destruct (likelihood_matrix exp_c99 0 [ones 4; ones 4] (distance_matrix 4)
              4 2 (repeat 1 4) example_fit_state) as [s'| |] eqn:E.
  - exists s'. split; [reflexivity | ].
    apply (likelihood_matrix_nan_or_complete exp_c99 0 [ones 4; ones 4]
             (distance_matrix 4) 4 2 (repeat 1 4) example_fit_state s');
      [lia | reflexivity | exact E].
  - exfalso. vm_compute in E. discriminate.
  - exfalso. vm_compute in E. discriminate.
Defined.

(** ** Range of the [int] expressions

    Up to [n = 46339] the products in the sizes that [tadbit] allocates
    stay within the range of a 32-bit [int]: computed with wrap-around,
    the capacities are the integers of [Z] that [block_capacity] gives. *)
Lemma sizes_fit_int (n : Z) :
  0 <= n <= 46339 ->
  (n + 1) * (n + 1) <= 2147483647 /\
  n * (n + 1) <= 2147483647 /\
  n * n <= 2147483647.
Proof. intros Hn. nia. Qed.

Lemma wrap32_small (z : Z) : 0 <= z <= 2147483647 -> wrap32 z = z.
Proof.
  intros Hz. unfold wrap32. rewrite Z.mod_small by lia. lia.
Qed.

Lemma block_capacity_int (b : blk) (n : Z) :
  0 <= n <= 46339 ->
  match b with
  | Top => Z.quot (wrap32 (wrap32 (n + 1) * wrap32 (n + 1))) 4
  | Tri => Z.quot (wrap32 (n * wrap32 (n + 1))) 2
  | Bot => Z.quot (wrap32 (wrap32 (n + 1) * wrap32 (n + 1))) 4
  end = block_capacity b n.
Proof.
  intros Hn. destruct (sizes_fit_int n Hn) as (H1 & H2 & _).
  rewrite (wrap32_small (n + 1)) by lia.
  destruct b; unfold block_capacity; rewrite wrap32_small; auto; nia.
Qed.

Lemma allocated_capacity (b : blk) (n : Z) :
  0 <= n <= 46339 -> allocated b n = block_capacity b n.
Proof.
  intros Hn. rewrite <- (block_capacity_int b n Hn). destruct b; reflexivity.
Qed.

(** Up to [n = 46339], the blocks that [tadbit] allocates are large enough
    for every call of [break_in_blocks]: the numbers of values written for
    a pair [0 <= i < j <= n-1] are at most the numbers of cells asked for,
    and on such blocks the call ends normally and keeps the blocks. *)
Lemma block_buffers_large_enough {A : Type} (mat : list A) (n i j : Z)
  (bs : blocks A) :
  0 <= i -> i < j -> j <= n - 1 -> n <= 46339 -> len mat = n * n ->
  (forall b, len (buf b bs) = allocated b n) ->
  i * (j - i + 1) <= allocated Top n /\
  Z.quot ((j - i) * (j - i + 1)) 2 <= allocated Tri n /\
  (n - j - 1) * (j - i + 1) <= allocated Bot n /\
  exists bs', break_in_blocks mat n i j bs = Done bs' /\
              forall b, len (buf b bs') = allocated b n.
Proof.
  intros Hi Hij Hj Hn Hmat Hcap.
  pose proof (fun b => block_count_capacity b n i j Hi ltac:(lia) ltac:(lia))
    as Hle.
  pose proof (fun b => allocated_capacity b n ltac:(lia)) as Hal.
  rewrite !Hal.
  split; [apply (Hle Top) | ]. split; [apply (Hle Tri) | ].
  split; [apply (Hle Bot) | ].
  destruct (break_in_blocks_Done mat n i j bs Hi ltac:(lia) ltac:(lia) Hmat)
    as (bs' & Hrun & Hlen).
  - intros b. rewrite Hcap, Hal. apply Hle.
  - exists bs'. split; [exact Hrun | ].
    intros b. rewrite Hlen. apply Hcap.
Qed.

Example block_buffers_large_enough_run :
  1 * (3 - 1 + 1) <= allocated Top 4 /\
  Z.quot ((3 - 1) * (3 - 1 + 1)) 2 <= allocated Tri 4 /\
  (4 - 3 - 1) * (3 - 1 + 1) <= allocated Bot 4 /\
  exists bs', break_in_blocks (index_matrix 4) 4 1 3
                (mkBlocks (repeat 0 6) (repeat 0 10) (repeat 0 6)) = Done bs' /\
              forall b, len (buf b bs') = allocated b 4.
Proof.
  apply (block_buffers_large_enough (index_matrix 4) 4 1 3
           (mkBlocks (repeat 0 6) (repeat 0 10) (repeat 0 6)));
    try lia; try reflexivity.
  intros [ | | ]; reflexivity.
Qed.

(** C9, at the input where the code departs from it.  At [n = 46340] the
    products [n*n] and [n*(n+1)] are still in the range of [int], but
    [(n+1)*(n+1) = 2147488281] is not: the expression [(n+1)*(n+1)/4] of
    the top and of the bottom block evaluates to -536869753 cells, and
    [malloc] is asked for 18446744069414593592 bytes, which it does not
    grant.  The top block has then no cell, while the call for the pair
    [(1, 2)] writes 2 values into it: the first store is outside the
    block. *)
Theorem block_capacity_overflows {A : Type} (mat : list A) (bs : blocks A) :
  len mat = 46340 * 46340 -> top bs = [] ->
  46340 * 46340 <= 2147483647 /\
  46340 * (46340 + 1) <= 2147483647 /\
  2147483647 < (46340 + 1) * (46340 + 1) /\
  allocated Top 46340 = -536869753 /\
  allocated Bot 46340 = -536869753 /\
  allocated Tri 46340 = 1073720970 /\
  malloc_request Top 46340 = 18446744069414593592 /\
  block_count Top 46340 1 2 = 2 /\
  break_in_blocks mat 46340 1 2 bs = Fault.
Proof.
  intros Hmat Htop.
  repeat (split; [vm_compute; first [reflexivity | discriminate] | ]).
  unfold break_in_blocks, break_in_blocks_with.
  rewrite for_loop_step by lia. unfold copy_rows at 1.
  rewrite for_loop_step by lia.
  destruct (rd_in_range mat (0 + 1 * 46340)) as (v & Hv); [lia | ].
  rewrite Hv. cbn [bind counter top_counter mem store_buf].
  rewrite Htop. reflexivity.
Qed.

Lemma block_capacity_overflows_witness :
  46340 * 46340 <= 2147483647 /\
  46340 * (46340 + 1) <= 2147483647 /\
  2147483647 < (46340 + 1) * (46340 + 1) /\
  allocated Top 46340 = -536869753 /\
  allocated Bot 46340 = -536869753 /\
  allocated Tri 46340 = 1073720970 /\
  malloc_request Top 46340 = 18446744069414593592 /\
  block_count Top 46340 1 2 = 2 /\
  break_in_blocks (repeat 0 (Z.to_nat (46340 * 46340))) 46340 1 2
    (mkBlocks [] [] []) = Fault.
Proof.
  apply (block_capacity_overflows (repeat 0 (Z.to_nat (46340 * 46340)))
           (mkBlocks [] [] [])).
  - rewrite len_repeat. lia.
  - reflexivity.
Defined.

(** ** Runs of the program *)

(** A fit that converges: the exit test is false on scores that are
    numbers, and [F*F + G*G <= TOLERANCE] holds at the returned
    parameters. *)
Example ml_ab_converges :
  match ml_ab exp_c99 30 [of_int 5; of_int 3; of_int 2]
          [of_int 1; of_int 2; of_int 3] (d0, d0) 3 with
  | Done (_, (a, b)) =>
      match score exp_c99 [of_int 5; of_int 3; of_int 2]
              [of_int 1; of_int 2; of_int 3] 3 a b with
      | Done (f, g) => SFleb (f * f + g * g)%D TOLERANCE
      | _ => false
      end
  | _ => false
  end = true.
Proof. vm_compute. reflexivity. Qed.

(** A 6 by 6 matrix with two domains, [fast] off: one breakpoint, at the
    index 2, and 0 at the last position. *)
Example tadbit_two_domains :
  tadbit exp_c99 100 [two_domains 6 3] 6 1 0 (blocks_of 6 NAN)
    (blocks_of 6 NAN) (repeat NAN 6) (repeat NAN 6)
  = Done [0; 0; 1; 0; 0; 0].
Proof. vm_compute. reflexivity. Qed.

(** [tadbit] in fast mode, on an 8 by 8 matrix with two domains: the
    candidate mask (the local maximum 3 of the profile, and the index 7),
    and the result of the rest of [tadbit] from this mask, one breakpoint
    at the index 3. *)
Example fast_mode_run :
  match candidate_mask exp_c99 100 [two_domains 8 4] (distance_matrix 8)
          8 1 1 (blocks_of 8 d0) (blocks_of 8 d0) (repeat NAN 8) with
  | Done (mask, kb, db) =>
      (mask,
       s <- likelihood_matrix exp_c99 100 [two_domains 8 4]
              (distance_matrix 8) 8 1 mask
              (mkFit db kb (d0, d0) (d0, d0) (d0, d0)
                 (repeat NAN (Z.to_nat (8 * 8)))) ;;
       get_breakpoints 100 (f_llik s) 8 (repeat NAN 8))
  | _ => ([], Fault)
  end = ([0; 0; 0; 1; 0; 0; 0; 1], Done [0; 0; 0; 1; 0; 0; 0; 0]).
Proof. vm_compute. reflexivity. Qed.


Lemma fast_mode_tadbit :
  tadbit exp_c99 100 [two_domains 8 4] 8 1 1 (blocks_of 8 d0)
    (blocks_of 8 d0) (repeat NAN 8) (repeat NAN 8)
  = Done [0; 0; 0; 1; 0; 0; 0; 0].
Proof.
  pose proof fast_mode_run as R. unfold tadbit.
  destruct (candidate_mask exp_c99 100 [two_domains 8 4] (distance_matrix 8)
              8 1 1 (blocks_of 8 d0) (blocks_of 8 d0) (repeat NAN 8))
    as [[[mask kb] db]| |]; try discriminate.
  cbn [bind]. injection R as _ R. exact R.
Qed.

(** The matrix of [tadbit_two_domains] with one count replaced by NaN: no
    breakpoint. *)
Example nan_count_run :
  tadbit exp_c99 100 [two_domains_nan] 6 1 0 (blocks_of 6 NAN)
    (blocks_of 6 NAN) (repeat NAN 6) (repeat NAN 6)
  = Done [0; 0; 0; 0; 0; 0].
Proof. vm_compute. reflexivity. Qed.



(** Counts of [2^600] in a 3 by 3 matrix: the squared score overflows, the
    second Newton-Raphson step is [NaN], and the fit of the pair [(0, 2)]
    ends on [NaN], which [tadbit] stores in the likelihood matrix. *)
Example nan_fit_in_likelihood_matrix :
  match likelihood_matrix exp_c99 100
          [repeat (SFldexp prec emax d1 600) 9] (distance_matrix 3)
          3 1 (repeat 1 3)
          (mkFit (blocks_of 3 NAN) (blocks_of 3 NAN) (d0, d0) (d0, d0)
                 (d0, d0) (repeat NAN 9)) with
  | Done s => (rd (f_llik s) (0 + 2 * 3), ab1 s)
  | _ => (Fault, (d0, d0))
  end = (Done NAN, (NAN, NAN)).
Proof. vm_compute. reflexivity. Qed.

(** * The elements read, the memory and the breakpoints returned *)

(** ** [ml_ab] reads the first [n] elements only *)

Section FitterPrefix.
Variable exp : double -> double.
Variables (k k' d d' : list double) (n : Z).
Hypothesis Hk : same_prefix n k k'.
Hypothesis Hd : same_prefix n d d'.

Lemma recompute_fg_prefix (a da b db : double) :
  recompute_fg exp k d n a da b db = recompute_fg exp k' d' n a da b db.
Proof.
  unfold recompute_fg. apply for_loop_ext_range.
  intros i [f g] Hi. now rewrite (Hk i Hi), (Hd i Hi).
Qed.

Lemma derivatives_prefix (a b : double) :
  derivatives exp d n a b = derivatives exp d' n a b.
Proof.
  unfold derivatives. apply for_loop_ext_range.
  intros i [[x y] z] Hi. now rewrite (Hd i Hi).
Qed.

Lemma loglik_prefix (a b : double) :
  loglik exp k d n a b = loglik exp k' d' n a b.
Proof.
  unfold loglik. apply for_loop_ext_range.
  intros i l Hi. now rewrite (Hk i Hi), (Hd i Hi).
Qed.

Lemma backtrack_prefix (fuel : nat) (a b oldgrad : double) :
  forall da db f g,
    backtrack exp fuel k d n a b oldgrad da db f g
    = backtrack exp fuel k' d' n a b oldgrad da db f g.
Proof.
  induction fuel as [|fuel IH]; intros da db f g; cbn [backtrack];
    [reflexivity | ].
  destruct (dgt _ oldgrad); [ | reflexivity].
  rewrite recompute_fg_prefix.
  destruct (recompute_fg exp k' d' n a _ b _) as [[f1 g1]| |]; cbn [bind]; auto.
Qed.

Lemma newton_prefix (inner fuel : nat) :
  forall s, newton exp inner fuel k d n s = newton exp inner fuel k' d' n s.
Proof.
  induction fuel as [|fuel IH]; intros s; cbn [newton]; [reflexivity | ].
  destruct (dgt _ TOLERANCE); [ | reflexivity].
  rewrite derivatives_prefix.
  destruct (derivatives exp d' n (ns_a s) (ns_b s)) as [[[x y] z]| |];
    cbn [bind]; auto.
  rewrite recompute_fg_prefix.
  destruct (recompute_fg exp k' d' n (ns_a s) _ (ns_b s) _) as [[f g]| |];
    cbn [bind]; auto.
  rewrite backtrack_prefix.
  destruct (backtrack exp inner k' d' n (ns_a s) (ns_b s) _ _ _ f g)
    as [[[[da db] f1] g1]| |]; cbn [bind]; auto.
Qed.

Lemma ml_ab_prefix (fuel : nat) (ab : double * double) :
  ml_ab exp fuel k d ab n = ml_ab exp fuel k' d' ab n.
Proof.
  unfold ml_ab. rewrite recompute_fg_prefix.
  destruct (recompute_fg exp k' d' n (fst ab) d0 (snd ab) d0) as [[f g]| |];
    cbn [bind]; auto.
  rewrite newton_prefix.
  destruct (newton exp fuel fuel k' d' n _) as [s| |]; cbn [bind]; auto.
  now rewrite loglik_prefix.
Qed.

End FitterPrefix.

(** ** [ml_ab] never reads outside its arrays *)

Section FitterSafe.
Variable exp : double -> double.
Variables (k d : list double) (n : Z).
Hypothesis Hk : n <= len k.
Hypothesis Hd : n <= len d.

Lemma recompute_fg_total (a da b db : double) :
  exists fg, recompute_fg exp k d n a da b db = Done fg.
Proof.
  unfold recompute_fg.
  destruct (for_loop_total_max (fun _ (_ : double * double) => True) 0 n
    (fun i '(f, g) =>
       di <- rd d i ;;
       ki <- rd k i ;;
       let tmp := (exp (a + da + (b + db) * di) - ki)%D in
       Done ((f + tmp)%D, (g + tmp * di)%D)) (d0, d0)) as (fg & H & _); auto.
  - intros i [f g] Hi _.
    destruct (rd_in_range d i) as (di & Hdi); [lia | ].
    destruct (rd_in_range k i) as (ki & Hki); [lia | ].
    rewrite Hdi, Hki. cbn [bind]. eexists. split; [reflexivity | exact I].
  - exists fg. exact H.
Qed.

Lemma derivatives_total (a b : double) :
  exists x, derivatives exp d n a b = Done x.
Proof.
  unfold derivatives.
  destruct (for_loop_total_max (fun _ (_ : double * double * double) => True)
    0 n
    (fun i '(dfda, dgda, dgdb) =>
       di <- rd d i ;;
       let tmp := exp (a + b * di)%D in
       Done ((dfda + tmp)%D, (dgda + tmp * di)%D, (dgdb + tmp * di * di)%D))
    (d0, d0, d0)) as (x & H & _); auto.
  - intros i [[x y] z] Hi _.
    destruct (rd_in_range d i) as (di & Hdi); [lia | ].
    rewrite Hdi. cbn [bind]. eexists. split; [reflexivity | exact I].
  - exists x. exact H.
Qed.

Lemma loglik_total (a b : double) : exists l, loglik exp k d n a b = Done l.
Proof.
  unfold loglik.
  destruct (for_loop_total_max (fun _ (_ : double) => True) 0 n
    (fun i llik =>
       di <- rd d i ;;
       ki <- rd k i ;;
       Done (llik + (exp (a + b * di) + ki * (a + b * di)))%D) d0)
    as (l & H & _); auto.
  - intros i l Hi _.
    destruct (rd_in_range d i) as (di & Hdi); [lia | ].
    destruct (rd_in_range k i) as (ki & Hki); [lia | ].
    rewrite Hdi, Hki. cbn [bind]. eexists. split; [reflexivity | exact I].
  - exists l. exact H.
Qed.

Lemma backtrack_safe (fuel : nat) (a b oldgrad : double) :
  forall da db f g, backtrack exp fuel k d n a b oldgrad da db f g <> Fault.
Proof.
  induction fuel as [|fuel IH]; intros da db f g; cbn [backtrack];
    destruct (dgt _ oldgrad); try discriminate.
  destruct (recompute_fg_total a (da / d2)%D b (db / d2)%D) as ([f1 g1] & H).
  rewrite H. cbn [bind]. apply IH.
Qed.

Lemma newton_safe (inner fuel : nat) :
  forall s, newton exp inner fuel k d n s <> Fault.
Proof.
  induction fuel as [|fuel IH]; intros s; cbn [newton];
    destruct (dgt _ TOLERANCE); try discriminate.
  destruct (derivatives_total (ns_a s) (ns_b s)) as ([[x y] z] & H).
  rewrite H. cbn [bind].
  match goal with
  | |- context [recompute_fg exp k d n ?a ?da ?b ?db] =>
      destruct (recompute_fg_total a da b db) as ([f g] & H')
  end.
  rewrite H'. cbn [bind].
  match goal with
  | |- context [backtrack exp inner k d n ?a ?b ?og ?da ?db f g] =>
      pose proof (backtrack_safe inner a b og da db f g) as Hb;
      destruct (backtrack exp inner k d n a b og da db f g)
        as [[[[da1 db1] f1] g1]| |]
  end; cbn [bind].
  - apply IH.
  - congruence.
  - discriminate.
Qed.

Lemma ml_ab_safe (fuel : nat) (ab : double * double) :
  ml_ab exp fuel k d ab n <> Fault.
Proof.
  unfold ml_ab.
  destruct (recompute_fg_total (fst ab) d0 (snd ab) d0) as ([f g] & H).
  rewrite H. cbn [bind].
  pose proof (newton_safe fuel fuel (mkNewton (fst ab) (snd ab) d0 d0 f g)) as Hn.
  destruct (newton exp fuel fuel k d n _) as [s| |]; cbn [bind];
    try congruence; try discriminate.
  destruct (loglik_total (ns_a s) (ns_b s)) as (l & Hl).
  rewrite Hl. discriminate.
Qed.

End FitterSafe.

(** ** Accesses in bounds *)

Lemma safely_Done {A : Type} (x : A) (Q : A -> Prop) : Q x -> safely (Done x) Q.
Proof. intros H. split; [discriminate | ]. now intros y [= <-]. Qed.

Lemma safely_OutOfFuel {A : Type} (Q : A -> Prop) : safely OutOfFuel Q.
Proof. split; discriminate. Qed.

Lemma safely_bind {A B : Type} (r : result A) (k : A -> result B)
  (P : A -> Prop) (Q : B -> Prop) :
  safely r P -> (forall x, P x -> safely (k x) Q) -> safely (bind r k) Q.
Proof.
  intros [Hr HP] Hk. destruct r as [x| |]; cbn [bind].
  - apply Hk. now apply HP.
  - congruence.
  - apply safely_OutOfFuel.
Qed.

Lemma safely_weaken {A : Type} (r : result A) (P Q : A -> Prop) :
  safely r P -> (forall x, P x -> Q x) -> safely r Q.
Proof. intros [Hr HP] H. split; [exact Hr | ]. intros x Hx. auto. Qed.

Lemma safely_total {A : Type} (r : result A) (Q : A -> Prop) :
  (exists x, r = Done x /\ Q x) -> safely r Q.
Proof. intros (x & -> & H). now apply safely_Done. Qed.

Lemma for_iter_safely {St : Type} (P : St -> Prop)
  (body : Z -> St -> result St) :
  forall (cnt : nat) (lo : Z) (s : St),
    P s ->
    (forall i t, lo <= i < lo + Z.of_nat cnt -> P t -> safely (body i t) P) ->
    safely (for_iter cnt lo body s) P.
Proof.
  induction cnt as [|c IH]; intros lo s H0 Hstep; cbn [for_iter].
  - now apply safely_Done.
  - apply (safely_bind _ _ P).
    + apply Hstep; [lia | exact H0].
    + intros x Hx. apply IH; [exact Hx | ].
      intros i t Hi. apply Hstep. lia.
Qed.

Lemma for_loop_safely {St : Type} (P : St -> Prop) (lo hi : Z)
  (body : Z -> St -> result St) (s : St) :
  P s ->
  (forall i t, lo <= i < hi -> P t -> safely (body i t) P) ->
  safely (for_loop lo hi body s) P.
Proof.
  intros H0 Hstep. unfold for_loop. apply for_iter_safely; [exact H0 | ].
  intros i t Hi. apply Hstep. lia.
Qed.

Lemma len_flat_map_rows {A B : Type} (f : A -> list B) (c : nat) (l : list A) :
  (forall x, length (f x) = c) -> length (flat_map f l) = (length l * c)%nat.
Proof.
  intros H. induction l as [|h t IH]; cbn; [reflexivity | ].
  rewrite length_app, H, IH. reflexivity.
Qed.

Lemma len_distance_matrix (n : Z) : 0 <= n -> len (distance_matrix n) = n * n.
Proof.
  intros Hn. unfold distance_matrix, len.
  rewrite (len_flat_map_rows _ (Z.to_nat n)).
  - unfold iota. rewrite length_map, length_seq. nia.
  - intros x. unfold iota. now rewrite !length_map, length_seq.
Qed.

Lemma roomy_count (n i j : Z) (bs : blocks double) (b : blk) :
  0 <= i -> i <= j -> j < n -> roomy n bs ->
  block_count b n i j <= len (buf b bs).
Proof.
  intros Hi Hij Hj H. specialize (H b).
  pose proof (block_count_capacity b n i j Hi Hij Hj). lia.
Qed.

Lemma break_in_blocks_safely (mat : list double) (n i j : Z)
  (bs : blocks double) :
  0 <= i -> i <= j -> j < n -> len mat = n * n -> roomy n bs ->
  safely (break_in_blocks mat n i j bs) (roomy n).
Proof.
  intros Hi Hij Hj Hmat Hbs. apply safely_total.
  destruct (break_in_blocks_Done mat n i j bs Hi Hij Hj Hmat)
    as (bs' & Hrun & Hlen).
  - intros b. now apply roomy_count.
  - exists bs'. split; [exact Hrun | ]. intros b. rewrite Hlen. apply Hbs.
Qed.

Section Safety.
Variable exp : double -> double.
Variable fuel : nat.

Lemma ml_ab_safely (k d : list double) (ab : double * double) (n : Z) :
  n <= len k -> n <= len d ->
  safely (ml_ab exp fuel k d ab n) (fun _ => True).
Proof.
  intros Hk Hd. split; [now apply ml_ab_safe | auto].
Qed.

End Safety.

Lemma backward_lengths (n j : Z) :
  0 <= j <= n ->
  j * (n - j + 1) <= block_capacity Top n /\
  Z.quot ((n - j) * (n - j + 1)) 2 <= block_capacity Tri n.
Proof.
  intros Hj. cbn [block_capacity]. split.
  - apply Z.quot_le_lower_bound; [lia | ].
    pose proof (Z.square_nonneg (n + 1 - 2 * j)). nia.
  - pose proof (twice_half_consecutive (n - j) ltac:(lia)).
    pose proof (twice_half_consecutive n ltac:(lia)). nia.
Qed.

Section OrchestratorSafety.
Variable exp : double -> double.
Variable fuel : nat.
Variables (obs : list (list double)) (n m : Z).
Hypothesis Hobs : obs_ok obs n m.

Lemma llik_replicate_safely (i j k : Z) (s : fit_state) :
  0 <= i -> i <= j -> j < n -> 0 <= k < m -> fit_ok n (n * n) s ->
  safely (llik_replicate exp fuel obs n i j k s) (fit_ok n (n * n)).
Proof.
  intros Hi Hij Hj Hk (Hd & Hkb & Hl). unfold llik_replicate.
  destruct (Hobs k Hk) as (mat & Hmat & Hlen). rewrite Hmat. cbn [bind].
  apply (safely_bind _ _ (roomy n)).
  { now apply break_in_blocks_safely. }
  intros kb Hkb'.
  pose proof (fun b => roomy_count n i j kb b Hi Hij Hj Hkb') as Ck.
  pose proof (fun b => roomy_count n i j (d_blk s) b Hi Hij Hj Hd) as Cd.
  apply (safely_bind _ _ (fun _ => True)).
  { apply ml_ab_safely; [apply (Ck Top) | apply (Cd Top)]. }
  intros [l0 p0] _.
  apply (safely_bind _ _ (fun _ => True)).
  { apply ml_ab_safely; [apply (Ck Tri) | apply (Cd Tri)]. }
  intros [l1 p1] _.
  apply (safely_bind _ _ (fun _ => True)).
  { apply ml_ab_safely; [apply (Ck Bot) | apply (Cd Bot)]. }
  intros [l2 p2] _.
  assert (Hr : 0 <= i + j * n < len (f_llik s)) by nia.
  destruct (rd_in_range _ _ Hr) as (cur & Hcur). rewrite Hcur. cbn [bind].
  rewrite (wr_in_range _ _ _ Hr). cbn [bind].
  apply safely_Done. split; [exact Hd | ]. split; [exact Hkb' | ].
  cbn [f_llik]. now rewrite len_upd.
Qed.

Lemma llik_cell_safely (dis : list double) (i j : Z) (s : fit_state) :
  len dis = n * n -> 0 <= i -> i <= j -> j < n -> fit_ok n (n * n) s ->
  safely (llik_cell exp fuel obs dis n m i j s) (fit_ok n (n * n)).
Proof.
  intros Hdis Hi Hij Hj (Hd & Hkb & Hl). unfold llik_cell.
  apply (safely_bind _ _ (roomy n)).
  { now apply break_in_blocks_safely. }
  intros db Hdb.
  assert (Hr : 0 <= i + j * n < len (f_llik s)) by nia.
  rewrite (wr_in_range _ _ _ Hr). cbn [bind].
  apply for_loop_safely.
  - split; [exact Hdb | ]. split; [exact Hkb | ].
    cbn [f_llik]. now rewrite len_upd.
  - intros k t Hk Ht. now apply llik_replicate_safely.
Qed.

Lemma llik_row_safely (dis : list double) (bkpts : list Z) (i : Z)
  (s : fit_state) :
  len dis = n * n -> len bkpts = n -> 0 <= i < n - 2 ->
  fit_ok n (n * n) s ->
  safely (llik_row exp fuel obs dis n m bkpts i s) (fit_ok n (n * n)).
Proof.
  intros Hdis Hb Hi Hs. unfold llik_row.
  apply (safely_bind _ _ (fun _ => True)).
  { destruct (Z.ltb_spec 0 i); [ | now apply safely_Done].
    destruct (rd_in_range bkpts (i - 1)) as (x & Hx); [lia | ].
    rewrite Hx. cbn [bind]. now apply safely_Done. }
  intros [ | ] _; [now apply safely_Done | ].
  apply for_loop_safely; [exact Hs | ].
  intros j t Hj Ht.
  destruct (rd_in_range bkpts j) as (x & Hx); [lia | ].
  rewrite Hx. cbn [bind].
  destruct (negb (x =? 1)); [now apply safely_Done | ].
  apply llik_cell_safely; auto; lia.
Qed.

Lemma likelihood_matrix_safely (dis : list double) (bkpts : list Z)
  (s : fit_state) :
  len dis = n * n -> len bkpts = n -> fit_ok n (n * n) s ->
  safely (likelihood_matrix exp fuel obs dis n m bkpts s) (fit_ok n (n * n)).
Proof.
  intros Hdis Hb Hs. unfold likelihood_matrix.
  apply for_loop_safely; [exact Hs | ].
  intros i t Hi Ht. now apply llik_row_safely.
Qed.

Lemma forward_scan_safely (dis : list double) (j : Z) (s : fit_state) :
  len dis = n * n -> 2 <= j < n -> fit_ok n n s ->
  safely (forward_scan exp fuel obs dis n m j s) (fit_ok n n).
Proof.
  intros Hdis Hj (Hd & Hkb & Hl). unfold forward_scan.
  apply (safely_bind _ _ (roomy n)).
  { apply break_in_blocks_safely; auto; lia. }
  intros db Hdb.
  assert (Hr : 0 <= j < len (f_llik s)) by lia.
  rewrite (wr_in_range _ _ _ Hr). cbn [bind].
  apply for_loop_safely.
  - split; [exact Hdb | ]. split; [exact Hkb | ].
    cbn [f_llik]. now rewrite len_upd.
  - intros k t Hk (Hd' & Hkb' & Hl').
    destruct (Hobs k Hk) as (mat & Hmat & Hlen). rewrite Hmat. cbn [bind].
    apply (safely_bind _ _ (roomy n)).
    { apply break_in_blocks_safely; auto; lia. }
    intros kb Hkb''.
    pose proof (fun b => roomy_count n 0 j kb b ltac:(lia) ltac:(lia)
                  ltac:(lia) Hkb'') as Ck.
    pose proof (fun b => roomy_count n 0 j (d_blk t) b ltac:(lia) ltac:(lia)
                  ltac:(lia) Hd') as Cd.
    apply (safely_bind _ _ (fun _ => True)).
    { pose proof (Ck Tri) as C1. pose proof (Cd Tri) as C2.
      cbn [block_count] in C1, C2.
      replace ((j - 0) * (j - 0 + 1)) with (j * (j + 1)) in C1, C2 by lia.
      now apply ml_ab_safely. }
    intros [l1 p1] _.
    apply (safely_bind _ _ (fun _ => True)).
    { pose proof (Ck Bot) as C1. pose proof (Cd Bot) as C2.
      cbn [block_count] in C1, C2.
      replace (j - 0 + 1) with (j + 1) in C1, C2 by lia.
      now apply ml_ab_safely. }
    intros [l2 p2] _.
    assert (Hr' : 0 <= j < len (f_llik t)) by lia.
    destruct (rd_in_range _ _ Hr') as (cur & Hcur). rewrite Hcur. cbn [bind].
    rewrite (wr_in_range _ _ _ Hr'). cbn [bind].
    apply safely_Done. split; [exact Hd' | ]. split; [exact Hkb'' | ].
    cbn [f_llik]. now rewrite len_upd.
Qed.

Lemma backward_scan_safely (dis : list double) (j : Z) (s : fit_state) :
  len dis = n * n -> 3 <= j < n - 3 -> fit_ok n n s ->
  safely (backward_scan exp fuel obs dis n m j s) (fit_ok n n).
Proof.
  intros Hdis Hj (Hd & Hkb & Hl). unfold backward_scan.
  apply (safely_bind _ _ (roomy n)).
  { apply break_in_blocks_safely; auto; lia. }
  intros db Hdb.
  apply for_loop_safely.
  - split; [exact Hdb | ]. split; [exact Hkb | exact Hl].
  - intros k t Hk (Hd' & Hkb' & Hl').
    destruct (Hobs k Hk) as (mat & Hmat & Hlen). rewrite Hmat. cbn [bind].
    apply (safely_bind _ _ (roomy n)).
    { apply break_in_blocks_safely; auto; lia. }
    intros kb Hkb''.
    destruct (backward_lengths n j ltac:(lia)) as [B0 B1].
    apply (safely_bind _ _ (fun _ => True)).
    { pose proof (Hkb'' Top). pose proof (Hd' Top).
      apply ml_ab_safely; cbn [buf] in *; lia. }
    intros [l0 p0] _.
    apply (safely_bind _ _ (fun _ => True)).
    { pose proof (Hkb'' Tri). pose proof (Hd' Tri).
      apply ml_ab_safely; cbn [buf] in *; lia. }
    intros [l1 p1] _.
    assert (Hr' : 0 <= j - 1 < len (f_llik t)) by lia.
    destruct (rd_in_range _ _ Hr') as (cur & Hcur). rewrite Hcur. cbn [bind].
    rewrite (wr_in_range _ _ _ Hr'). cbn [bind].
    apply safely_Done. split; [exact Hd' | ]. split; [exact Hkb'' | ].
    cbn [f_llik]. now rewrite len_upd.
Qed.

Lemma single_break_profile_safely (dis : list double) (kb db : blocks double)
  (garbage : list double) :
  len dis = n * n -> roomy n kb -> roomy n db -> len garbage = n ->
  safely (single_break_profile exp fuel obs dis n m kb db garbage)
         (fit_ok n n).
Proof.
  intros Hdis Hkb Hdb Hg. unfold single_break_profile.
  apply (safely_bind _ _ (fit_ok n n)).
  - apply for_loop_safely.
    + split; [exact Hdb | ]. split; [exact Hkb | exact Hg].
    + intros j t Hj Ht. now apply forward_scan_safely.
  - intros s Hs. apply for_loop_safely; [exact Hs | ].
    intros j t Hj Ht. now apply backward_scan_safely.
Qed.

Lemma candidate_mask_safely (dis : list double) (fast : Z)
  (kb db : blocks double) (garbage : list double) :
  1 <= n -> len dis = n * n -> roomy n kb -> roomy n db -> len garbage = n ->
  safely (candidate_mask exp fuel obs dis n m fast kb db garbage)
         (fun '(mask, kb', db') => len mask = n /\ roomy n kb' /\ roomy n db').
Proof.
  intros Hn Hdis Hkb Hdb Hg. unfold candidate_mask.
  destruct (fast =? 0).
  - apply safely_Done. split; [rewrite len_repeat; lia | auto].
  - unfold remove_non_local_maxima.
    apply (safely_bind _ _ (fit_ok n n)).
    { now apply single_break_profile_safely. }
    intros s (Hd & Hk & Hl).
    destruct (mark_local_maxima_Done n (f_llik s) (repeat 1 (Z.to_nat n)))
      as (bk & Hbk & Hlb & _); try lia.
    { rewrite len_repeat. lia. }
    rewrite Hbk. cbn [bind]. apply safely_Done. auto.
Qed.

End OrchestratorSafety.

Section DynamicProgramSafety.
Variables (llik : list double) (n : Z).
Hypothesis Hn : 1 <= n.
Hypothesis Hllik : len llik = n * n.

Lemma dp_loop_safely (fuel : nat) :
  forall s, loop_inv n s -> safely (dp_loop fuel llik n s) (dp_inv n).
Proof.
  induction fuel as [|fuel IH]; intros s Hinv; cbn [dp_loop];
    destruct (dlt (old_full_llik s) (new_full_llik s)).
  - apply safely_OutOfFuel.
  - apply safely_Done. apply Hinv.
  - destruct (loop_inv_round llik n Hn Hllik s Hinv) as (s' & Hrun & Hinv' & _).
    rewrite Hrun. cbn [bind]. now apply IH.
  - apply safely_Done. apply Hinv.
Qed.

Lemma get_breakpoints_safely (fuel : nat) (garbage : list double) :
  len garbage = n ->
  safely (get_breakpoints fuel llik n garbage) (fun out => len out = n).
Proof.
  intros Hg. unfold get_breakpoints.
  destruct (dp_init_Done llik n Hn Hllik garbage Hg)
    as (s0 & Hinit & Hinv0 & Hnb0 & _).
  rewrite Hinit. cbn [bind].
  apply (safely_bind _ _ (dp_inv n)).
  - apply dp_loop_safely. split; [exact Hinv0 | ]. split; intros; lia.
  - intros s Hinv. apply safely_total.
    destruct (fill_Done n (fun i => rd (old_bkpt_list s) (n - 1 + i * n)))
      as (out & Hout & Hlen & _).
    + lia.
    + intros i Hi. apply rd_in_range. rewrite (inv_ol _ _ Hinv). nia.
    + exists out. auto.
Qed.

End DynamicProgramSafety.


(** ** The contents of the buffers *)

Lemma segmented_same_prefix {A : Type} (mat : list A) (n i j : Z)
  (bs1 bs1' bs2 bs2' : blocks A) (b : blk) :
  segmented mat n i j bs1 bs1' -> segmented mat n i j bs2 bs2' ->
  same_prefix (block_count b n i j) (buf b bs1') (buf b bs2').
Proof.
  intros (H1 & S1 & _) (H2 & _) p Hp.
  destruct (S1 b p Hp) as (row & col & Hin & ->).
  destruct (H1 b row col Hin) as [_ ->].
  destruct (H2 b row col Hin) as [_ ->]. reflexivity.
Qed.

Lemma segmented_roomy (mat : list double) (n i j : Z)
  (bs bs' : blocks double) :
  segmented mat n i j bs bs' -> roomy n bs -> roomy n bs'.
Proof.
  intros (_ & _ & _ & Hlen) H b. rewrite Hlen. apply H.
Qed.

Lemma rel_result_eq {A : Type} (r r' : result A) :
  rel_result eq r r' -> r = r'.
Proof.
  destruct r, r'; cbn [rel_result]; intros H; try contradiction;
    congruence.
Qed.

Section BuffersIgnored.
Variable exp : double -> double.
Variable fuel : nat.
Variables (obs : list (list double)) (n m : Z).
Hypothesis Hobs : obs_ok obs n m.

Lemma llik_replicate_buffers (i j k : Z) (s t : fit_state) :
  0 <= i -> i <= j -> j < n -> 0 <= k < m -> same_cell n i j s t ->
  rel_result (same_cell n i j)
    (llik_replicate exp fuel obs n i j k s)
    (llik_replicate exp fuel obs n i j k t).
Proof.
  intros Hi Hij Hj Hk ((Hs & Ht & E0 & E1 & E2 & El) & Hd).
  unfold llik_replicate.
  destruct (Hobs k Hk) as (mat & Hmat & Hlen). rewrite Hmat. cbn [bind].
  destruct Hs as (Hsd & Hsk & Hsl). destruct Ht as (Htd & Htk & Htl).
  destruct (break_in_blocks_segmented mat n i j (k_blk s) Hi Hij Hj Hlen)
    as (kb1 & R1 & G1); [intros b; now apply roomy_count | ].
  destruct (break_in_blocks_segmented mat n i j (k_blk t) Hi Hij Hj Hlen)
    as (kb2 & R2 & G2); [intros b; now apply roomy_count | ].
  rewrite R1, R2. cbn [bind].
  pose proof (fun b => segmented_same_prefix mat n i j _ _ _ _ b G1 G2) as Hkb.
  rewrite <- E0, <- E1, <- E2, <- El.
  rewrite (ml_ab_prefix exp (top kb1) (top kb2) (top (d_blk s))
             (top (d_blk t)) (i * (j - i + 1)) (Hkb Top) (Hd Top)).
  destruct (ml_ab exp fuel (top kb2) (top (d_blk t)) (ab0 s) _)
    as [[l0 p0]| |]; cbn [bind rel_result]; auto.
  rewrite (ml_ab_prefix exp (tri kb1) (tri kb2) (tri (d_blk s))
             (tri (d_blk t)) _ (Hkb Tri) (Hd Tri)).
  destruct (ml_ab exp fuel (tri kb2) (tri (d_blk t)) (ab1 s) _)
    as [[l1 p1]| |]; cbn [bind rel_result]; auto.
  rewrite (ml_ab_prefix exp (bot kb1) (bot kb2) (bot (d_blk s))
             (bot (d_blk t)) _ (Hkb Bot) (Hd Bot)).
  destruct (ml_ab exp fuel (bot kb2) (bot (d_blk t)) (ab2 s) _)
    as [[l2 p2]| |]; cbn [bind rel_result]; auto.
  assert (Hr : 0 <= i + j * n < len (f_llik s)) by nia.
  destruct (rd_in_range _ _ Hr) as (cur & Hcur). rewrite Hcur. cbn [bind].
  rewrite (wr_in_range _ _ _ Hr). cbn [bind rel_result].
  split; [ | exact Hd].
  split; [ | split]; [ | | cbn; auto].
  - split; [exact Hsd | ]. split; [now apply (segmented_roomy _ _ _ _ _ _ G1) | ].
    cbn [f_llik]. now rewrite len_upd.
  - split; [exact Htd | ]. split; [now apply (segmented_roomy _ _ _ _ _ _ G2) | ].
    cbn [f_llik]. rewrite len_upd. congruence.
Qed.

Lemma llik_cell_buffers (dis : list double) (i j : Z) (s t : fit_state) :
  len dis = n * n -> 0 <= i -> i <= j -> j < n -> same_fit n s t ->
  rel_result (same_fit n)
    (llik_cell exp fuel obs dis n m i j s)
    (llik_cell exp fuel obs dis n m i j t).
Proof.
  intros Hdis Hi Hij Hj (Hs & Ht & E0 & E1 & E2 & El). unfold llik_cell.
  destruct Hs as (Hsd & Hsk & Hsl). destruct Ht as (Htd & Htk & Htl).
  destruct (break_in_blocks_segmented dis n i j (d_blk s) Hi Hij Hj Hdis)
    as (db1 & R1 & G1); [intros b; now apply roomy_count | ].
  destruct (break_in_blocks_segmented dis n i j (d_blk t) Hi Hij Hj Hdis)
    as (db2 & R2 & G2); [intros b; now apply roomy_count | ].
  rewrite R1, R2. cbn [bind]. rewrite <- E0, <- E1, <- E2, <- El.
  assert (Hr : 0 <= i + j * n < len (f_llik s)) by nia.
  rewrite (wr_in_range _ _ _ Hr). cbn [bind].
  pose proof (for_loop_sim (same_cell n i j) 0 m
                (llik_replicate exp fuel obs n i j)
                (llik_replicate exp fuel obs n i j)
                (mkFit db1 (k_blk s) (ab0 s) (ab1 s) (ab2 s)
                   (upd (f_llik s) (Z.to_nat (i + j * n)) d0))
                (mkFit db2 (k_blk t) (ab0 s) (ab1 s) (ab2 s)
                   (upd (f_llik s) (Z.to_nat (i + j * n)) d0))) as Hsim.
  match type of Hsim with
  | _ -> _ -> rel_result _ ?r1 ?r2 =>
      assert (H : rel_result (same_cell n i j) r1 r2)
  end.
  { apply Hsim.
    - split.
      + split; [ | split]; [ | | cbn; auto].
        * split; [now apply (segmented_roomy _ _ _ _ _ _ G1) | ].
          split; [exact Hsk | ]. cbn [f_llik]. now rewrite len_upd.
        * split; [now apply (segmented_roomy _ _ _ _ _ _ G2) | ].
          split; [exact Htk | ]. cbn [f_llik]. now rewrite len_upd.
      + intros b. cbn [d_blk].
        apply (segmented_same_prefix dis n i j _ _ _ _ b G1 G2).
    - intros k u v Hk Huv. now apply llik_replicate_buffers. }
  clear Hsim. revert H.
  match goal with
  | |- rel_result _ ?r1 ?r2 -> _ => destruct r1, r2
  end; cbn [rel_result]; auto.
  intros [H _]. exact H.
Qed.

Lemma llik_row_buffers (dis : list double) (bkpts : list Z) (i : Z)
  (s t : fit_state) :
  len dis = n * n -> 0 <= i < n - 2 -> same_fit n s t ->
  rel_result (same_fit n)
    (llik_row exp fuel obs dis n m bkpts i s)
    (llik_row exp fuel obs dis n m bkpts i t).
Proof.
  intros Hdis Hi Hst. unfold llik_row.
  destruct (if 0 <? i then b <- rd bkpts (i - 1) ;; Done (negb (b =? 1))
            else Done false) as [[ | ]| |]; cbn [bind rel_result]; auto.
  apply for_loop_sim; [exact Hst | ].
  intros j u v Hj Huv.
  destruct (rd bkpts j) as [x| |]; cbn [bind rel_result]; auto.
  destruct (negb (x =? 1)); cbn [rel_result]; [exact Huv | ].
  apply llik_cell_buffers; auto; lia.
Qed.

Lemma likelihood_matrix_buffers (dis : list double) (bkpts : list Z)
  (s t : fit_state) :
  len dis = n * n -> same_fit n s t ->
  rel_result (same_fit n)
    (likelihood_matrix exp fuel obs dis n m bkpts s)
    (likelihood_matrix exp fuel obs dis n m bkpts t).
Proof.
  intros Hdis Hst. unfold likelihood_matrix.
  apply for_loop_sim; [exact Hst | ].
  intros i u v Hi Huv. now apply llik_row_buffers.
Qed.

End BuffersIgnored.

Lemma tadbit_ignores_buffer_contents (exp : double -> double) (fuel : nat)
  (obs : list (list double)) (n m : Z) (kb db kb' db' : blocks double)
  (gp gp' gn : list double) :
  0 <= n -> obs_ok obs n m ->
  roomy n kb -> roomy n db -> roomy n kb' -> roomy n db' ->
  tadbit exp fuel obs n m 0 kb db gp gn
  = tadbit exp fuel obs n m 0 kb' db' gp' gn.
Proof.
  intros Hn Hobs Hkb Hdb Hkb' Hdb'. unfold tadbit, candidate_mask.
  cbn [Z.eqb bind].
  pose proof (likelihood_matrix_buffers exp fuel obs n m Hobs
                (distance_matrix n) (repeat 1 (Z.to_nat n))
                (mkFit db kb (d0, d0) (d0, d0) (d0, d0)
                   (repeat NAN (Z.to_nat (n * n))))
                (mkFit db' kb' (d0, d0) (d0, d0) (d0, d0)
                   (repeat NAN (Z.to_nat (n * n))))
                (len_distance_matrix n Hn)) as H.
  match type of H with
  | _ -> rel_result _ ?r1 ?r2 => assert (H' : rel_result (same_fit n) r1 r2)
  end.
  { apply H. assert (Hl : len (repeat NAN (Z.to_nat (n * n))) = n * n)
      by (rewrite len_repeat; nia).
    split; [ | split]; [ | | cbn; auto]; (split; [ | split]); auto. }
  clear H. revert H'.
  match goal with
  | |- rel_result _ ?r1 ?r2 -> _ => destruct r1 as [s| |], r2 as [t| |]
  end; cbn [rel_result bind]; try contradiction; auto.
  intros (_ & _ & _ & _ & _ & ->). reflexivity.
Qed.

(** ** The spacing of the breakpoints *)

Section Spacing.
Variables (llik : list double) (n : Z).
Hypothesis Hn : 1 <= n.
Hypothesis Hllik : len llik = n * n.

Lemma dp_update_list_column (j bp : Z) (new : list double)
  (old_list nl nl' : list Z) :
  0 <= j < n -> 0 <= bp < n -> len nl = n * n ->
  dp_update_list n j bp new old_list nl = Done nl' ->
  exists v, rd new j = Done v /\
    (((v >? NEG_INFINITY)%D = false /\ nl' = nl) \/
     ((v >? NEG_INFINITY)%D = true /\
      (forall c p, 0 <= c < n -> 0 <= p < n -> c <> j ->
         rd nl' (c + p * n) = rd nl (c + p * n)) /\
      (forall p, 0 <= p < n -> p <> bp ->
         rd nl' (j + p * n) = rd old_list (bp + p * n)) /\
      rd nl' (j + bp * n) = Done 1)).
Proof.
  intros Hj Hbp Hlen H. unfold dp_update_list in H. bind_inv H.
  rename x into v, Hx into Hv. exists v. split; [exact Hv | ].
  destruct (dgt v NEG_INFINITY) eqn:Etest;
    [ | left; split; [reflexivity | now injection H as <-]].
  right. split; [reflexivity | ].
  bind_inv H. rename x into l1, Hx into Hloop.
  apply (for_loop_inv
    (fun i t =>
       (forall c p, 0 <= c < n -> 0 <= p < n -> c <> j ->
          rd t (c + p * n) = rd nl (c + p * n)) /\
       (forall p, 0 <= p < i ->
          rd t (j + p * n) = rd old_list (bp + p * n))) 0 n) in Hloop.
  - destruct Hloop as (Hother & Hcol). split; [ | split].
    + intros c p Hc Hp Hne. rewrite (rd_wr_other _ _ _ _ _ H).
      * now apply Hother.
      * intros E. apply index_inj in E; lia.
    + intros p Hp Hne. rewrite (rd_wr_other _ _ _ _ _ H).
      * apply Hcol. lia.
      * intros E. apply index_inj in E; lia.
    + apply (rd_wr_same _ _ _ _ H).
  - lia.
  - split; [reflexivity | ]. intros p Hp. lia.
  - intros i t t' Hi (Hother & Hcol) Hbody. bind_inv Hbody. split.
    + intros c p Hc Hp Hne. rewrite (rd_wr_other _ _ _ _ _ Hbody).
      * now apply Hother.
      * intros E. apply index_inj in E; lia.
    + intros p Hp. destruct (Z.eq_dec p i) as [-> | Hne].
      * rewrite (rd_wr_same _ _ _ _ Hbody). now rewrite Hx.
      * rewrite (rd_wr_other _ _ _ _ _ Hbody).
        -- apply Hcol. lia.
        -- intros E. apply index_inj in E; lia.
Qed.

Lemma dp_update_list_spaced (j bp : Z) (new : list double)
  (old_list nl nl' : list Z) :
  0 <= j < n -> len nl = n * n ->
  (forall v, rd new j = Done v -> (v >? NEG_INFINITY)%D = true ->
             2 <= bp <= j - 3) ->
  all_spaced n old_list -> all_spaced n nl ->
  dp_update_list n j bp new old_list nl = Done nl' ->
  all_spaced n nl'.
Proof.
  intros Hj Hlen Hbp Hold Hnl H.
  assert (Hcases : nl' = nl \/ 2 <= bp <= j - 3).
  { unfold dp_update_list in H. bind_inv H.
    destruct (dgt x NEG_INFINITY) eqn:E.
    - right. now apply (Hbp x).
    - left. now injection H as <-. }
  destruct Hcases as [-> | Hr]; [exact Hnl | ].
  destruct (dp_update_list_column j bp new old_list nl nl' Hj ltac:(lia)
              Hlen H) as (v & _ & [[_ ->] | (_ & Hother & Hcol & Hone)]);
    [exact Hnl | ].
  intros c Hc. destruct (Z.eq_dec c j) as [-> | Hne].
  - destruct (Hold bp ltac:(lia)) as [Hb1 Hb2]. split.
    + intros p Hp H1. destruct (Z.eq_dec p bp) as [-> | Hpb]; [lia | ].
      rewrite Hcol in H1 by auto. specialize (Hb1 p Hp H1). lia.
    + intros p q Hp Hq Hpq H1 H2.
      destruct (Z.eq_dec p bp) as [-> | Hpb];
        destruct (Z.eq_dec q bp) as [-> | Hqb]; try lia.
      * rewrite Hcol in H2 by auto. specialize (Hb1 q Hq H2). lia.
      * rewrite Hcol in H1 by auto. specialize (Hb1 p Hp H1). lia.
      * rewrite Hcol in H1, H2 by auto. now apply Hb2.
  - destruct (Hnl c Hc) as [Hb1 Hb2]. split.
    + intros p Hp H1. rewrite Hother in H1 by auto. now apply Hb1.
    + intros p q Hp Hq Hpq H1 H2. rewrite Hother in H1, H2 by auto.
      now apply Hb2.
Qed.

Lemma dp_end_spaced (nb j bp bp' : Z) (old new new' : list double)
  (old_list nl nl' : list Z) :
  1 <= nb -> 3 * nb + 2 <= j < n ->
  len new = n -> len old = n -> len old_list = n * n -> len nl = n * n ->
  bits old_list -> bits nl -> last_row_zero n old_list -> last_row_zero n nl ->
  all_spaced n old_list -> all_spaced n nl ->
  dp_end llik n nb old old_list j (new, bp, nl) = Done (new', bp', nl') ->
  len new' = n /\ len nl' = n * n /\ bits nl' /\ last_row_zero n nl' /\
  all_spaced n nl'.
Proof.
  intros Hnb Hj Hnew Hold Hlo Hln Hbo Hbn Hzo Hzn Hso Hsn H.
  destruct (dp_end_Done llik n Hn Hllik nb j bp old new old_list nl)
    as (new1 & bp1 & nl1 & Hrun & Hl1 & _ & _ & Hl2 & Hb2 & Hz2); auto.
  rewrite Hrun in H. injection H as <- <- <-.
  split; [exact Hl1 | ]. split; [exact Hl2 | ]. split; [exact Hb2 | ].
  split; [exact Hz2 | ].
  clear Hl1 Hl2 Hb2 Hz2. unfold dp_end in Hrun.
  assert (Hw : wr new j NEG_INFINITY
               = Done (upd new (Z.to_nat j) NEG_INFINITY))
    by (apply wr_in_range; lia).
  rewrite Hw in Hrun. cbn [bind] in Hrun.
  destruct (dp_start_loop llik n Hn Hllik old
              (upd new (Z.to_nat j) NEG_INFINITY) nb j bp)
    as (new2 & bp2 & Hs & _ & _ & v & Hv & Hbest); auto.
  { now rewrite len_upd. }
  { apply (rd_wr_same _ _ _ _ Hw). }
  rewrite Hs in Hrun. cbn [bind] in Hrun. bind_inv Hrun.
  injection Hrun as <- <- <-.
  apply (dp_update_list_spaced j bp2 new2 old_list nl x); auto; try lia.
  intros v' Hv' Hgt. rewrite Hv in Hv'. injection Hv' as <-.
  destruct Hbest as [_ [-> | (i & [Hi _] & _ & ->)]].
  - rewrite neg_infinity_not_gt in Hgt. discriminate.
  - lia.
Qed.

Lemma dp_round_spaced (s s' : dp) :
  dp_inv n s -> all_spaced n (new_bkpt_list s) ->
  dp_round llik n s = Done s' ->
  all_spaced n (new_bkpt_list s') /\ all_spaced n (old_bkpt_list s').
Proof.
  intros Hinv Hsp Hrun.
  destruct (dp_round_Done llik n Hn Hllik s Hinv)
    as (s1 & Hrun1 & _ & _ & _ & Hol & _).
  rewrite Hrun in Hrun1. injection Hrun1 as <-.
  split; [ | rewrite Hol; exact Hsp].
  destruct Hinv as [Hnew Hold Hnl Hlo Hbn Hbo Hzn Hzo Hnb].
  unfold dp_round in Hrun. bind_inv Hrun.
  destruct x as [[new bp] nl]. bind_inv Hrun. injection Hrun as <-.
  cbn [new_bkpt_list].
  destruct (Z_le_gt_dec (3 * (nbreaks s + 1) + 2) n) as [Hle | Hgt].
  - apply (for_loop_inv
      (fun (j : Z) (t : list double * Z * list Z) =>
         len (fst (fst t)) = n /\ len (snd t) = n * n /\ bits (snd t) /\
         last_row_zero n (snd t) /\ all_spaced n (snd t))
      (3 * (nbreaks s + 1) + 2) n) in Hx.
    + apply Hx.
    + exact Hle.
    + cbn [fst snd]. auto.
    + intros j [[nw b] l] [[nw' b'] l'] Hj (H1 & H2 & H3 & H4 & H5) Hbody.
      cbn [fst snd] in *.
      apply (dp_end_spaced (nbreaks s + 1) j b b' (old_llik s) nw nw'
               (new_bkpt_list s) l l'); auto; lia.
  - rewrite for_loop_empty in Hx by lia. injection Hx as <- <- <-.
    exact Hsp.
Qed.

Lemma dp_loop_spaced (fuel : nat) :
  forall s s', loop_inv n s ->
    all_spaced n (new_bkpt_list s) -> all_spaced n (old_bkpt_list s) ->
    dp_loop fuel llik n s = Done s' ->
    all_spaced n (old_bkpt_list s').
Proof.
  induction fuel as [|fuel IH]; intros s s' Hinv Hsn Hso Hrun;
    cbn [dp_loop] in Hrun;
    destruct (dlt (old_full_llik s) (new_full_llik s)); try discriminate;
    try (injection Hrun as <-; exact Hso).
  destruct (loop_inv_round llik n Hn Hllik s Hinv) as (s1 & Hrun1 & Hinv1 & _).
  rewrite Hrun1 in Hrun. cbn [bind] in Hrun.
  destruct (dp_round_spaced s s1 (proj1 Hinv) Hsn Hrun1) as [Hsn1 Hso1].
  apply (IH s1 s' Hinv1 Hsn1 Hso1 Hrun).
Qed.

Lemma all_spaced_zeros : all_spaced n (repeat 0 (Z.to_nat (n * n))).
Proof.
  intros c Hc. split.
  - intros p Hp H. rewrite rd_repeat in H by nia. discriminate.
  - intros p q Hp Hq _ H. rewrite rd_repeat in H by nia. discriminate.
Qed.

Lemma get_breakpoints_spaced (fuel : nat) (garbage : list double)
  (out : list Z) :
  len garbage = n ->
  get_breakpoints fuel llik n garbage = Done out ->
  (forall p, rd out p = Done 1 -> 2 <= p <= n - 4) /\
  (forall p q, p < q -> rd out p = Done 1 -> rd out q = Done 1 -> p + 3 <= q).
Proof.
  intros Hg Hrun. unfold get_breakpoints in Hrun.
  destruct (dp_init_Done llik n Hn Hllik garbage Hg)
    as (s0 & Hinit & Hinv0 & Hnb0 & _).
  rewrite Hinit in Hrun. cbn [bind] in Hrun. bind_inv Hrun.
  rename x into s, Hx into Hloop.
  assert (Hlists : new_bkpt_list s0 = repeat 0 (Z.to_nat (n * n)) /\
                   old_bkpt_list s0 = repeat 0 (Z.to_nat (n * n))).
  { unfold dp_init in Hinit. bind_inv Hinit. bind_inv Hinit.
    injection Hinit as <-. split; reflexivity. }
  destruct Hlists as [Hl1 Hl2].
  assert (Hsp : all_spaced n (old_bkpt_list s)).
  { apply (dp_loop_spaced fuel s0 s); auto.
    - split; [exact Hinv0 | ]. split; intros; lia.
    - rewrite Hl1. apply all_spaced_zeros.
    - rewrite Hl2. apply all_spaced_zeros. }
  assert (Hinv : dp_inv n s).
  { apply (dp_loop_safely llik n Hn Hllik fuel s0); [ | exact Hloop].
    split; [exact Hinv0 | ]. split; intros; lia. }
  destruct (fill_Done n (fun i => rd (old_bkpt_list s) (n - 1 + i * n)))
    as (out' & Hout & Hlen & Hrd).
  { lia. }
  { intros i Hi. apply rd_in_range. rewrite (inv_ol _ _ Hinv). nia. }
  rewrite Hout in Hrun. injection Hrun as <-.
  destruct (Hsp (n - 1) ltac:(lia)) as [H1 H2]. split.
  - intros p Hp. pose proof (rd_range _ _ _ Hp) as Hr.
    rewrite Hrd in Hp by lia. specialize (H1 p ltac:(lia) Hp). lia.
  - intros p q Hpq Hp Hq.
    pose proof (rd_range _ _ _ Hp) as Hr. pose proof (rd_range _ _ _ Hq) as Hr'.
    rewrite Hrd in Hp, Hq by lia. apply H2; auto; lia.
Qed.

End Spacing.

(** ** The entries that [get_breakpoints] reads *)

Lemma rd_outside {A : Type} (l : list A) (p : Z) :
  ~ 0 <= p < len l -> rd l p = Fault.
Proof.
  intros H. destruct (rd l p) as [x| |] eqn:E; try reflexivity.
  - apply rd_range in E. contradiction.
  - unfold rd in E. destruct (0 <=? p); [ | discriminate].
    destruct (nth_error l (Z.to_nat p)); discriminate.
Qed.

Lemma rd_ext {A : Type} (l l' : list A) :
  (forall p, rd l p = rd l' p) -> l = l'.
Proof.
  intros H. apply nth_error_ext. intros k.
  specialize (H (Z.of_nat k)). unfold rd in H.
  replace (0 <=? Z.of_nat k) with true in H by (symmetry; apply Z.leb_le; lia).
  rewrite Nat2Z.id in H.
  destruct (nth_error l k), (nth_error l' k); congruence.
Qed.

Lemma for_iter_sim_at {S T : Type} (R : Z -> S -> T -> Prop)
  (f : Z -> S -> result S) (g : Z -> T -> result T) :
  forall (cnt : nat) (lo : Z) (s : S) (t : T),
    R lo s t ->
    (forall i s t, lo <= i < lo + Z.of_nat cnt -> R i s t ->
                   rel_result (R (i + 1)) (f i s) (g i t)) ->
    rel_result (R (lo + Z.of_nat cnt)) (for_iter cnt lo f s) (for_iter cnt lo g t).
Proof.
  induction cnt as [|c IH]; intros lo s t HR Hstep; cbn [for_iter].
  - cbn [rel_result]. now replace (lo + Z.of_nat 0) with lo by lia.
  - pose proof (Hstep lo s t ltac:(lia) HR) as H1.
    destruct (f lo s) as [s1| |], (g lo t) as [t1| |];
      cbn [rel_result bind] in *; try contradiction; auto.
    replace (lo + Z.of_nat (Datatypes.S c)) with (lo + 1 + Z.of_nat c) by lia.
    apply IH; [exact H1 | ]. intros i s0 t0 Hi. apply Hstep. lia.
Qed.

Lemma for_loop_sim_at {S T : Type} (R : Z -> S -> T -> Prop) (lo hi : Z)
  (f : Z -> S -> result S) (g : Z -> T -> result T) (s : S) (t : T) :
  lo <= hi -> R lo s t ->
  (forall i s t, lo <= i < hi -> R i s t ->
                 rel_result (R (i + 1)) (f i s) (g i t)) ->
  rel_result (R hi) (for_loop lo hi f s) (for_loop lo hi g t).
Proof.
  intros Hle HR Hstep. unfold for_loop.
  replace hi with (lo + Z.of_nat (Z.to_nat (hi - lo))) at 1 by lia.
  apply for_iter_sim_at; [exact HR | ].
  intros i s0 t0 Hi. apply Hstep. lia.
Qed.

Section Footprint.
Variables (llik llik' : list double) (n : Z).
Hypothesis Hn : 6 <= n.
Hypothesis Hsame : same_upper n llik llik'.

Lemma dp_start_sim (nb j : Z) (old old' : list double) (A : Z -> Prop)
  (i : Z) (s t : list double * Z) :
  1 <= nb -> 3 * nb <= i < j - 1 -> j < n ->
  (forall p, 3 * nb - 1 <= p -> rd old p = rd old' p) ->
  (snd s = snd t /\ len (fst s) = n /\ len (fst t) = n /\
   forall p, p = j \/ A p -> rd (fst s) p = rd (fst t) p) ->
  rel_result
    (fun s t => snd s = snd t /\ len (fst s) = n /\ len (fst t) = n /\
                forall p, p = j \/ A p -> rd (fst s) p = rd (fst t) p)
    (dp_start llik n j old i s) (dp_start llik' n j old' i t).
Proof.
  intros Hnb Hi Hj Hold. destruct s as [new bp], t as [new' bp'].
  cbn [fst snd]. intros (-> & Hl & Hl' & Hag). unfold dp_start.
  destruct Hsame as (_ & _ & Hll).
  rewrite (Hold (i - 1)) by lia. rewrite (Hll i j) by lia.
  destruct (rd old' (i - 1)) as [o| |]; cbn [bind rel_result]; auto.
  destruct (rd llik' (i + j * n)) as [l| |]; cbn [bind rel_result]; auto.
  rewrite (Hag j) by auto.
  destruct (rd new' j) as [cur| |]; cbn [bind rel_result]; auto.
  destruct (dgt (o + l) cur).
  - assert (Hr : 0 <= j < len new) by lia.
    assert (Hr' : 0 <= j < len new') by lia.
    pose proof (wr_in_range new j (o + l)%D Hr) as W.
    pose proof (wr_in_range new' j (o + l)%D Hr') as W'.
    rewrite W, W'. cbn [bind rel_result fst snd].
    split; [reflexivity | ]. split; [now rewrite len_upd | ].
    split; [now rewrite len_upd | ].
    intros p Hp. destruct (Z.eq_dec p j) as [-> | Hne].
    + now rewrite (rd_wr_same _ _ _ _ W), (rd_wr_same _ _ _ _ W').
    + rewrite (rd_wr_other _ _ _ _ _ W), (rd_wr_other _ _ _ _ _ W') by congruence.
      now apply Hag.
  - cbn [rel_result fst snd]. auto.
Qed.

Lemma dp_update_list_sim (j bp : Z) (new new' : list double)
  (old_list nl : list Z) :
  rd new j = rd new' j ->
  dp_update_list n j bp new old_list nl
  = dp_update_list n j bp new' old_list nl.
Proof. intros H. unfold dp_update_list. now rewrite H. Qed.

Lemma dp_end_sim (nb j : Z) (old old' : list double) (old_list : list Z)
  (A : Z -> Prop) (s t : list double * Z * list Z) :
  1 <= nb -> 3 * nb + 2 <= j < n ->
  (forall p, 3 * nb - 1 <= p -> rd old p = rd old' p) ->
  (snd (fst s) = snd (fst t) /\ snd s = snd t /\
   len (fst (fst s)) = n /\ len (fst (fst t)) = n /\
   forall p, A p -> rd (fst (fst s)) p = rd (fst (fst t)) p) ->
  rel_result
    (fun s t => snd (fst s) = snd (fst t) /\ snd s = snd t /\
                len (fst (fst s)) = n /\ len (fst (fst t)) = n /\
                forall p, p = j \/ A p ->
                          rd (fst (fst s)) p = rd (fst (fst t)) p)
    (dp_end llik n nb old old_list j s) (dp_end llik' n nb old' old_list j t).
Proof.
  intros Hnb Hj Hold. destruct s as [[new bp] nl], t as [[new' bp'] nl'].
  cbn [fst snd]. intros (-> & -> & Hl & Hl' & Hag). unfold dp_end.
  assert (Hr : 0 <= j < len new) by lia.
  assert (Hr' : 0 <= j < len new') by lia.
  pose proof (wr_in_range new j NEG_INFINITY Hr) as W.
  pose proof (wr_in_range new' j NEG_INFINITY Hr') as W'.
  rewrite W, W'. cbn [bind].
  pose proof (for_loop_sim
    (fun s t : list double * Z =>
       snd s = snd t /\ len (fst s) = n /\ len (fst t) = n /\
       forall p, p = j \/ A p -> rd (fst s) p = rd (fst t) p)
    (3 * nb) (j - 1) (dp_start llik n j old) (dp_start llik' n j old')
    (upd new (Z.to_nat j) NEG_INFINITY, bp')
    (upd new' (Z.to_nat j) NEG_INFINITY, bp')) as Hsim.
  match type of Hsim with
  | _ -> _ -> rel_result ?R ?r1 ?r2 => assert (H : rel_result R r1 r2)
  end.
  { apply Hsim.
    - cbn [fst snd]. split; [reflexivity | ].
      split; [now rewrite len_upd | ]. split; [now rewrite len_upd | ].
      intros p Hp. destruct (Z.eq_dec p j) as [-> | Hne].
      + now rewrite (rd_wr_same _ _ _ _ W), (rd_wr_same _ _ _ _ W').
      + rewrite (rd_wr_other _ _ _ _ _ W), (rd_wr_other _ _ _ _ _ W')
          by congruence.
        apply Hag. destruct Hp; [contradiction | assumption].
    - intros i s t Hi Hst. apply (dp_start_sim nb j old old' A); auto; lia. }
  clear Hsim. revert H.
  match goal with
  | |- rel_result _ ?r1 ?r2 -> _ =>
      destruct r1 as [[n1 b1]| |], r2 as [[n2 b2]| |]
  end; cbn [rel_result bind fst snd]; try contradiction; auto.
  intros (-> & H1 & H2 & H3).
  rewrite (dp_update_list_sim j b2 n1 n2 old_list nl') by (apply H3; auto).
  destruct (dp_update_list n j b2 n2 old_list nl') as [l| |];
    cbn [bind rel_result fst snd]; auto.
Qed.

Lemma dp_round_sim (s t : dp) :
  same_dp n s t ->
  rel_result (same_dp n) (dp_round llik n s) (dp_round llik' n t).
Proof.
  intros (Enb & Hnb & Ebp & Enl & Eol & Enf & Eof & L1 & L2 & L3 & L4
          & Hold & Hlast).
  unfold dp_round. rewrite <- Enb, <- Ebp, <- Enl, <- Enf.
  set (nb := nbreaks s + 1).
  set (A := fun j p => 3 * nb + 2 <= p < j \/ (2 <= nb /\ p = n - 1)).
  set (R := fun (j : Z) (s t : list double * Z * list Z) =>
              snd (fst s) = snd (fst t) /\ snd s = snd t /\
              len (fst (fst s)) = n /\ len (fst (fst t)) = n /\
              forall p, A j p -> rd (fst (fst s)) p = rd (fst (fst t)) p).
  assert (Hloop : rel_result (R (Z.max (3 * nb + 2) n))
            (for_loop (3 * nb + 2) n
               (dp_end llik n nb (old_llik s) (new_bkpt_list s))
               (new_llik s, new_breakpoint s, new_bkpt_list s))
            (for_loop (3 * nb + 2) n
               (dp_end llik' n nb (old_llik t) (new_bkpt_list s))
               (new_llik t, new_breakpoint s, new_bkpt_list s))).
  { assert (R0 : R (3 * nb + 2)
                   (new_llik s, new_breakpoint s, new_bkpt_list s)
                   (new_llik t, new_breakpoint s, new_bkpt_list s)).
    { unfold R, A. cbn [fst snd]. repeat (split; [auto; fail | ]).
      intros p [Hp | [H2 ->]]; [lia | ]. apply Hlast. lia. }
    destruct (Z_le_gt_dec (3 * nb + 2) n) as [Hle | Hgt].
    - rewrite Z.max_r by lia. apply for_loop_sim_at; [exact Hle | exact R0 | ].
      intros j u v Hj Huv.
      pose proof (dp_end_sim nb j (old_llik s) (old_llik t) (new_bkpt_list s)
                    (A j) u v ltac:(lia) ltac:(lia)) as H.
      match type of H with
      | _ -> _ -> rel_result ?Q ?r1 ?r2 => assert (H' : rel_result Q r1 r2)
      end.
      { apply H; [ | exact Huv]. intros p Hp. apply Hold. lia. }
      clear H. revert H'.
      match goal with
      | |- rel_result _ ?r1 ?r2 -> _ => destruct r1, r2
      end; cbn [rel_result]; auto.
      intros (H1 & H2 & H3 & H4 & H5). unfold R.
      repeat (split; [assumption | ]).
      intros p Hp. apply H5. unfold A in *. lia.
    - rewrite Z.max_l by lia. rewrite !for_loop_empty by lia.
      cbn [rel_result]. exact R0. }
  revert Hloop.
  match goal with
  | |- rel_result _ ?r1 ?r2 -> _ =>
      destruct r1 as [[[n1 b1] l1]| |], r2 as [[[n2 b2] l2]| |]
  end; cbn [rel_result bind]; try contradiction; auto.
  unfold R, A. cbn [fst snd]. intros (-> & -> & H1 & H2 & Hag).
  assert (Hfull : rd n1 (n - 1) = rd n2 (n - 1)).
  { apply Hag. destruct (Z_le_gt_dec (3 * nb + 2) (n - 1)); lia. }
  rewrite Hfull.
  destruct (rd n2 (n - 1)) as [full| |] eqn:E2; cbn [bind rel_result]; auto.
  unfold same_dp. cbn [nbreaks new_breakpoint new_llik old_llik new_bkpt_list
                        old_bkpt_list new_full_llik old_full_llik].
  repeat (split; [auto; lia | ]). split.
  - intros p Hp. destruct (Z_lt_ge_dec p n) as [Hlt | Hge].
    + apply Hag. fold nb in Hp. destruct (Z_le_gt_dec (Z.max (3 * nb + 2) n) p); lia.
    + rewrite !rd_outside by lia. reflexivity.
  - intros _. congruence.
Qed.

Lemma dp_loop_sim (fuel : nat) :
  forall s t, same_dp n s t ->
    rel_result (same_dp n) (dp_loop fuel llik n s) (dp_loop fuel llik' n t).
Proof.
  induction fuel as [|fuel IH]; intros s t Hst; cbn [dp_loop];
    pose proof Hst as (_ & _ & _ & _ & _ & Enf & Eof & _);
    rewrite <- Enf, <- Eof;
    destruct (dlt (old_full_llik s) (new_full_llik s));
    cbn [rel_result]; auto.
  pose proof (dp_round_sim s t Hst) as H.
  destruct (dp_round llik n s) as [s1| |], (dp_round llik' n t) as [t1| |];
    cbn [rel_result bind] in *; try contradiction; auto.
Qed.

Lemma get_breakpoints_sim (fuel : nat) (g g' : list double) :
  len g = n -> len g' = n ->
  get_breakpoints fuel llik n g = get_breakpoints fuel llik' n g'.
Proof.
  intros Hg Hg'. unfold get_breakpoints.
  destruct Hsame as (Hl & Hl' & Hll).
  destruct (dp_init_Done llik n ltac:(lia) Hl g Hg)
    as (s0 & Hinit & Hinv0 & Hnb0 & Hnew0 & Hold0 & Hfull0 & Hof0).
  destruct (dp_init_Done llik' n ltac:(lia) Hl' g' Hg')
    as (t0 & Hinit' & Hinv0' & Hnb0' & Hnew0' & Hold0' & Hfull0' & Hof0').
  rewrite Hinit, Hinit'. cbn [bind].
  assert (Hlists : forall l gg u, dp_init l n gg = Done u ->
            new_breakpoint u = 0 /\
            new_bkpt_list u = repeat 0 (Z.to_nat (n * n)) /\
            old_bkpt_list u = repeat 0 (Z.to_nat (n * n))).
  { intros l gg u H. unfold dp_init in H. bind_inv H. bind_inv H.
    injection H as <-. auto. }
  destruct (Hlists _ _ _ Hinit) as (B1 & N1 & O1).
  destruct (Hlists _ _ _ Hinit') as (B2 & N2 & O2).
  assert (Hagree : forall p, 2 <= p -> rd (old_llik s0) p = rd (old_llik t0) p).
  { intros p Hp. destruct (Z_lt_ge_dec p n) as [Hlt | Hge].
    - rewrite Hold0, Hold0' by lia.
      replace (p * n) with (0 + p * n) by lia. apply Hll; lia.
    - rewrite !rd_outside; [reflexivity | | ].
      + rewrite (inv_old _ _ Hinv0'). lia.
      + rewrite (inv_old _ _ Hinv0). lia. }
  assert (H0 : same_dp n s0 t0).
  { unfold same_dp. rewrite Hnb0, Hnb0', B1, B2, N1, N2, O1, O2, Hof0, Hof0'.
    repeat (split; [reflexivity || lia | ]).
    split.
    { pose proof (Hagree (n - 1) ltac:(lia)) as E.
      rewrite Hfull0, Hfull0' in E. congruence. }
    split; [reflexivity | ].
    split; [apply (inv_new _ _ Hinv0) | ].
    split; [apply (inv_new _ _ Hinv0') | ].
    split; [apply (inv_old _ _ Hinv0) | ].
    split; [apply (inv_old _ _ Hinv0') | ].
    split; [intros p Hp; apply Hagree; lia | intros; lia]. }
  pose proof (dp_loop_sim fuel s0 t0 H0) as H.
  destruct (dp_loop fuel llik n s0) as [s| |],
           (dp_loop fuel llik' n t0) as [t| |];
    cbn [rel_result bind] in *; try contradiction; auto.
  destruct H as (_ & _ & _ & _ & -> & _). reflexivity.
Qed.

End Footprint.

Lemma get_breakpoints_small (llik : list double) (n : Z) (fuel : nat)
  (garbage : list double) :
  1 <= n <= 5 -> len llik = n * n -> len garbage = n ->
  n + 5 <= Z.of_nat fuel ->
  get_breakpoints fuel llik n garbage = Done (repeat 0 (Z.to_nat n)).
Proof.
  intros Hn Hl Hg Hfuel.
  destruct (get_breakpoints_Done llik n ltac:(lia) Hl fuel garbage Hg Hfuel)
    as (out & Hrun & Hlen & Hbits & _).
  rewrite Hrun. f_equal. apply rd_ext. intros p.
  destruct (Z_le_gt_dec 0 p) as [H0 | H0];
    [destruct (Z_lt_ge_dec p n) as [H1 | H1] | ].
  - rewrite rd_repeat by lia.
    destruct (rd_in_range out p) as (x & Hx); [lia | ].
    destruct (Hbits p x Hx) as [-> | ->]; [exact Hx | ].
    destruct (get_breakpoints_spaced llik n ltac:(lia) Hl fuel garbage out
                Hg Hrun) as [Hpos _].
    specialize (Hpos p Hx). lia.
  - rewrite !rd_outside; [reflexivity | rewrite len_repeat; lia | lia].
  - rewrite !rd_outside; [reflexivity | rewrite len_repeat; lia | lia].
Qed.

(** ** The traceback of [get_breakpoints] *)

Lemma dgt_sum_neg_infinity (o l : double) :
  (o + l >? NEG_INFINITY)%D = true ->
  (o >? NEG_INFINITY)%D = true /\ is_nan l = false.
Proof.
  intros H.
  assert (Hn : is_nan (o + l)%D = false).
  { change (dlt NEG_INFINITY (o + l)%D = true) in H.
    apply dlt_not_nan in H. tauto. }
  destruct (dadd_nan o l Hn) as [Ho Hl]. split; [ | exact Hl].
  destruct o as [[|]|[|]| |[|] m e]; try reflexivity; try discriminate.
  destruct (dadd_neg_infinity l) as [E | E]; change (S754_infinity true) with NEG_INFINITY in H;
    rewrite E in H; discriminate.
Qed.

Section Traceback.
Variables (llik : list double) (n : Z).
Hypothesis Hn : 1 <= n.
Hypothesis Hllik : len llik = n * n.

(** What the body of the loop over the end point [j] does. *)
Lemma dp_end_trace (nb j bp bp' : Z) (old new new' : list double)
  (old_list nl nl' : list Z) :
  1 <= nb -> 3 * nb + 2 <= j < n ->
  len new = n -> len old = n -> len old_list = n * n -> len nl = n * n ->
  bits old_list -> bits nl -> last_row_zero n old_list -> last_row_zero n nl ->
  dp_end llik n nb old old_list j (new, bp, nl) = Done (new', bp', nl') ->
  len new' = n /\ len nl' = n * n /\ bits nl' /\ last_row_zero n nl' /\
  (forall p, p <> j -> rd new' p = rd new p) /\
  exists v, rd new' j = Done v /\
    (((v >? NEG_INFINITY)%D = false /\ nl' = nl) \/
     ((v >? NEG_INFINITY)%D = true /\
      exists i o l,
        3 * nb <= i < j - 1 /\ bp' = i - 1 /\
        rd old (i - 1) = Done o /\ rd llik (i + j * n) = Done l /\
        v = (o + l)%D /\
        (forall c p, 0 <= c < n -> 0 <= p < n -> c <> j ->
           rd nl' (c + p * n) = rd nl (c + p * n)) /\
        (forall p, 0 <= p < n -> p <> i - 1 ->
           rd nl' (j + p * n) = rd old_list (i - 1 + p * n)) /\
        rd nl' (j + (i - 1) * n) = Done 1)).
Proof.
  intros Hnb Hj Hnew Hold Hlo Hln Hbo Hbn Hzo Hzn H.
  destruct (dp_end_Done llik n Hn Hllik nb j bp old new old_list nl)
    as (new1 & bp1 & nl1 & Hrun & Hl1 & Hfr & (v & Hv & Hbest & Hsame)
        & Hl2 & Hb2 & Hz2); auto.
  rewrite Hrun in H. injection H as <- <- <-.
  split; [exact Hl1 | ]. split; [exact Hl2 | ]. split; [exact Hb2 | ].
  split; [exact Hz2 | ]. split; [exact Hfr | ].
  exists v. split; [exact Hv | ].
  destruct (dgt v NEG_INFINITY) eqn:Egt; [right | left; auto].
  split; [reflexivity | ].
  destruct Hbest as [_ [-> | (i & [Hi (o & l & Ho & Hl & Hvol)] & _ & Hbp)]].
  { rewrite neg_infinity_not_gt in Egt. discriminate. }
  exists i, o, l. repeat (split; [assumption || lia | ]).
  unfold dp_end in Hrun.
  assert (Hw : wr new j NEG_INFINITY
               = Done (upd new (Z.to_nat j) NEG_INFINITY))
    by (apply wr_in_range; lia).
  rewrite Hw in Hrun. cbn [bind] in Hrun. bind_inv Hrun.
  destruct x as [new2 bp2]. bind_inv Hrun.
  injection Hrun as E1 E2 E3. subst new2 bp2 x.
  rewrite Hbp in Hx0.
  destruct (dp_update_list_column n Hn j (i - 1) new1 old_list nl nl1
              ltac:(lia) ltac:(lia) Hln Hx0)
    as (v' & Hv' & [[Hf _] | (_ & Hother & Hcol & Hone)]).
  - rewrite Hv in Hv'. injection Hv' as <-. congruence.
  - auto.
Qed.

Lemma dp_round_chain (s s' : dp) :
  dp_inv n s -> chain_inv llik n s ->
  dp_round llik n s = Done s' -> chain_inv llik n s'.
Proof.
  intros Hinv Hch Hrun.
  destruct Hinv as [Hnew Hold Hnl Hlo Hbn Hbo Hzn Hzo Hnb].
  unfold dp_round in Hrun. bind_inv Hrun.
  destruct x as [[new bp] nl]. bind_inv Hrun. injection Hrun as <-.
  set (nb := nbreaks s + 1) in *.
  assert (Hloop :
    forall j v, 3 * nb + 2 <= j < n -> rd new j = Done v ->
      (v >? NEG_INFINITY)%D = true ->
      exists bps, marks n j nl bps /\ chained llik n j bps v).
  { destruct (Z_le_gt_dec (3 * nb + 2) n) as [Hle | Hgt].
    2: { intros j v Hj. lia. }
    apply (for_loop_inv
      (fun (j0 : Z) (t : list double * Z * list Z) =>
         len (fst (fst t)) = n /\ len (snd t) = n * n /\ bits (snd t) /\
         last_row_zero n (snd t) /\
         forall j v, 3 * nb + 2 <= j < j0 -> rd (fst (fst t)) j = Done v ->
           (v >? NEG_INFINITY)%D = true ->
           exists bps, marks n j (snd t) bps /\ chained llik n j bps v)
      (3 * nb + 2) n) in Hx.
    - cbn [fst snd] in Hx. tauto.
    - exact Hle.
    - cbn [fst snd]. repeat (split; [assumption | ]). intros j v Hj. lia.
    - intros j0 [[nw b] l] [[nw' b'] l'] Hj0 (H1 & H2 & H3 & H4 & H6) Hbody.
      cbn [fst snd] in *.
      destruct (dp_end_trace nb j0 b b' (old_llik s) nw nw'
                  (new_bkpt_list s) l l')
        as (T1 & T2 & T3 & T4 & Tfr & v & Tv & Tc); auto; try lia.
      repeat (split; [assumption | ]).
      destruct Tc as [[Tf ->] | (Tt & i & o & ll & Hi & _ & Ho & Hl & -> & Hother
                                   & Hcol & Hone)].
      + intros j w Hj Hw Hgt.
        destruct (Z.eq_dec j j0) as [-> | Hne]; [congruence | ].
        rewrite Tfr in Hw by exact Hne. apply (H6 j w); auto. lia.
      + destruct (dgt_sum_neg_infinity o ll Tt) as [Hogt Hlnan].
        destruct (Hch (i - 1) o ltac:(lia) Ho Hogt) as (bps & Hm & Hc).
        intros j w Hj Hw Hgt.
        destruct (Z.eq_dec j j0) as [-> | Hne].
        * exists ((i - 1) :: bps). rewrite Tv in Hw. injection Hw as <-. split.
          -- intros p Hp. cbn [existsb].
             destruct (Z.eqb_spec p (i - 1)) as [-> | Hne]; cbn [orb].
             ++ exact Hone.
             ++ rewrite Hcol by auto. now apply Hm.
          -- apply chained_cut; auto. lia.
        * rewrite Tfr in Hw by exact Hne.
          destruct (H6 j w ltac:(lia) Hw Hgt) as (bps1 & Hm1 & Hc1).
          exists bps1. split; [ | exact Hc1]. intros p Hp.
          rewrite Hother by (auto; lia). now apply Hm1. }
  intros j o Hj Ho Hgt. cbn [nbreaks old_llik new_bkpt_list] in *.
  apply (Hloop j o); auto.
Qed.

Lemma dgt_trans (a b c : double) :
  (b >? a)%D = true -> (c >? b)%D = true -> (c >? a)%D = true.
Proof.
  change (dlt a b = true -> dlt b c = true -> dlt a c = true).
  intros H1 H2. apply dlt_spec in H1, H2. apply dlt_spec.
  destruct H1 as (Ha & Hb & H1), H2 as (_ & Hc & H2).
  split; [exact Ha | ]. split; [exact Hc | ]. unfold klt in *. lia.
Qed.

Lemma marks_zeros (c : Z) :
  0 <= c < n -> marks n c (repeat 0 (Z.to_nat (n * n))) [].
Proof. intros Hc p Hp. cbn [existsb]. apply rd_repeat. nia. Qed.

Lemma trace_inv_round (s s' : dp) :
  6 <= n -> trace_inv llik n s ->
  (old_full_llik s <? new_full_llik s)%D = true ->
  dp_round llik n s = Done s' -> trace_inv llik n s'.
Proof.
  intros H6 (Hinv & Hch & Hold & H0 & H1) Htest Hrun.
  destruct (loop_inv_round llik n Hn Hllik s Hinv)
    as (s1 & Hrun1 & Hinv1 & Hnb1).
  rewrite Hrun in Hrun1. injection Hrun1 as <-.
  destruct (dp_round_Done llik n Hn Hllik s (proj1 Hinv))
    as (s2 & Hrun2 & _ & _ & Hno & Hol & Hof & _).
  rewrite Hrun in Hrun2. injection Hrun2 as <-.
  pose proof (inv_nb _ _ (proj1 Hinv)) as Hnb.
  assert (Hgt : (new_full_llik s >? old_full_llik s)%D = true) by exact Htest.
  split; [exact Hinv1 | ].
  split; [apply (dp_round_chain s s'); auto; apply Hinv | ].
  split; [ | split].
  - rewrite Hol. destruct (Z.eq_dec (nbreaks s) 0) as [E0 | E0].
    + destruct (H0 E0) as [Hz _]. rewrite Hz. exists [].
      split; [apply marks_zeros; lia | left; reflexivity].
    + destruct (H1 ltac:(lia)) as [Eno Hbase].
      destruct (Hbase Htest) as (base & Hb & Hvb).
      destruct Hinv as (Hdp & HA & HB).
      destruct (Z_le_gt_dec (3 * nbreaks s + 2) (n - 1)) as [Hr | Hr].
      * destruct (Hch (n - 1) (new_full_llik s)) as (bps & Hm & Hc).
        -- lia.
        -- rewrite <- Eno. apply HA. lia.
        -- apply (dgt_neg_infinity _ _ Hgt).
        -- exists bps. split; [exact Hm | ]. right.
           exists base, (new_full_llik s). auto.
      * exfalso. rewrite HB in Htest by lia. discriminate.
  - intros E. lia.
  - intros _. split; [symmetry; exact Hno | ].
    intros Htest'. rewrite Hof in Htest'.
    assert (Hgt' : (new_full_llik s' >? new_full_llik s)%D = true)
      by exact Htest'.
    destruct (Z.eq_dec (nbreaks s) 0) as [E0 | E0].
    + destruct (H0 E0) as [_ Hb]. exists (new_full_llik s). auto.
    + destruct (H1 ltac:(lia)) as [_ Hbase].
      destruct (Hbase Htest) as (base & Hb & Hvb).
      exists base. split; [exact Hb | ].
      apply (dgt_trans base (new_full_llik s)); assumption.
Qed.

Lemma dp_loop_traced (fuel : nat) :
  6 <= n ->
  forall s s', trace_inv llik n s ->
    dp_loop fuel llik n s = Done s' ->
    traced llik n (old_bkpt_list s').
Proof.
  intros H6. induction fuel as [|fuel IH]; intros s s' Hinv Hrun;
    cbn [dp_loop] in Hrun;
    destruct (dlt (old_full_llik s) (new_full_llik s)) eqn:Etest;
    try discriminate;
    try (injection Hrun as <-; apply Hinv).
  destruct (loop_inv_round llik n Hn Hllik s (proj1 Hinv))
    as (s1 & Hrun1 & _).
  rewrite Hrun1 in Hrun. cbn [bind] in Hrun.
  apply (IH s1 s'); [ | exact Hrun].
  now apply (trace_inv_round s s1).
Qed.

Lemma get_breakpoints_traced (fuel : nat) (garbage : list double)
  (out : list Z) :
  len garbage = n ->
  get_breakpoints fuel llik n garbage = Done out ->
  exists bps,
    (forall p, 0 <= p < n ->
       rd out p = Done (if existsb (Z.eqb p) bps then 1 else 0)) /\
    improving llik n bps.
Proof.
  intros Hg Hrun.
  destruct (Z_le_gt_dec 6 n) as [H6 | H6].
  2: { exists []. split; [ | left; reflexivity]. intros p Hp. cbn [existsb].
       destruct (get_breakpoints_output llik n fuel garbage out Hn Hllik Hg Hrun)
         as (Hlen & Hbits & _).
       destruct (rd_in_range out p) as (x & Hx); [lia | ].
       destruct (Hbits p x Hx) as [-> | ->]; [exact Hx | ].
       destruct (get_breakpoints_spaced llik n Hn Hllik fuel garbage out
                   Hg Hrun) as [Hpos _].
       specialize (Hpos p Hx). lia. }
  unfold get_breakpoints in Hrun.
  destruct (dp_init_Done llik n Hn Hllik garbage Hg)
    as (s0 & Hinit & Hinv0 & Hnb0 & _ & Hold0 & Hfull0 & _).
  rewrite Hinit in Hrun. cbn [bind] in Hrun. bind_inv Hrun.
  rename x into s, Hx into Hloop.
  assert (Hlists : new_bkpt_list s0 = repeat 0 (Z.to_nat (n * n)) /\
                   old_bkpt_list s0 = repeat 0 (Z.to_nat (n * n))).
  { unfold dp_init in Hinit. bind_inv Hinit. bind_inv Hinit.
    injection Hinit as <-. split; reflexivity. }
  destruct Hlists as [Hl1 Hl2].
  assert (Hinv1 : loop_inv n s0).
  { split; [exact Hinv0 | ]. split; intros; lia. }
  assert (Htr0 : trace_inv llik n s0).
  { split; [exact Hinv1 | ]. split; [ | split; [ | split]].
    - intros j o Hj Ho Hgt. rewrite Hnb0 in Hj. exists []. split.
      + rewrite Hl1. apply marks_zeros. lia.
      + apply chained_one.
        * rewrite <- Ho, Hold0 by lia. f_equal.
        * change (dlt NEG_INFINITY o = true) in Hgt.
          apply dlt_not_nan in Hgt. tauto.
    - rewrite Hl2. exists [].
      split; [apply marks_zeros; lia | left; reflexivity].
    - intros _. split; [exact Hl1 | ].
      rewrite <- Hfull0, Hold0 by lia. reflexivity.
    - intros H. lia. }
  assert (Htr : traced llik n (old_bkpt_list s))
    by (apply (dp_loop_traced fuel H6 s0 s Htr0 Hloop)).
  assert (Hinv : dp_inv n s).
  { apply (dp_loop_safely llik n Hn Hllik fuel s0); [exact Hinv1 | exact Hloop]. }
  destruct (fill_Done n (fun i => rd (old_bkpt_list s) (n - 1 + i * n)))
    as (out' & Hout & Hlen & Hrd).
  { lia. }
  { intros i Hi. apply rd_in_range. rewrite (inv_ol _ _ Hinv). nia. }
  rewrite Hout in Hrun. injection Hrun as <-.
  destruct Htr as (bps & Hm & Hc). exists bps. split; [ | exact Hc].
  intros p Hp. rewrite Hrd by lia. now apply Hm.
Qed.

End Traceback.

(** ** The distance matrix *)

Lemma nth_error_rows {A : Type} (g : Z -> list A) (c : nat) :
  (forall x, length (g x) = c) ->
  forall (k a i j : nat), (i < k)%nat -> (j < c)%nat ->
    nth_error (flat_map g (map Z.of_nat (seq a k))) (i * c + j)
    = nth_error (g (Z.of_nat (a + i))) j.
Proof.
  intros Hg. induction k as [|k IH]; intros a i j Hi Hj; [lia | ].
  cbn [seq map flat_map]. destruct i as [|i].
  - rewrite Nat.add_0_r. cbn [Nat.mul Nat.add].
    rewrite nth_error_app1 by (rewrite Hg; exact Hj). reflexivity.
  - rewrite nth_error_app2 by (rewrite Hg; nia).
    rewrite Hg. replace (S i * c + j - c)%nat with (i * c + j)%nat by nia.
    rewrite IH by lia. do 2 f_equal. lia.
Qed.

Lemma rd_distance_matrix (n row col : Z) :
  0 <= row < n -> 0 <= col < n ->
  rd (distance_matrix n) (row + col * n) = Done (of_int (Z.abs (row - col))).
Proof.
  intros Hr Hc. apply rd_Done. split; [nia | ].
  unfold distance_matrix, iota.
  replace (Z.to_nat (row + col * n))
    with (Z.to_nat col * Z.to_nat n + Z.to_nat row)%nat by nia.
  rewrite (nth_error_rows _ (Z.to_nat n)).
  - rewrite nth_error_map. rewrite nth_error_map.
    rewrite nth_error_seq.
    replace (Z.to_nat row <? Z.to_nat n)%nat with true
      by (symmetry; apply Nat.ltb_lt; lia).
    cbn [option_map]. do 2 f_equal. lia.
  - intros x. now rewrite !length_map, length_seq.
  - lia.
  - lia.
Qed.

(** ** The candidates *)

Lemma dgt_asym (x y : double) : (x >? y)%D = true -> (y >? x)%D = false.
Proof.
  change (dlt y x = true -> dlt x y = false). intros H.
  destruct (dlt x y) eqn:E; [ | reflexivity].
  apply dlt_spec in H, E. destruct H as (_ & _ & H), E as (_ & _ & E).
  unfold klt in *. lia.
Qed.

Lemma local_maximum_not_next (llik : list double) (i : Z) :
  local_maximum llik i -> ~ local_maximum llik (i + 1).
Proof.
  intros (li & lp & ln & Hi & _ & Hn & _ & H1) (li' & lp' & ln' & Hi' & Hp' & _ & H2 & _).
  replace (i + 1 - 1) with i in Hp' by lia.
  rewrite Hi in Hp'. rewrite Hn in Hi'. injection Hp' as <-. injection Hi' as <-.
  rewrite (dgt_asym _ _ H1) in H2. discriminate.
Qed.

Lemma local_maximum_not_nan (llik : list double) (i q : Z) :
  local_maximum llik i -> i - 1 <= q <= i + 1 ->
  exists v, rd llik q = Done v /\ is_nan v = false.
Proof.
  intros (li & lp & ln & Hi & Hp & Hn & H1 & H2) Hq.
  change (dlt lp li = true) in H1. change (dlt ln li = true) in H2.
  apply dlt_not_nan in H1, H2.
  assert (Hc : q = i - 1 \/ q = i \/ q = i + 1) by lia.
  destruct Hc as [-> | [-> | ->]]; eexists; split; eauto; tauto.
Qed.

(** ** From the breakpoints back to the candidates *)

Lemma chained_members (llik : list double) (n j : Z) (bps : list Z)
  (v : double) :
  chained llik n j bps v ->
  forall b, In b bps ->
    2 <= b /\ exists j', b + 3 <= j' <= j /\ scored llik n (b + 1) j'.
Proof.
  induction 1 as [j v Hv Hnan | i j bps o l Hi Hc IH Hl Hnan]; intros b Hb;
    [contradiction | ].
  destruct Hb as [<- | Hb].
  - split; [lia | ]. exists j. split; [lia | ].
    replace (i - 1 + 1) with i by lia. exists l. auto.
  - destruct (IH b Hb) as (H2 & j' & Hj' & Hs'). split; [exact H2 | ].
    exists j'. split; [lia | exact Hs'].
Qed.

Lemma existsb_eqb_In (p : Z) (l : list Z) :
  existsb (Z.eqb p) l = true -> In p l.
Proof.
  intros H. apply existsb_exists in H. destruct H as (x & Hx & E).
  apply Z.eqb_eq in E. now subst.
Qed.

(** ** A NaN in the data of a fit *)

Lemma dsub_nan_r (x : double) : (x - NAN)%D = NAN.
Proof. destruct x as [[|]|[|]| |[|] m e]; reflexivity. Qed.

Lemma dmul_nan_l (x : double) : (NAN * x)%D = NAN.
Proof. destruct x as [[|]|[|]| |[|] m e]; reflexivity. Qed.

Lemma dmul_nan_r (x : double) : (x * NAN)%D = NAN.
Proof. destruct x as [[|]|[|]| |[|] m e]; reflexivity. Qed.

Lemma ddiv_nan_l (x : double) : (NAN / x)%D = NAN.
Proof. destruct x as [[|]|[|]| |[|] m e]; reflexivity. Qed.

Lemma dadd_nan_l (x : double) : (NAN + x)%D = NAN.
Proof. apply dadd_is_nan. left. reflexivity. Qed.

Lemma dadd_nan_r (x : double) : (x + NAN)%D = NAN.
Proof. apply dadd_is_nan. right. reflexivity. Qed.

Section FitterNan.
Variable exp : double -> double.
Variables (k d : list double) (n p : Z).
Hypothesis Hk : n <= len k.
Hypothesis Hd : n <= len d.
Hypothesis Hp : 0 <= p < n.
(** The count or the distance at the index [p] is NaN. *)
Hypothesis Hnan : rd k p = Done NAN \/ rd d p = Done NAN.

Lemma recompute_fg_nan (a da b db : double) :
  exists f g, recompute_fg exp k d n a da b db = Done (f, g) /\
              (f * f + g * g)%D = NAN.
Proof.
  unfold recompute_fg.
  destruct (for_loop_total
    (fun i (fg : double * double) =>
       p < i -> fst fg = NAN \/ snd fg = NAN) 0 n
    (fun i '(f, g) =>
       di <- rd d i ;;
       ki <- rd k i ;;
       let tmp := (exp (a + da + (b + db) * di) - ki)%D in
       Done ((f + tmp)%D, (g + tmp * di)%D)) (d0, d0))
    as ([f g] & Hrun & Hfg).
  - lia.
  - intros H. lia.
  - intros i [f g] Hi Hinv.
    destruct (rd_in_range d i) as (di & Hdi); [lia | ].
    destruct (rd_in_range k i) as (ki & Hki); [lia | ].
    rewrite Hdi, Hki. cbn [bind]. eexists. split; [reflexivity | ].
    cbn [fst snd]. intros Hlt.
    destruct (Z.eq_dec i p) as [-> | Hne].
    + destruct Hnan as [E | E].
      * rewrite Hki in E. injection E as ->. left.
        now rewrite dsub_nan_r, dadd_nan_r.
      * rewrite Hdi in E. injection E as ->. right.
        now rewrite dmul_nan_r, dadd_nan_r.
    + destruct (Hinv ltac:(lia)) as [E | E]; cbn [fst snd] in E; subst.
      * left. apply dadd_nan_l.
      * right. apply dadd_nan_l.
  - exists f, g. split; [exact Hrun | ].
    destruct (Hfg ltac:(lia)) as [E | E]; cbn [fst snd] in E; subst.
    + now rewrite dmul_nan_l, dadd_nan_l.
    + now rewrite dmul_nan_l, dadd_nan_r.
Qed.

Lemma loglik_nan (a b : double) : loglik exp k d n a b = Done NAN.
Proof.
  unfold loglik.
  destruct (for_loop_total
    (fun i (l : double) => p < i -> l = NAN) 0 n
    (fun i llik =>
       di <- rd d i ;;
       ki <- rd k i ;;
       Done (llik + (exp (a + b * di) + ki * (a + b * di)))%D) d0)
    as (l & Hrun & Hl).
  - lia.
  - intros H. lia.
  - intros i l Hi Hinv.
    destruct (rd_in_range d i) as (di & Hdi); [lia | ].
    destruct (rd_in_range k i) as (ki & Hki); [lia | ].
    rewrite Hdi, Hki. cbn [bind]. eexists. split; [reflexivity | ].
    intros Hlt. destruct (Z.eq_dec i p) as [-> | Hne].
    + destruct Hnan as [E | E].
      * rewrite Hki in E. injection E as ->.
        now rewrite dmul_nan_l, dadd_nan_r, dadd_nan_r.
      * rewrite Hdi in E. injection E as ->.
        now rewrite (dmul_nan_r b), (dadd_nan_r a), dmul_nan_r, dadd_nan_r,
          dadd_nan_r.
    + rewrite (Hinv ltac:(lia)). apply dadd_nan_l.
  - rewrite Hrun. f_equal. apply Hl. lia.
Qed.

Lemma ml_ab_nan (fuel : nat) (ab : double * double) :
  ml_ab exp fuel k d ab n = Done (NAN, ab).
Proof.
  unfold ml_ab.
  destruct (recompute_fg_nan (fst ab) d0 (snd ab) d0) as (f & g & Hfg & Hgrad).
  rewrite Hfg. cbn [bind].
  assert (Hnewton : newton exp fuel fuel k d n
                      (mkNewton (fst ab) (snd ab) d0 d0 f g)
                    = Done (mkNewton (fst ab) (snd ab) d0 d0 f g)).
  { destruct fuel; cbn [newton ns_f ns_g]; rewrite Hgrad, nan_not_gt;
      reflexivity. }
  rewrite Hnewton. cbn [bind ns_a ns_b]. rewrite loglik_nan. cbn [bind].
  now destruct ab.
Qed.

End FitterNan.

(** ** The filter reads cells that were never written *)

Lemma for_iter_safely_at {St : Type} (P : Z -> St -> Prop)
  (body : Z -> St -> result St) :
  forall (cnt : nat) (lo : Z) (s : St),
    P lo s ->
    (forall i t, lo <= i < lo + Z.of_nat cnt -> P i t ->
                 safely (body i t) (P (i + 1))) ->
    safely (for_iter cnt lo body s) (P (lo + Z.of_nat cnt)).
Proof.
  induction cnt as [|c IH]; intros lo s H0 Hstep; cbn [for_iter].
  - apply safely_Done. now replace (lo + Z.of_nat 0) with lo by lia.
  - apply (safely_bind _ _ (P (lo + 1))).
    + apply Hstep; [lia | exact H0].
    + intros x Hx.
      replace (lo + Z.of_nat (S c)) with (lo + 1 + Z.of_nat c) by lia.
      apply IH; [exact Hx | ]. intros i t Hi. apply Hstep. lia.
Qed.

Lemma for_loop_safely_at {St : Type} (P : Z -> St -> Prop) (lo hi : Z)
  (body : Z -> St -> result St) (s : St) :
  lo <= hi -> P lo s ->
  (forall i t, lo <= i < hi -> P i t -> safely (body i t) (P (i + 1))) ->
  safely (for_loop lo hi body s) (P hi).
Proof.
  intros Hle H0 Hstep. unfold for_loop.
  replace hi with (lo + Z.of_nat (Z.to_nat (hi - lo))) at 2 by lia.
  apply for_iter_safely_at; [exact H0 | ].
  intros i t Hi. apply Hstep. lia.
Qed.

Lemma break_in_blocks_keeps (mat : list double) (n i j : Z)
  (bs : blocks double) :
  0 <= i -> i <= j -> j < n -> len mat = n * n -> roomy n bs ->
  exists bs', break_in_blocks mat n i j bs = Done bs' /\ roomy n bs' /\
    forall b p, block_count b n i j <= p ->
                rd (buf b bs') p = rd (buf b bs) p.
Proof.
  intros Hi Hij Hj Hmat Hbs.
  destruct (break_in_blocks_segmented mat n i j bs Hi Hij Hj Hmat)
    as (bs' & Hrun & Hseg); [intros b; now apply roomy_count | ].
  exists bs'. split; [exact Hrun | ].
  split; [apply (segmented_roomy _ _ _ _ _ _ Hseg Hbs) | ].
  destruct Hseg as (_ & _ & Hfr & _). intros b p Hp. apply Hfr. lia.
Qed.

Section StaleCell.
Variable exp : double -> double.
Variable fuel : nat.
Variables (obs : list (list double)) (dis : list double) (n m : Z).
Hypothesis Hn : 7 <= n.
Hypothesis Hm : 1 <= m.
Hypothesis Hobs : obs_ok obs n m.
Hypothesis Hdis : len dis = n * n.

(** [3 * (n - 3)] is the index, in the top block of [k_blk], of the cell
    just after the values that the first backward segmentation writes. *)

Lemma forward_scan_keeps_cell (j : Z) (s : fit_state) :
  2 <= j < n -> fit_ok n n s -> rd (top (k_blk s)) (3 * (n - 3)) = Done NAN ->
  safely (forward_scan exp fuel obs dis n m j s)
         (fun t => fit_ok n n t /\ rd (top (k_blk t)) (3 * (n - 3)) = Done NAN).
Proof.
  intros Hj (Hd & Hkb & Hl) Hq. unfold forward_scan.
  apply (safely_bind _ _ (roomy n)).
  { apply break_in_blocks_safely; auto; lia. }
  intros db Hdb.
  assert (Hr : 0 <= j < len (f_llik s)) by lia.
  rewrite (wr_in_range _ _ _ Hr). cbn [bind].
  apply for_loop_safely.
  - split; [ | exact Hq]. split; [exact Hdb | ]. split; [exact Hkb | ].
    cbn [f_llik]. now rewrite len_upd.
  - intros k t Hk ((Hd' & Hkb' & Hl') & Hq').
    destruct (Hobs k Hk) as (mat & Hmat & Hlen). rewrite Hmat. cbn [bind].
    destruct (break_in_blocks_keeps mat n 0 j (k_blk t)) as (kb & Hrun & Hkb'' & Hfr);
      auto; try lia.
    rewrite Hrun. cbn [bind].
    pose proof (fun b => roomy_count n 0 j kb b ltac:(lia) ltac:(lia)
                  ltac:(lia) Hkb'') as Ck.
    pose proof (fun b => roomy_count n 0 j (d_blk t) b ltac:(lia) ltac:(lia)
                  ltac:(lia) Hd') as Cd.
    apply (safely_bind _ _ (fun _ => True)).
    { pose proof (Ck Tri) as C1. pose proof (Cd Tri) as C2.
      cbn [block_count] in C1, C2.
      replace ((j - 0) * (j - 0 + 1)) with (j * (j + 1)) in C1, C2 by lia.
      now apply ml_ab_safely. }
    intros [l1 p1] _.
    apply (safely_bind _ _ (fun _ => True)).
    { pose proof (Ck Bot) as C1. pose proof (Cd Bot) as C2.
      cbn [block_count] in C1, C2.
      replace (j - 0 + 1) with (j + 1) in C1, C2 by lia.
      now apply ml_ab_safely. }
    intros [l2 p2] _.
    assert (Hr' : 0 <= j < len (f_llik t)) by lia.
    destruct (rd_in_range _ _ Hr') as (cur & Hcur). rewrite Hcur. cbn [bind].
    rewrite (wr_in_range _ _ _ Hr'). cbn [bind].
    apply safely_Done. split.
    + split; [exact Hd' | ]. split; [exact Hkb'' | ].
      cbn [f_llik]. now rewrite len_upd.
    + cbn [k_blk]. rewrite <- Hq'. apply (Hfr Top).
      cbn [block_count]. lia.
Qed.

Lemma backward_scan_first (s : fit_state) :
  fit_ok n n s -> rd (top (k_blk s)) (3 * (n - 3)) = Done NAN ->
  safely (backward_scan exp fuel obs dis n m 3 s)
         (fun t => fit_ok n n t /\ rd (f_llik t) 2 = Done NAN).
Proof.
  intros (Hd & Hkb & Hl) Hq. unfold backward_scan.
  apply (safely_bind _ _ (roomy n)).
  { apply break_in_blocks_safely; auto; lia. }
  intros db Hdb.
  apply (safely_weaken _
           (fun t => fit_ok n n t /\ rd (top (k_blk t)) (3 * (n - 3)) = Done NAN /\
                     (1 <= m -> rd (f_llik t) 2 = Done NAN))).
  2: { intros t (H1 & _ & H3). split; [exact H1 | now apply H3]. }
  apply (for_loop_safely_at
           (fun k t => fit_ok n n t /\ rd (top (k_blk t)) (3 * (n - 3)) = Done NAN /\
                       (1 <= k -> rd (f_llik t) 2 = Done NAN))).
  - lia.
  - split; [ | split; [exact Hq | intros; lia]].
    split; [exact Hdb | ]. split; [exact Hkb | exact Hl].
  - intros k t Hk ((Hd' & Hkb' & Hl') & Hq' & _).
    destruct (Hobs k Hk) as (mat & Hmat & Hlen). rewrite Hmat. cbn [bind].
    destruct (break_in_blocks_keeps mat n 3 (n - 1) (k_blk t))
      as (kb & Hrun & Hkb'' & Hfr); auto; try lia.
    rewrite Hrun. cbn [bind].
    destruct (backward_lengths n 3 ltac:(lia)) as [B0 B1].
    assert (Hcell : rd (top kb) (3 * (n - 3)) = Done NAN).
    { rewrite <- Hq'. apply (Hfr Top). cbn [block_count]. lia. }
    rewrite (ml_ab_nan exp (top kb) (top (d_blk t)) (3 * (n - 3 + 1)) (3 * (n - 3))).
    2: { pose proof (Hkb'' Top). cbn [buf] in *. lia. }
    2: { pose proof (Hd' Top). cbn [buf] in *. lia. }
    2: { lia. }
    2: { left. exact Hcell. }
    cbn [bind].
    apply (safely_bind _ _ (fun _ => True)).
    { pose proof (Hkb'' Tri). pose proof (Hd' Tri).
      apply ml_ab_safely; cbn [buf] in *; lia. }
    intros [l1 p1] _.
    assert (Hr' : 0 <= 3 - 1 < len (f_llik t)) by lia.
    destruct (rd_in_range _ _ Hr') as (cur & Hcur). rewrite Hcur. cbn [bind].
    pose proof (wr_in_range (f_llik t) (3 - 1) (cur + (NAN / d2 + l1))%D Hr')
      as Hw.
    rewrite Hw. cbn [bind].
    apply safely_Done. split; [ | split].
    + split; [exact Hd' | ]. split; [exact Hkb'' | ].
      cbn [f_llik]. now rewrite len_upd.
    + exact Hcell.
    + intros _. cbn [f_llik].
      replace 2 with (3 - 1) by lia. rewrite (rd_wr_same _ _ _ _ Hw).
      now rewrite ddiv_nan_l, dadd_nan_l, dadd_nan_r.
Qed.

Lemma backward_scan_keeps_profile (j : Z) (s : fit_state) :
  4 <= j < n - 3 -> fit_ok n n s -> rd (f_llik s) 2 = Done NAN ->
  safely (backward_scan exp fuel obs dis n m j s)
         (fun t => fit_ok n n t /\ rd (f_llik t) 2 = Done NAN).
Proof.
  intros Hj Hs H2.
  pose proof (backward_scan_safely exp fuel obs n m Hobs dis j s Hdis
                ltac:(lia) Hs) as [Hsafe Hok].
  split; [exact Hsafe | ]. intros t Ht. split; [now apply Hok | ].
  unfold backward_scan in Ht. bind_inv Ht.
  apply (for_loop_inv (fun _ u => rd (f_llik u) 2 = Done NAN) 0 m) in Ht;
    auto; try lia.
  intros k u u' Hk Hu Hbody. binds Hbody. injection Hbody as <-.
  cbn [f_llik].
  match goal with
  | H : wr _ _ _ = Done _ |- _ => rewrite (rd_wr_other _ _ _ _ _ H) by lia
  end.
  exact Hu.
Qed.

Lemma single_break_profile_stale (kb db : blocks double)
  (garbage : list double) :
  roomy n kb -> roomy n db -> len garbage = n ->
  rd (top kb) (3 * (n - 3)) = Done NAN ->
  safely (single_break_profile exp fuel obs dis n m kb db garbage)
         (fun s => fit_ok n n s /\ rd (f_llik s) 2 = Done NAN).
Proof.
  intros Hkb Hdb Hg Hq. unfold single_break_profile.
  apply (safely_bind _ _
           (fun t => fit_ok n n t /\ rd (top (k_blk t)) (3 * (n - 3)) = Done NAN)).
  - apply for_loop_safely.
    + split; [ | exact Hq]. split; [exact Hdb | ]. split; [exact Hkb | exact Hg].
    + intros j t Hj [Ht Hq']. now apply forward_scan_keeps_cell.
  - intros s [Hs Hq']. rewrite for_loop_step by lia.
    apply (safely_bind _ _
             (fun t => fit_ok n n t /\ rd (f_llik t) 2 = Done NAN)).
    + now apply backward_scan_first.
    + intros t Ht. apply for_loop_safely; [exact Ht | ].
      intros j u Hj [Hu H2]. apply backward_scan_keeps_profile; auto; lia.
Qed.

End StaleCell.

(** ** The fit, the blocks and the candidates *)

(** X1.  [ml_ab] reads the first [n] elements of [k] and of [d] only: on
    sequences with the same first [n] elements it gives the same result, and
    when both sequences have at least [n] elements it makes no access
    outside them. *)
Theorem ml_ab_reads_first_n (exp : double -> double) (fuel : nat)
  (k k' d d' : list double) (ab : double * double) (n : Z) :
  same_prefix n k k' -> same_prefix n d d' ->
  ml_ab exp fuel k d ab n = ml_ab exp fuel k' d' ab n /\
  (n <= len k -> n <= len d -> ml_ab exp fuel k d ab n <> Fault).
Proof.
  intros Hk Hd. split; [now apply ml_ab_prefix | ].
  intros Lk Ld. now apply ml_ab_safe.
Qed.

Lemma ml_ab_reads_first_n_witness :
  ml_ab exp_c99 5 [of_int 5; of_int 3] [of_int 1; of_int 2] (d0, d0) 2
  = ml_ab exp_c99 5 [of_int 5; of_int 3; NAN] [of_int 1; of_int 2; of_int 7]
      (d0, d0) 2 /\
  (2 <= len [of_int 5; of_int 3] -> 2 <= len [of_int 1; of_int 2] ->
   ml_ab exp_c99 5 [of_int 5; of_int 3] [of_int 1; of_int 2] (d0, d0) 2
   <> Fault).
Proof.
  apply (ml_ab_reads_first_n exp_c99 5 [of_int 5; of_int 3]
           [of_int 5; of_int 3; NAN] [of_int 1; of_int 2]
           [of_int 1; of_int 2; of_int 7] (d0, d0) 2);
    intros i Hi; assert (E : i = 0 \/ i = 1) by lia;
    destruct E as [-> | ->]; reflexivity.
Defined.

(** X2.  [break_in_blocks] on buffers that have room for the counts: the
    entry at row [row] and column [col] of the segment goes to the position
    [i*(col-i) + row] of the top block when [row < i], to the position
    [(col-i)*(col-i-1)/2 + (row-i)] of the triangular block when
    [i <= row < col], and to the position [(n-j-1)*(col-i) + (row-j-1)] of
    the bottom block when [row > j]; every position below the count of a
    block holds such an entry; the positions from the count on keep what the
    buffers held before the call. *)
Theorem break_in_blocks_layout {A : Type} (mat : list A) (n i j : Z)
  (bs : blocks A) :
  0 <= i -> i <= j -> j < n -> len mat = n * n ->
  (forall b, block_count b n i j <= len (buf b bs)) ->
  exists bs', break_in_blocks mat n i j bs = Done bs' /\
    (forall row col, i <= col <= j ->
       (0 <= row < i ->
        rd (top bs') (i * (col - i) + row) = rd mat (row + col * n)) /\
       (i <= row < col ->
        rd (tri bs') (Z.quot ((col - i) * (col - i - 1)) 2 + (row - i))
        = rd mat (row + col * n)) /\
       (j < row < n ->
        rd (bot bs') ((n - j - 1) * (col - i) + (row - (j + 1)))
        = rd mat (row + col * n))) /\
    (forall b p, 0 <= p < block_count b n i j ->
       exists row col, in_block b n i j row col /\
                       rd (buf b bs') p = rd mat (row + col * n)) /\
    (forall b p, block_count b n i j <= p ->
       rd (buf b bs') p = rd (buf b bs) p) /\
    (forall b, len (buf b bs') = len (buf b bs)).
Proof.
  intros Hi Hij Hj Hmat Hcap.
  destruct (break_in_blocks_segmented mat n i j bs Hi Hij Hj Hmat Hcap)
    as (bs' & Hrun & Hin & Hsur & Hfr & Hlen).
  exists bs'. split; [exact Hrun | ]. split; [ | split; [ | split]].
  - intros row col Hcol. split; [ | split]; intros Hrow.
    + apply (Hin Top row col). split; [exact Hcol | exact Hrow].
    + apply (Hin Tri row col). split; [exact Hcol | exact Hrow].
    + apply (Hin Bot row col). split; [exact Hcol | exact Hrow].
  - intros b p Hp. destruct (Hsur b p Hp) as (row & col & Hrc & ->).
    exists row, col. split; [exact Hrc | ]. now apply Hin.
  - intros b p Hp. apply Hfr. lia.
  - exact Hlen.
Qed.

Lemma break_in_blocks_layout_witness :
  exists bs', break_in_blocks (iota 16) 4 1 2 (mkBlocks [0; 0] [0] [0; 0]) = Done bs' /\
    (forall row col, 1 <= col <= 2 ->
       (0 <= row < 1 ->
        rd (top bs') (1 * (col - 1) + row) = rd (iota 16) (row + col * 4)) /\
       (1 <= row < col ->
        rd (tri bs') (Z.quot ((col - 1) * (col - 1 - 1)) 2 + (row - 1))
        = rd (iota 16) (row + col * 4)) /\
       (2 < row < 4 ->
        rd (bot bs') ((4 - 2 - 1) * (col - 1) + (row - (2 + 1)))
        = rd (iota 16) (row + col * 4))) /\
    (forall b p, 0 <= p < block_count b 4 1 2 ->
       exists row col, in_block b 4 1 2 row col /\
                       rd (buf b bs') p = rd (iota 16) (row + col * 4)) /\
    (forall b p, block_count b 4 1 2 <= p ->
       rd (buf b bs') p = rd (buf b (mkBlocks [0; 0] [0] [0; 0])) p) /\
    (forall b, len (buf b bs') = len (buf b (mkBlocks [0; 0] [0] [0; 0]))).
Proof.
  apply (break_in_blocks_layout (iota 16) 4 1 2 (mkBlocks [0; 0] [0] [0; 0]));
    try lia; try reflexivity.
  intros [ | | ]; vm_compute; discriminate.
Defined.

(** X3.  When [break_in_blocks] segments the distance matrix of [tadbit],
    every value it puts in a block is a distance [|row - col|] between 1
    and [n-1]: no entry of the diagonal enters a block. *)
Theorem distance_blocks_off_diagonal (n i j : Z) (bs : blocks double) :
  0 <= i -> i <= j -> j < n ->
  (forall b, block_count b n i j <= len (buf b bs)) ->
  exists bs', break_in_blocks (distance_matrix n) n i j bs = Done bs' /\
    forall b p, 0 <= p < block_count b n i j ->
      exists delta, 1 <= delta <= n - 1 /\
                    rd (buf b bs') p = Done (of_int delta).
Proof.
  intros Hi Hij Hj Hcap.
  destruct (break_in_blocks_segmented (distance_matrix n) n i j bs Hi Hij Hj
              (len_distance_matrix n ltac:(lia)) Hcap)
    as (bs' & Hrun & Hin & Hsur & _).
  exists bs'. split; [exact Hrun | ]. intros b p Hp.
  destruct (Hsur b p Hp) as (row & col & Hrc & ->).
  destruct (Hin b row col Hrc) as [_ ->].
  assert (Hr : 0 <= row < n /\ 0 <= col < n /\ row <> col).
  { destruct Hrc as [Hc Hr]. destruct b; lia. }
  exists (Z.abs (row - col)). split; [lia | ].
  apply rd_distance_matrix; lia.
Qed.

Lemma distance_blocks_off_diagonal_witness :
  exists bs', break_in_blocks (distance_matrix 5) 5 1 3 (blocks_of 5 NAN)
              = Done bs' /\
    forall b p, 0 <= p < block_count b 5 1 3 ->
      exists delta, 1 <= delta <= 5 - 1 /\
                    rd (buf b bs') p = Done (of_int delta).
Proof.
  apply (distance_blocks_off_diagonal 5 1 3 (blocks_of 5 NAN)); try lia.
  intros [ | | ]; vm_compute; discriminate.
Defined.

(** X4.  The last step of [remove_non_local_maxima]: the mask it is given is
    overwritten (the result is the same for every incoming mask); two
    neighbours [i] and [i+1] between 3 and [n-2] are never both candidates;
    and the profile of a candidate between 3 and [n-2] is not NaN at the
    candidate and at its two neighbours. *)
Theorem candidates_isolated (n : Z) (llik : list double) (bkpts : list Z) :
  1 <= n -> len llik = n -> len bkpts = n ->
  exists bk, mark_local_maxima n llik bkpts = Done bk /\
    (forall bkpts', len bkpts' = n ->
       mark_local_maxima n llik bkpts' = Done bk) /\
    (forall i, 3 <= i -> i + 1 <= n - 2 ->
       rd bk i = Done 1 -> rd bk (i + 1) = Done 0) /\
    (forall i q, 3 <= i <= n - 2 -> rd bk i = Done 1 -> i - 1 <= q <= i + 1 ->
       exists v, rd llik q = Done v /\ is_nan v = false).
Proof.
  intros Hn Hl Hb.
  destruct (mark_local_maxima_Done n llik bkpts Hn Hl Hb)
    as (bk & Hrun & Hlen & Hlast & Hzero & Hmax).
  exists bk. split; [exact Hrun | ]. split; [ | split].
  - intros bkpts' Hb'.
    destruct (mark_local_maxima_Done n llik bkpts' Hn Hl Hb')
      as (bk' & Hrun' & Hlen' & Hlast' & Hzero' & Hmax').
    rewrite Hrun'. f_equal. apply rd_ext. intros p.
    destruct (Z_le_gt_dec 0 p) as [H0 | H0];
      [destruct (Z_lt_ge_dec p n) as [H1 | H1] | ];
      [ | rewrite !rd_outside by lia; reflexivity
        | rewrite !rd_outside by lia; reflexivity].
    destruct (Z.eq_dec p (n - 1)) as [-> | Hne]; [congruence | ].
    destruct (Z_lt_ge_dec p 3) as [H3 | H3].
    + rewrite Hzero, Hzero' by lia. reflexivity.
    + destruct (Hmax p ltac:(lia)) as [[M R] | [M R]],
               (Hmax' p ltac:(lia)) as [[M' R'] | [M' R']];
        try contradiction; congruence.
  - intros i Hi Hi' H1.
    destruct (Hmax i ltac:(lia)) as [[M _] | [_ R]]; [ | congruence].
    destruct (Hmax (i + 1) ltac:(lia)) as [[M' _] | [_ R']]; [ | exact R'].
    exfalso. exact (local_maximum_not_next llik i M M').
  - intros i q Hi H1 Hq.
    destruct (Hmax i ltac:(lia)) as [[M _] | [_ R]]; [ | congruence].
    now apply (local_maximum_not_nan llik i q).
Qed.

Lemma candidates_isolated_witness :
  exists bk, mark_local_maxima 7
               [d0; d0; d0; of_int 2; of_int 1; of_int 3; d0] (repeat 1 7)
             = Done bk /\
    (forall bkpts', len bkpts' = 7 ->
       mark_local_maxima 7 [d0; d0; d0; of_int 2; of_int 1; of_int 3; d0]
         bkpts' = Done bk) /\
    (forall i, 3 <= i -> i + 1 <= 7 - 2 ->
       rd bk i = Done 1 -> rd bk (i + 1) = Done 0) /\
    (forall i q, 3 <= i <= 7 - 2 -> rd bk i = Done 1 -> i - 1 <= q <= i + 1 ->
       exists v, rd [d0; d0; d0; of_int 2; of_int 1; of_int 3; d0] q = Done v
                 /\ is_nan v = false).
Proof.
  apply (candidates_isolated 7
           [d0; d0; d0; of_int 2; of_int 1; of_int 3; d0] (repeat 1 7));
    [lia | reflexivity | reflexivity].
Defined.

(** ** The breakpoints and the memory of [tadbit] *)

(** X5.  The breakpoints that [get_breakpoints] returns lie between the
    indices 2 and [n-4], and two of them are at least 3 indices apart: a
    matrix of fewer than 6 bins gets none. *)
Theorem breakpoints_three_apart (llik : list double) (n : Z) (fuel : nat)
  (garbage : list double) :
  1 <= n -> len llik = n * n -> len garbage = n -> n + 5 <= Z.of_nat fuel ->
  exists out, get_breakpoints fuel llik n garbage = Done out /\
    (forall p, rd out p = Done 1 -> 2 <= p <= n - 4) /\
    (forall p q, p < q -> rd out p = Done 1 -> rd out q = Done 1 ->
                 p + 3 <= q).
Proof.
  intros Hn Hl Hg Hfuel.
  destruct (get_breakpoints_Done llik n Hn Hl fuel garbage Hg Hfuel)
    as (out & Hrun & _).
  exists out. split; [exact Hrun | ].
  apply (get_breakpoints_spaced llik n Hn Hl fuel garbage out Hg Hrun).
Qed.

Lemma breakpoints_three_apart_witness :
  exists out, get_breakpoints 14 llik_example 9 (repeat NAN 9) = Done out /\
    (forall p, rd out p = Done 1 -> 2 <= p <= 9 - 4) /\
    (forall p q, p < q -> rd out p = Done 1 -> rd out q = Done 1 ->
                 p + 3 <= q).
Proof.
  apply (breakpoints_three_apart llik_example 9 14 (repeat NAN 9));
    [lia | reflexivity | reflexivity | vm_compute; discriminate].
Defined.

(** X6.  The array that [get_breakpoints] returns marks a list of
    breakpoints [b1 < ... < bk]; when the list is not empty, the segments
    [0..b1], [b1+1..b2], ..., [bk+1..n-1] have at least three bins each, the
    entry of each of them in the likelihood matrix is not NaN, and the sum
    of these entries is greater than the entry [(0, n-1)], the score of the
    matrix without breakpoint. *)
Theorem breakpoints_cut_scored_segments (llik : list double) (n : Z)
  (fuel : nat) (garbage : list double) :
  1 <= n -> len llik = n * n -> len garbage = n -> n + 5 <= Z.of_nat fuel ->
  exists out bps, get_breakpoints fuel llik n garbage = Done out /\
    (forall p, 0 <= p < n ->
       rd out p = Done (if existsb (Z.eqb p) bps then 1 else 0)) /\
    (bps = [] \/
     exists base v, rd llik ((n - 1) * n) = Done base /\
                    chained llik n (n - 1) bps v /\ (v >? base)%D = true).
Proof.
  intros Hn Hl Hg Hfuel.
  destruct (get_breakpoints_Done llik n Hn Hl fuel garbage Hg Hfuel)
    as (out & Hrun & _).
  destruct (get_breakpoints_traced llik n Hn Hl fuel garbage out Hg Hrun)
    as (bps & Hm & Hc).
  exists out, bps. auto.
Qed.

Lemma breakpoints_cut_scored_segments_witness :
  exists out bps, get_breakpoints 14 llik_example 9 (repeat NAN 9) = Done out /\
    (forall p, 0 <= p < 9 ->
       rd out p = Done (if existsb (Z.eqb p) bps then 1 else 0)) /\
    (bps = [] \/
     exists base v, rd llik_example ((9 - 1) * 9) = Done base /\
                    chained llik_example 9 (9 - 1) bps v /\
                    (v >? base)%D = true).
Proof.
  apply (breakpoints_cut_scored_segments llik_example 9 14 (repeat NAN 9));
    [lia | reflexivity | reflexivity | vm_compute; discriminate].
Defined.

(** X7.  The result of [get_breakpoints] depends on the entries [(i, j)]
    with [j >= i + 2] of the likelihood matrix only, and not on the content
    of [new_llik] at its declaration: two matrices with the same such
    entries give the same result, whatever the two arrays [new_llik]
    hold. *)
Theorem get_breakpoints_reads_upper_entries (llik llik' : list double)
  (n : Z) (fuel : nat) (garbage garbage' : list double) :
  1 <= n -> same_upper n llik llik' ->
  len garbage = n -> len garbage' = n -> n + 5 <= Z.of_nat fuel ->
  get_breakpoints fuel llik n garbage = get_breakpoints fuel llik' n garbage'.
Proof.
  intros Hn Hsame Hg Hg' Hfuel.
  destruct (Z_le_gt_dec 6 n) as [H6 | H6].
  - now apply get_breakpoints_sim.
  - destruct Hsame as (Hl & Hl' & _).
    rewrite (get_breakpoints_small llik n fuel garbage) by (auto; lia).
    rewrite (get_breakpoints_small llik' n fuel garbage') by (auto; lia).
    reflexivity.
Qed.

Lemma get_breakpoints_reads_upper_entries_witness :
  get_breakpoints 8 [NAN; NAN; NAN; NAN; NAN; NAN; d1; NAN; NAN] 3
    [NAN; NAN; NAN]
  = get_breakpoints 8 [d0; d1; d0; d1; d0; d1; d1; d0; d1] 3 [d0; d1; d0].
Proof.
  apply (get_breakpoints_reads_upper_entries
           [NAN; NAN; NAN; NAN; NAN; NAN; d1; NAN; NAN]
           [d0; d1; d0; d1; d0; d1; d1; d0; d1] 3 8
           [NAN; NAN; NAN] [d0; d1; d0]);
    [lia | | reflexivity | reflexivity | vm_compute; discriminate].
  split; [reflexivity | ]. split; [reflexivity | ].
  intros i j Hi Hj. assert (E : i = 0 /\ j = 2) by lia.
  destruct E as [-> ->]. reflexivity.
Defined.

(** X8.  [tadbit] makes no access outside an array: on [m] matrices of
    [n * n] entries, with the buffers of the capacities it allocates, it
    never faults, with [fast] on or off; the array it returns has [n]
    cells. *)
Theorem tadbit_in_bounds (exp : double -> double) (fuel : nat)
  (obs : list (list double)) (n m fast : Z) (kb db : blocks double)
  (garbage_profile garbage_new : list double) :
  1 <= n -> obs_ok obs n m -> roomy n kb -> roomy n db ->
  len garbage_profile = n -> len garbage_new = n ->
  tadbit exp fuel obs n m fast kb db garbage_profile garbage_new <> Fault /\
  forall out,
    tadbit exp fuel obs n m fast kb db garbage_profile garbage_new = Done out ->
    len out = n.
Proof.
  intros Hn Hobs Hkb Hdb Hgp Hgn.
  change (safely (tadbit exp fuel obs n m fast kb db garbage_profile
                    garbage_new) (fun out => len out = n)).
  unfold tadbit.
  pose proof (len_distance_matrix n ltac:(lia)) as Hdis.
  apply (safely_bind _ _
           (fun '(mask, kb', db') => len mask = n /\ roomy n kb' /\ roomy n db')).
  { now apply candidate_mask_safely. }
  intros [[mask kb'] db'] (Hmask & Hkb' & Hdb').
  apply (safely_bind _ _ (fit_ok n (n * n))).
  { apply likelihood_matrix_safely; auto.
    split; [exact Hdb' | ]. split; [exact Hkb' | ].
    cbn [f_llik]. rewrite len_repeat; nia. }
  intros s (_ & _ & Hl).
  now apply get_breakpoints_safely.
Qed.

Lemma obs_ok_one (mat : list double) (n : Z) :
  len mat = n * n -> obs_ok [mat] n 1.
Proof.
  intros H k Hk. assert (k = 0) by lia. subst k. exists mat.
  split; [reflexivity | exact H].
Qed.

Lemma roomy_blocks_of (n : Z) (v : double) : 0 <= n -> roomy n (blocks_of n v).
Proof.
  intros Hn b. unfold blocks_of.
  assert (H : 0 <= block_capacity b n)
    by (destruct b; cbn [block_capacity]; apply Z.quot_pos; nia).
  destruct b; cbn [buf top tri bot]; rewrite len_repeat; lia.
Qed.

Lemma tadbit_in_bounds_witness :
  tadbit exp_c99 100 [two_domains 8 4] 8 1 1 (blocks_of 8 d0) (blocks_of 8 d0)
    (repeat NAN 8) (repeat NAN 8) <> Fault /\
  exists out,
    tadbit exp_c99 100 [two_domains 8 4] 8 1 1 (blocks_of 8 d0)
      (blocks_of 8 d0) (repeat NAN 8) (repeat NAN 8) = Done out /\
    out = [0; 0; 0; 1; 0; 0; 0; 0] /\
    len out = 8.
Proof.
  destruct (tadbit_in_bounds exp_c99 100 [two_domains 8 4] 8 1 1
              (blocks_of 8 d0) (blocks_of 8 d0) (repeat NAN 8) (repeat NAN 8))
    as [Hsafe Hlen];
    [lia | apply obs_ok_one; reflexivity | apply roomy_blocks_of; lia
     | apply roomy_blocks_of; lia | reflexivity | reflexivity | ].
  split; [exact Hsafe | ].
  exists [0; 0; 0; 1; 0; 0; 0; 0].
  split; [exact fast_mode_tadbit | ]. split; [reflexivity | ].
  apply Hlen. exact fast_mode_tadbit.
Defined.

(** X9.  With [fast] off, the result of [tadbit] does not depend on what
    the memory it allocates holds: the block buffers and the arrays [llik]
    of the filter and [new_llik] of [get_breakpoints] may hold anything. *)
Theorem tadbit_ignores_uninitialised_memory (exp : double -> double)
  (fuel : nat) (obs : list (list double)) (n m : Z)
  (kb db kb' db' : blocks double) (gp gp' gn gn' : list double) :
  1 <= n -> obs_ok obs n m ->
  roomy n kb -> roomy n db -> roomy n kb' -> roomy n db' ->
  len gn = n -> len gn' = n -> n + 5 <= Z.of_nat fuel ->
  tadbit exp fuel obs n m 0 kb db gp gn
  = tadbit exp fuel obs n m 0 kb' db' gp' gn'.
Proof.
  intros Hn Hobs Hkb Hdb Hkb' Hdb' Hg Hg' Hfuel.
  rewrite (tadbit_ignores_buffer_contents exp fuel obs n m kb db kb' db'
             gp gp' gn) by (auto; lia).
  unfold tadbit, candidate_mask. cbn [Z.eqb bind].
  pose proof (likelihood_matrix_safely exp fuel obs n m Hobs
                (distance_matrix n) (repeat 1 (Z.to_nat n))
                (mkFit db' kb' (d0, d0) (d0, d0) (d0, d0)
                   (repeat NAN (Z.to_nat (n * n))))
                (len_distance_matrix n ltac:(lia))) as [_ Hs].
  { rewrite len_repeat. lia. }
  { split; [exact Hdb' | ]. split; [exact Hkb' | ].
    cbn [f_llik]. rewrite len_repeat. nia. }
  destruct (likelihood_matrix exp fuel obs (distance_matrix n) n m _ _)
    as [s| |]; cbn [bind]; try reflexivity.
  destruct (Hs s eq_refl) as (_ & _ & Hl).
  destruct (Z_le_gt_dec 6 n) as [H6 | H6].
  - apply get_breakpoints_sim; auto.
    split; [exact Hl | ]. split; [exact Hl | reflexivity].
  - rewrite (get_breakpoints_small (f_llik s) n fuel gn) by (auto; lia).
    rewrite (get_breakpoints_small (f_llik s) n fuel gn') by (auto; lia).
    reflexivity.
Qed.

Lemma tadbit_ignores_uninitialised_memory_witness :
  tadbit exp_c99 11 [two_domains 6 3] 6 1 0 (blocks_of 6 NAN)
    (blocks_of 6 NAN) (repeat NAN 6) (repeat NAN 6)
  = tadbit exp_c99 11 [two_domains 6 3] 6 1 0 (blocks_of 6 d1)
      (blocks_of 6 INFINITY) (repeat d0 6) (repeat d1 6).
Proof.
  apply (tadbit_ignores_uninitialised_memory exp_c99 11 [two_domains 6 3] 6 1
           (blocks_of 6 NAN) (blocks_of 6 NAN) (blocks_of 6 d1)
           (blocks_of 6 INFINITY) (repeat NAN 6) (repeat d0 6)
           (repeat NAN 6) (repeat d1 6));
    [lia | apply obs_ok_one; reflexivity | apply roomy_blocks_of; lia
     | apply roomy_blocks_of; lia | apply roomy_blocks_of; lia
     | apply roomy_blocks_of; lia | reflexivity | reflexivity
     | vm_compute; discriminate].
Defined.

(** X10.  Every breakpoint that [tadbit] returns is a candidate of the
    mask: its entry in [bkpts] is 1.  With [fast] on, every breakpoint
    returned lies between the indices 3 and [n-4] and is a strict local
    maximum of the likelihood profile of the filter. *)
Theorem tadbit_breakpoints_are_candidates (exp : double -> double)
  (fuel : nat) (obs : list (list double)) (n m fast : Z)
  (kb db : blocks double) (gp gn : list double) (out : list Z) :
  1 <= n -> len gp = n -> len gn = n ->
  tadbit exp fuel obs n m fast kb db gp gn = Done out ->
  exists mask kb' db',
    candidate_mask exp fuel obs (distance_matrix n) n m fast kb db gp
    = Done (mask, kb', db') /\
    (forall p, rd out p = Done 1 -> rd mask p = Done 1) /\
    (fast <> 0 ->
     exists s,
       single_break_profile exp fuel obs (distance_matrix n) n m kb db gp
       = Done s /\
       forall p, rd out p = Done 1 ->
                 3 <= p <= n - 4 /\ local_maximum (f_llik s) p).
Proof.
  intros Hn Hgp Hgn Hrun. unfold tadbit in Hrun. bind_inv Hrun.
  destruct x as [[mask kb'] db']. bind_inv Hrun.
  rename x into s, Hx into Hmask, Hx0 into Hmat.
  exists mask, kb', db'. split; [exact Hmask | ].
  pose proof (likelihood_matrix_state exp fuel obs (distance_matrix n) n m
                mask (mkFit db' kb' (d0, d0) (d0, d0) (d0, d0)
                        (repeat NAN (Z.to_nat (n * n)))) s
                ltac:(lia) eq_refl Hmat) as [Hlen Hst].
  destruct (get_breakpoints_traced (f_llik s) n Hn Hlen fuel gn out Hgn Hrun)
    as (bps & Hm & Hc).
  pose proof (get_breakpoints_safely (f_llik s) n Hn Hlen fuel gn Hgn)
    as [_ Hlo]. specialize (Hlo out Hrun).
  assert (Hcand : forall p, rd out p = Done 1 ->
            2 <= p <= n - 4 /\ rd mask p = Done 1).
  { intros p Hp. pose proof (rd_range _ _ _ Hp) as Hr. rewrite Hlo in Hr.
    rewrite (Hm p Hr) in Hp.
    destruct (existsb (Z.eqb p) bps) eqn:E; [ | discriminate].
    apply existsb_eqb_In in E.
    destruct Hc as [-> | (base & w & _ & Hc & _)]; [contradiction | ].
    destruct (chained_members _ _ _ _ _ Hc p E)
      as (H2 & j' & Hj' & v & Hv & Hnan).
    split; [lia | ].
    destruct (Hst (p + 1) j' ltac:(lia) ltac:(lia)) as [[Hd _] | [_ Hv']].
    - destruct Hd as (_ & _ & [E0 | E1] & _); [lia | ].
      now replace (p + 1 - 1) with p in E1 by lia.
    - rewrite Hv in Hv'. injection Hv' as ->. discriminate. }
  split; [intros p Hp; now apply Hcand | ].
  intros Hfast. unfold candidate_mask in Hmask.
  destruct (Z.eqb_spec fast 0) as [E | _]; [contradiction | ].
  unfold remove_non_local_maxima in Hmask. bind_inv Hmask. bind_inv Hmask.
  injection Hmask as <- <- <-. rename x into s1, Hx into Hprof.
  exists s1. split; [exact Hprof | ].
  pose proof (single_break_profile_len exp fuel _ _ _ _ _ _ _ _ Hprof) as Hl1.
  destruct (mark_local_maxima_Done n (f_llik s1) (repeat 1 (Z.to_nat n)))
    as (bk & Hbk & _ & _ & Hzero & Hmax); try lia.
  { rewrite len_repeat. lia. }
  rewrite Hbk in Hx0. injection Hx0 as <-.
  intros p Hp. destruct (Hcand p Hp) as [Hr H1].
  destruct (Z_lt_ge_dec p 3) as [H3 | H3].
  - rewrite Hzero in H1 by lia. discriminate.
  - split; [lia | ].
    destruct (Hmax p ltac:(lia)) as [[M _] | [_ R]]; [exact M | congruence].
Qed.

Lemma tadbit_breakpoints_are_candidates_witness :
  exists mask kb' db',
    candidate_mask exp_c99 100 [two_domains 8 4] (distance_matrix 8) 8 1 1
      (blocks_of 8 d0) (blocks_of 8 d0) (repeat NAN 8)
    = Done (mask, kb', db') /\
    (forall p, rd [0; 0; 0; 1; 0; 0; 0; 0] p = Done 1 -> rd mask p = Done 1) /\
    (1 <> 0 ->
     exists s,
       single_break_profile exp_c99 100 [two_domains 8 4] (distance_matrix 8)
         8 1 (blocks_of 8 d0) (blocks_of 8 d0) (repeat NAN 8) = Done s /\
       forall p, rd [0; 0; 0; 1; 0; 0; 0; 0] p = Done 1 ->
                 3 <= p <= 8 - 4 /\ local_maximum (f_llik s) p).
Proof.
  apply (tadbit_breakpoints_are_candidates exp_c99 100 [two_domains 8 4] 8 1 1
           (blocks_of 8 d0) (blocks_of 8 d0) (repeat NAN 8) (repeat NAN 8)
           [0; 0; 0; 1; 0; 0; 0; 0]);
    [lia | reflexivity | reflexivity | exact fast_mode_tadbit].
Defined.

(** ** NaN in the data and in the memory *)

(** X12.  When one of the first [n] counts or one of the first [n]
    distances is NaN, [ml_ab] returns NaN and leaves the parameters as they
    were, for every function [exp]: the test of the Newton-Raphson loop is
    false at once, so that no iteration is made. *)
Theorem ml_ab_nan_data (exp : double -> double) (fuel : nat)
  (k d : list double) (ab : double * double) (n p : Z) :
  n <= len k -> n <= len d -> 0 <= p < n ->
  rd k p = Done NAN \/ rd d p = Done NAN ->
  ml_ab exp fuel k d ab n = Done (NAN, ab) /\
  ml_ab exp 0 k d ab n = Done (NAN, ab).
Proof.
  intros Hk Hd Hp Hnan. split; now apply (ml_ab_nan exp k d n p).
Qed.

Lemma ml_ab_nan_data_witness :
  ml_ab exp_c99 7 [of_int 5; NAN; of_int 2] [of_int 1; of_int 2; of_int 3]
    (d1, d0) 3 = Done (NAN, (d1, d0)) /\
  ml_ab exp_c99 0 [of_int 5; NAN; of_int 2] [of_int 1; of_int 2; of_int 3]
    (d1, d0) 3 = Done (NAN, (d1, d0)).
Proof.
  apply (ml_ab_nan_data exp_c99 7 [of_int 5; NAN; of_int 2]
           [of_int 1; of_int 2; of_int 3] (d1, d0) 3 1);
    [vm_compute; discriminate | vm_compute; discriminate | lia
     | left; reflexivity].
Defined.

(** X13.  With [fast] on, the filter passes to [ml_ab] cells of the buffer
    [k_blk[0]] that nothing has written: for [n >= 7] and at least one
    replicate, if the cell [3*(n-3)] of this buffer holds a NaN when
    [malloc] returns it, the entry 2 of the likelihood profile is NaN and
    the index 3 is not a candidate, whatever the matrices hold. *)
Theorem filter_reads_unwritten_cell (exp : double -> double) (fuel : nat)
  (obs : list (list double)) (n m fast : Z) (kb db : blocks double)
  (garbage : list double) :
  7 <= n -> 1 <= m -> obs_ok obs n m -> roomy n kb -> roomy n db ->
  len garbage = n -> fast <> 0 ->
  rd (top kb) (3 * (n - 3)) = Done NAN ->
  candidate_mask exp fuel obs (distance_matrix n) n m fast kb db garbage
  <> Fault /\
  forall mask kb' db',
    candidate_mask exp fuel obs (distance_matrix n) n m fast kb db garbage
    = Done (mask, kb', db') ->
    rd mask 3 = Done 0 /\
    exists s,
      single_break_profile exp fuel obs (distance_matrix n) n m kb db garbage
      = Done s /\ rd (f_llik s) 2 = Done NAN.
Proof.
  intros Hn Hm Hobs Hkb Hdb Hg Hfast Hcell.
  pose proof (single_break_profile_stale exp fuel obs (distance_matrix n) n m
                Hn Hm Hobs (len_distance_matrix n ltac:(lia)) kb db garbage
                Hkb Hdb Hg Hcell) as [Hsafe Hprof].
  unfold candidate_mask.
  destruct (Z.eqb_spec fast 0) as [E | _]; [contradiction | ].
  unfold remove_non_local_maxima.
  destruct (single_break_profile exp fuel obs (distance_matrix n) n m kb db
              garbage) as [s| |]; cbn [bind]; try congruence.
  - destruct (Hprof s eq_refl) as ((_ & _ & Hl) & H2).
    destruct (mark_local_maxima_Done n (f_llik s) (repeat 1 (Z.to_nat n)))
      as (bk & Hbk & _ & _ & _ & Hmax); try lia.
    { rewrite len_repeat. lia. }
    rewrite Hbk. cbn [bind]. split; [discriminate | ].
    intros mask kb' db' [= <- _ _].
    split; [ | exists s; auto].
    destruct (Hmax 3 ltac:(lia)) as [[M _] | [_ R]]; [ | exact R].
    exfalso. destruct M as (li & lp & ln & _ & Hp & _ & H1 & _).
    replace (3 - 1) with 2 in Hp by lia. rewrite H2 in Hp.
    injection Hp as <-. change (dlt NAN li = true) in H1.
    apply dlt_not_nan in H1. destruct H1 as [H1 _]. discriminate.
  - split; [discriminate | discriminate].
Qed.

Lemma filter_reads_unwritten_cell_witness :
  candidate_mask (fun _ => d1) 0 [ones 7] (distance_matrix 7) 7 1 1
    (blocks_of 7 NAN) (blocks_of 7 d0) (repeat NAN 7) <> Fault /\
  forall mask kb' db',
    candidate_mask (fun _ => d1) 0 [ones 7] (distance_matrix 7) 7 1 1
      (blocks_of 7 NAN) (blocks_of 7 d0) (repeat NAN 7)
    = Done (mask, kb', db') ->
    rd mask 3 = Done 0 /\
    exists s,
      single_break_profile (fun _ => d1) 0 [ones 7] (distance_matrix 7) 7 1
        (blocks_of 7 NAN) (blocks_of 7 d0) (repeat NAN 7)
      = Done s /\ rd (f_llik s) 2 = Done NAN.
Proof.
  apply (filter_reads_unwritten_cell (fun _ => d1) 0 [ones 7] 7 1 1
           (blocks_of 7 NAN) (blocks_of 7 d0) (repeat NAN 7));
    [lia | lia | apply obs_ok_one; reflexivity | apply roomy_blocks_of; lia
     | apply roomy_blocks_of; lia | reflexivity | lia | reflexivity].
Defined.

(** The run of the witness returns: with an [exp] that is constantly 1 and
    counts that are all 1, every fit of the forward scan ends at once. *)
Example filter_run_returns :
  match candidate_mask (fun _ => d1) 0 [ones 7] (distance_matrix 7) 7 1 1
          (blocks_of 7 NAN) (blocks_of 7 d0) (repeat NAN 7) with
  | Done (mask, _, _) => mask
  | _ => []
  end = [0; 0; 0; 0; 0; 0; 1].
Proof. vm_compute. reflexivity. Qed.

(** ** The diagonal of the matrices *)

Lemma copy_rows_off_diagonal {M : Type}
  (store : blk -> Z -> double -> M -> result M) (mat mat' : list double)
  (n col : Z) (b : blk) (lo hi : Z) (s : seg M) :
  same_off_diagonal n mat mat' ->
  0 <= col < n -> 0 <= lo -> hi <= n -> (hi <= col \/ col < lo) ->
  copy_rows store mat n col b lo hi s = copy_rows store mat' n col b lo hi s.
Proof.
  intros Hsame Hcol Hlo Hhi Hoff. unfold copy_rows.
  apply for_loop_ext_range. intros row t Hrow.
  rewrite (Hsame row col) by lia. reflexivity.
Qed.

Lemma break_in_blocks_off_diagonal (mat mat' : list double) (n i j : Z)
  (bs : blocks double) :
  same_off_diagonal n mat mat' -> 0 <= i -> j < n ->
  break_in_blocks mat n i j bs = break_in_blocks mat' n i j bs.
Proof.
  intros Hsame Hi Hj. unfold break_in_blocks, break_in_blocks_with.
  f_equal. apply for_loop_ext_range. intros col t Hcol.
  rewrite (copy_rows_off_diagonal store_buf mat mat' n col Top 0 i t)
    by (auto; lia).
  destruct (copy_rows store_buf mat' n col Top 0 i t) as [t1| |];
    cbn [bind]; auto.
  rewrite (copy_rows_off_diagonal store_buf mat mat' n col Tri i col t1)
    by (auto; lia).
  destruct (copy_rows store_buf mat' n col Tri i col t1) as [t2| |];
    cbn [bind]; auto.
  apply copy_rows_off_diagonal; auto; lia.
Qed.

Section Diagonal.
Variable exp : double -> double.
Variable fuel : nat.
Variables (obs obs' : list (list double)) (n m : Z).
Hypothesis Hobs : same_replicates obs obs' n m.

Lemma llik_replicate_diagonal (i j k : Z) (s : fit_state) :
  0 <= i -> j < n -> 0 <= k < m ->
  llik_replicate exp fuel obs n i j k s
  = llik_replicate exp fuel obs' n i j k s.
Proof.
  intros Hi Hj Hk. unfold llik_replicate.
  destruct (Hobs k Hk) as (mat & mat' & -> & -> & Hsame). cbn [bind].
  now rewrite (break_in_blocks_off_diagonal mat mat' n i j (k_blk s) Hsame).
Qed.

Lemma llik_cell_diagonal (dis : list double) (i j : Z) (s : fit_state) :
  0 <= i -> j < n ->
  llik_cell exp fuel obs dis n m i j s = llik_cell exp fuel obs' dis n m i j s.
Proof.
  intros Hi Hj. unfold llik_cell.
  destruct (break_in_blocks dis n i j (d_blk s)) as [db| |]; cbn [bind]; auto.
  destruct (wr (f_llik s) (i + j * n) d0) as [ll| |]; cbn [bind]; auto.
  apply for_loop_ext_range. intros k t Hk.
  now apply llik_replicate_diagonal.
Qed.

Lemma likelihood_matrix_diagonal (dis : list double) (bkpts : list Z)
  (s : fit_state) :
  likelihood_matrix exp fuel obs dis n m bkpts s
  = likelihood_matrix exp fuel obs' dis n m bkpts s.
Proof.
  unfold likelihood_matrix. apply for_loop_ext_range. intros i t Hi.
  unfold llik_row.
  destruct (if 0 <? i then b <- rd bkpts (i - 1) ;; Done (negb (b =? 1))
            else Done false) as [[ | ]| |]; cbn [bind]; auto.
  apply for_loop_ext_range. intros j u Hj.
  destruct (rd bkpts j) as [x| |]; cbn [bind]; auto.
  destruct (negb (x =? 1)); auto.
  apply llik_cell_diagonal; lia.
Qed.

Lemma forward_scan_diagonal (dis : list double) (j : Z) (s : fit_state) :
  j < n ->
  forward_scan exp fuel obs dis n m j s
  = forward_scan exp fuel obs' dis n m j s.
Proof.
  intros Hj. unfold forward_scan.
  destruct (break_in_blocks dis n 0 j (d_blk s)) as [db| |]; cbn [bind]; auto.
  destruct (wr (f_llik s) j d0) as [ll| |]; cbn [bind]; auto.
  apply for_loop_ext_range. intros k t Hk.
  destruct (Hobs k Hk) as (mat & mat' & -> & -> & Hsame). cbn [bind].
  now rewrite (break_in_blocks_off_diagonal mat mat' n 0 j (k_blk t) Hsame)
    by lia.
Qed.

Lemma backward_scan_diagonal (dis : list double) (j : Z) (s : fit_state) :
  0 <= j ->
  backward_scan exp fuel obs dis n m j s
  = backward_scan exp fuel obs' dis n m j s.
Proof.
  intros Hj. unfold backward_scan.
  destruct (break_in_blocks dis n j (n - 1) (d_blk s)) as [db| |];
    cbn [bind]; auto.
  apply for_loop_ext_range. intros k t Hk.
  destruct (Hobs k Hk) as (mat & mat' & -> & -> & Hsame). cbn [bind].
  now rewrite (break_in_blocks_off_diagonal mat mat' n j (n - 1) (k_blk t)
                 Hsame) by lia.
Qed.

Lemma candidate_mask_diagonal (dis : list double) (fast : Z)
  (kb db : blocks double) (garbage : list double) :
  candidate_mask exp fuel obs dis n m fast kb db garbage
  = candidate_mask exp fuel obs' dis n m fast kb db garbage.
Proof.
  unfold candidate_mask. destruct (fast =? 0); [reflexivity | ].
  unfold remove_non_local_maxima, single_break_profile.
  rewrite (for_loop_ext_range 2 n (forward_scan exp fuel obs dis n m)
             (forward_scan exp fuel obs' dis n m))
    by (intros j t Hj; apply forward_scan_diagonal; lia).
  destruct (for_loop 2 n (forward_scan exp fuel obs' dis n m) _) as [s| |];
    cbn [bind]; auto.
  rewrite (for_loop_ext_range 3 (n - 3) (backward_scan exp fuel obs dis n m)
             (backward_scan exp fuel obs' dis n m))
    by (intros j t Hj; apply backward_scan_diagonal; lia).
  reflexivity.
Qed.

End Diagonal.

(** X14.  [tadbit] never reads the diagonal of the matrices of counts: on
    two lists of replicates that differ on the diagonals only it gives the
    same result, with [fast] on or off. *)
Theorem tadbit_ignores_diagonal (exp : double -> double) (fuel : nat)
  (obs obs' : list (list double)) (n m fast : Z) (kb db : blocks double)
  (gp gn : list double) :
  same_replicates obs obs' n m ->
  tadbit exp fuel obs n m fast kb db gp gn
  = tadbit exp fuel obs' n m fast kb db gp gn.
Proof.
  intros Hobs. unfold tadbit.
  rewrite (candidate_mask_diagonal exp fuel obs obs' n m Hobs).
  destruct (candidate_mask exp fuel obs' (distance_matrix n) n m fast kb db gp)
    as [[[mask kb'] db']| |]; cbn [bind]; auto.
  now rewrite (likelihood_matrix_diagonal exp fuel obs obs' n m Hobs).
Qed.

Lemma tadbit_ignores_diagonal_witness :
  same_replicates [two_domains 6 3] [two_domains_diagonal] 6 1 /\
  rd (two_domains 6 3) (2 + 2 * 6) = Done (of_int 20) /\
  rd two_domains_diagonal (2 + 2 * 6) = Done (of_int 1014) /\
  tadbit exp_c99 100 [two_domains_diagonal] 6 1 0 (blocks_of 6 NAN)
    (blocks_of 6 NAN) (repeat NAN 6) (repeat NAN 6)
  = Done [0; 0; 1; 0; 0; 0].
Proof.
  assert (H : same_replicates [two_domains 6 3] [two_domains_diagonal] 6 1).
  { intros k Hk. assert (k = 0) by lia. subst k.
    exists (two_domains 6 3), two_domains_diagonal.
    split; [reflexivity | ]. split; [reflexivity | ].
    intros row col Hr Hc Hne.
    assert (Er : row = 0 \/ row = 1 \/ row = 2 \/ row = 3 \/ row = 4 \/ row = 5)
      by lia.
    assert (Ec : col = 0 \/ col = 1 \/ col = 2 \/ col = 3 \/ col = 4 \/ col = 5)
      by lia.
    destruct Er as [-> | [-> | [-> | [-> | [-> | ->]]]]];
      destruct Ec as [-> | [-> | [-> | [-> | [-> | ->]]]]];
      try (exfalso; apply Hne; reflexivity); vm_compute; reflexivity. }
  split; [exact H | ]. split; [vm_compute; reflexivity | ].
  split; [vm_compute; reflexivity | ].
  rewrite <- (tadbit_ignores_diagonal exp_c99 100 [two_domains 6 3]
                [two_domains_diagonal] 6 1 0 (blocks_of 6 NAN)
                (blocks_of 6 NAN) (repeat NAN 6) (repeat NAN 6) H).
  exact tadbit_two_domains.
Defined.

(** ** A NaN among the counts *)

Lemma get_breakpoints_nan_total (llik : list double) (n : Z) (fuel : nat)
  (garbage : list double) :
  1 <= n -> len llik = n * n -> len garbage = n ->
  rd llik ((n - 1) * n) = Done NAN ->
  get_breakpoints fuel llik n garbage = Done (repeat 0 (Z.to_nat n)).
Proof.
  intros Hn Hl Hg Hnan. unfold get_breakpoints.
  destruct (dp_init_Done llik n Hn Hl garbage Hg)
    as (s0 & Hinit & Hinv0 & Hnb0 & _ & Hold0 & Hfull0 & Hof0).
  rewrite Hinit. cbn [bind].
  assert (Hol : old_bkpt_list s0 = repeat 0 (Z.to_nat (n * n))).
  { unfold dp_init in Hinit. bind_inv Hinit. bind_inv Hinit.
    now injection Hinit as <-. }
  assert (Hfull : new_full_llik s0 = NAN).
  { rewrite Hold0 in Hfull0 by lia. rewrite Hnan in Hfull0. congruence. }
  assert (Hloop : dp_loop fuel llik n s0 = Done s0).
  { destruct fuel; cbn [dp_loop]; rewrite Hfull;
      replace (dlt (old_full_llik s0) NAN) with false; try reflexivity;
      symmetry; destruct (dlt (old_full_llik s0) NAN) eqn:E; auto;
      apply dlt_not_nan in E; destruct E as [_ E]; discriminate. }
  rewrite Hloop. cbn [bind]. rewrite Hol.
  destruct (fill_Done n (fun i => rd (repeat 0 (Z.to_nat (n * n)))
                                    (n - 1 + i * n)))
    as (out & Hout & Hlen & Hrd).
  { lia. }
  { intros i Hi. rewrite rd_repeat by nia. eauto. }
  rewrite Hout. f_equal. apply rd_ext. intros p.
  destruct (Z_le_gt_dec 0 p) as [H0 | H0];
    [destruct (Z_lt_ge_dec p n) as [H1 | H1] | ].
  - rewrite Hrd by lia. rewrite !rd_repeat by nia. reflexivity.
  - rewrite !rd_outside; [reflexivity | rewrite len_repeat; lia | lia].
  - rewrite !rd_outside; [reflexivity | rewrite len_repeat; lia | lia].
Qed.

Section NanCount.
Variable exp : double -> double.
Variable fuel : nat.
Variables (obs : list (list double)) (dis : list double) (n m : Z).
Hypothesis Hn : 3 <= n.
Hypothesis Hobs : obs_ok obs n m.
Hypothesis Hdis : len dis = n * n.
(** The replicate [k0] holds a NaN above the diagonal, at the row [row] of
    the column [col]. *)
Variables (k0 row col : Z) (mat0 : list double).
Hypothesis Hk0 : 0 <= k0 < m.
Hypothesis Hmat0 : rd obs k0 = Done mat0.
Hypothesis Hrc : 0 <= row < col /\ col < n.
Hypothesis Hnan : rd mat0 (row + col * n) = Done NAN.

Lemma llik_replicate_nan (k : Z) (s s' : fit_state) :
  0 <= k < m -> fit_ok n (n * n) s ->
  (k0 < k -> rd (f_llik s) ((n - 1) * n) = Done NAN) ->
  llik_replicate exp fuel obs n 0 (n - 1) k s = Done s' ->
  fit_ok n (n * n) s' /\
  (k0 < k + 1 -> rd (f_llik s') ((n - 1) * n) = Done NAN).
Proof.
  intros Hk Hs Hprev Hrun.
  pose proof (llik_replicate_safely exp fuel obs n m Hobs 0 (n - 1) k s
                ltac:(lia) ltac:(lia) ltac:(lia) Hk Hs) as [_ Hok].
  split; [now apply Hok | ]. intros Hlt.
  destruct Hs as (Hd & Hkb & Hl).
  unfold llik_replicate in Hrun. bind_inv Hrun. rename x into mat, Hx into Hmat.
  destruct (Hobs k Hk) as (mat' & Hmat' & Hlen).
  rewrite Hmat in Hmat'. injection Hmat' as <-.
  destruct (break_in_blocks_segmented mat n 0 (n - 1) (k_blk s))
    as (kb & Hkb' & Hseg); try lia.
  { intros b. apply roomy_count; auto; lia. }
  rewrite Hkb' in Hrun. cbn [bind] in Hrun.
  bind_inv Hrun. destruct x as [l0 p0].
  bind_inv Hrun. destruct x as [l1 p1].
  bind_inv Hrun. destruct x as [l2 p2].
  bind_inv Hrun. rename x into cur, Hx2 into Hcur.
  bind_inv Hrun. injection Hrun as <-. cbn [f_llik].
  replace ((n - 1) * n) with (0 + (n - 1) * n) by lia.
  match goal with
  | H : wr _ _ _ = Done _ |- _ => rewrite (rd_wr_same _ _ _ _ H)
  end.
  f_equal. destruct (Z.eq_dec k k0) as [-> | Hne].
  - rewrite Hmat0 in Hmat. injection Hmat as <-.
    destruct Hseg as (Hin & _ & _ & Hlen').
    destruct (Hin Tri row col) as [Hpos Hval].
    { split; lia. }
    rewrite Hnan in Hval.
    rewrite (ml_ab_nan exp (tri kb) (tri (d_blk s))
               (Z.quot ((n - 1 - 0) * (n - 1 - 0 + 1)) 2)
               (block_pos Tri n 0 (n - 1) row col)) in Hx0.
    + injection Hx0 as <- _.
      now rewrite dadd_nan_r, dadd_nan_l, dadd_nan_r.
    + pose proof (roomy_count n 0 (n - 1) (k_blk s) Tri ltac:(lia) ltac:(lia)
                    ltac:(lia) Hkb) as C.
      rewrite <- (Hlen' Tri) in C. exact C.
    + apply (roomy_count n 0 (n - 1) (d_blk s) Tri); auto; lia.
    + exact Hpos.
    + left. exact Hval.
  - replace (0 + (n - 1) * n) with ((n - 1) * n) in Hcur by lia.
    rewrite Hprev in Hcur by lia. injection Hcur as <-.
    apply dadd_nan_l.
Qed.

Lemma llik_cell_nan (s s' : fit_state) :
  fit_ok n (n * n) s ->
  llik_cell exp fuel obs dis n m 0 (n - 1) s = Done s' ->
  rd (f_llik s') ((n - 1) * n) = Done NAN.
Proof.
  intros Hs Hrun. destruct Hs as (Hd & Hkb & Hl).
  unfold llik_cell in Hrun. bind_inv Hrun. rename x into db, Hx into Hdb.
  bind_inv Hrun. rename x into ll, Hx into Hll.
  pose proof (break_in_blocks_safely dis n 0 (n - 1) (d_blk s) ltac:(lia)
                ltac:(lia) ltac:(lia) Hdis Hd) as [_ Hroomy].
  specialize (Hroomy db Hdb).
  apply (for_loop_inv
    (fun k t => fit_ok n (n * n) t /\
                (k0 < k -> rd (f_llik t) ((n - 1) * n) = Done NAN)) 0 m)
    in Hrun.
  - apply Hrun. lia.
  - lia.
  - split; [ | intros; lia]. split; [exact Hroomy | ]. split; [exact Hkb | ].
    cbn [f_llik]. rewrite (wr_len _ _ _ _ Hll). exact Hl.
  - intros k t t' Hk [Ht Hprev] Hbody.
    now apply (llik_replicate_nan k t t').
Qed.

Lemma llik_row_keeps_nan (bkpts : list Z) (i : Z) (s s' : fit_state) :
  1 <= i ->
  rd (f_llik s) ((n - 1) * n) = Done NAN ->
  llik_row exp fuel obs dis n m bkpts i s = Done s' ->
  rd (f_llik s') ((n - 1) * n) = Done NAN.
Proof.
  intros Hi Hs Hrun. unfold llik_row in Hrun. bind_inv Hrun.
  destruct x; [now injection Hrun as <- | ].
  destruct (Z_le_gt_dec (i + 2) n) as [Hle | Hgt].
  - apply (for_loop_inv
      (fun _ t => rd (f_llik t) ((n - 1) * n) = Done NAN) (i + 2) n) in Hrun;
      auto.
    intros j t t' Hj Ht Hbody. bind_inv Hbody.
    destruct (negb (x =? 1)); [now injection Hbody as <- | ].
    destruct (llik_cell_Done exp fuel obs dis n m i j t t' Hbody)
      as (_ & Hfr & _).
    rewrite Hfr; [exact Ht | ].
    replace ((n - 1) * n) with (0 + (n - 1) * n) by lia.
    intros E. apply index_inj in E; lia.
  - rewrite for_loop_empty in Hrun by lia. now injection Hrun as <-.
Qed.

Lemma likelihood_matrix_nan (bkpts : list Z) (s s' : fit_state) :
  len bkpts = n -> rd bkpts (n - 1) = Done 1 -> fit_ok n (n * n) s ->
  likelihood_matrix exp fuel obs dis n m bkpts s = Done s' ->
  len (f_llik s') = n * n /\ rd (f_llik s') ((n - 1) * n) = Done NAN.
Proof.
  intros Hb Hlast Hs Hrun.
  pose proof (likelihood_matrix_safely exp fuel obs n m Hobs dis bkpts s
                Hdis Hb Hs) as [_ Hok].
  destruct (Hok s' Hrun) as (_ & _ & Hlen). split; [exact Hlen | ].
  unfold likelihood_matrix in Hrun. rewrite for_loop_step in Hrun by lia.
  bind_inv Hrun. rename x into s1, Hx into Hrow.
  assert (H1 : rd (f_llik s1) ((n - 1) * n) = Done NAN).
  { unfold llik_row in Hrow. cbn [Z.ltb bind] in Hrow.
    replace (0 + 2) with 2 in Hrow by lia.
    apply (for_loop_inv
      (fun j t => fit_ok n (n * n) t /\
                  (n - 1 < j -> rd (f_llik t) ((n - 1) * n) = Done NAN)) 2 n)
      in Hrow.
    - apply Hrow. lia.
    - lia.
    - split; [exact Hs | intros; lia].
    - intros j t t' Hj [Ht _] Hbody.
      pose proof Hbody as Hbody'. bind_inv Hbody.
      destruct (Z.eq_dec j (n - 1)) as [-> | Hne].
      + rewrite Hlast in Hx. injection Hx as <-. cbn [Z.eqb negb] in Hbody.
        split; [ | intros _; now apply (llik_cell_nan t t')].
        apply (llik_cell_safely exp fuel obs n m Hobs dis 0 (n - 1) t Hdis
                 ltac:(lia) ltac:(lia) ltac:(lia) Ht). exact Hbody.
      + split; [ | intros; lia].
        destruct (negb (x =? 1)); [now injection Hbody as <- | ].
        apply (llik_cell_safely exp fuel obs n m Hobs dis 0 j t Hdis
                 ltac:(lia) ltac:(lia) ltac:(lia) Ht). exact Hbody. }
  destruct (Z_le_gt_dec (0 + 1) (n - 2)) as [Hle | Hgt].
  - apply (for_loop_inv
      (fun _ t => rd (f_llik t) ((n - 1) * n) = Done NAN) (0 + 1) (n - 2))
      in Hrun; auto.
    intros i t t' Hi Ht Hbody. apply (llik_row_keeps_nan bkpts i t t'); auto.
    lia.
  - rewrite for_loop_empty in Hrun by lia. now injection Hrun as <-.
Qed.

End NanCount.

Lemma candidate_mask_last (exp : double -> double) (fuel : nat)
  (obs : list (list double)) (dis : list double) (n m fast : Z)
  (kb db kb' db' : blocks double) (garbage : list double) (mask : list Z) :
  1 <= n -> len garbage = n ->
  candidate_mask exp fuel obs dis n m fast kb db garbage
  = Done (mask, kb', db') ->
  rd mask (n - 1) = Done 1.
Proof.
  intros Hn Hg H. unfold candidate_mask in H. destruct (fast =? 0).
  - injection H as <- _ _. apply rd_repeat. lia.
  - unfold remove_non_local_maxima in H. bind_inv H. bind_inv H.
    injection H as <- _ _.
    pose proof (single_break_profile_len exp fuel _ _ _ _ _ _ _ _ Hx) as Hl.
    destruct (mark_local_maxima_Done n (f_llik x) (repeat 1 (Z.to_nat n)))
      as (bk & Hbk & _ & Hlast & _); try lia.
    { rewrite len_repeat. lia. }
    rewrite Hbk in Hx0. now injection Hx0 as <-.
Qed.

(** X15.  A single NaN among the counts above the diagonal (at the index
    [row + col*n] with [row < col]) of one replicate makes the entry
    [(0, n-1)] of the likelihood matrix NaN, so that [get_breakpoints]
    returns without making a round (with no budget of rounds at all):
    [tadbit], whenever it returns, returns no breakpoint, with [fast] on
    or off. *)
Theorem tadbit_nan_count_no_breakpoint (exp : double -> double) (fuel : nat)
  (obs : list (list double)) (n m fast : Z) (kb db : blocks double)
  (gp gn : list double) (k0 row col : Z) (mat0 : list double)
  (out : list Z) :
  1 <= n -> obs_ok obs n m -> roomy n kb -> roomy n db ->
  len gp = n -> len gn = n ->
  0 <= k0 < m -> rd obs k0 = Done mat0 ->
  0 <= row < col -> col < n -> rd mat0 (row + col * n) = Done NAN ->
  tadbit exp fuel obs n m fast kb db gp gn = Done out ->
  out = repeat 0 (Z.to_nat n) /\
  exists mask kb' db' s,
    candidate_mask exp fuel obs (distance_matrix n) n m fast kb db gp
    = Done (mask, kb', db') /\
    likelihood_matrix exp fuel obs (distance_matrix n) n m mask
      (mkFit db' kb' (d0, d0) (d0, d0) (d0, d0)
         (repeat NAN (Z.to_nat (n * n)))) = Done s /\
    rd (f_llik s) (0 + (n - 1) * n) = Done NAN /\
    get_breakpoints 0 (f_llik s) n gn = Done out.
Proof.
  intros Hn Hobs Hkb Hdb Hgp Hgn Hk0 Hmat0 Hrow Hcol Hnan Hrun.
  unfold tadbit in Hrun. bind_inv Hrun. destruct x as [[mask kb'] db'].
  bind_inv Hrun. rename x into s, Hx into Hmask, Hx0 into Hmat.
  pose proof (len_distance_matrix n ltac:(lia)) as Hdis.
  pose proof (candidate_mask_safely exp fuel obs n m Hobs (distance_matrix n)
                fast kb db gp Hn Hdis Hkb Hdb Hgp) as [_ Hm].
  destruct (Hm _ Hmask) as (Hlm & Hkb' & Hdb').
  assert (Hs0 : fit_ok n (n * n)
                  (mkFit db' kb' (d0, d0) (d0, d0) (d0, d0)
                     (repeat NAN (Z.to_nat (n * n))))).
  { split; [exact Hdb' | ]. split; [exact Hkb' | ].
    cbn [f_llik]. rewrite len_repeat. nia. }
  assert (Hentry : len (f_llik s) = n * n /\
                   rd (f_llik s) ((n - 1) * n) = Done NAN).
  { destruct (Z_le_gt_dec 3 n) as [H3 | H3].
    - apply (likelihood_matrix_nan exp fuel obs (distance_matrix n) n m H3
                Hobs Hdis k0 row col mat0 Hk0 Hmat0 ltac:(lia) Hnan mask _ s
                Hlm (candidate_mask_last _ _ _ _ _ _ _ _ _ _ _ _ _ Hn Hgp
                       Hmask) Hs0 Hmat).
    - unfold likelihood_matrix in Hmat.
      rewrite for_loop_empty in Hmat by lia. injection Hmat as <-.
      cbn [f_llik]. split; [rewrite len_repeat; nia | ].
      apply rd_repeat. nia. }
  destruct Hentry as [Hlen Htop].
  pose proof (get_breakpoints_nan_total (f_llik s) n fuel gn Hn Hlen Hgn Htop)
    as Hz.
  rewrite Hz in Hrun. injection Hrun as <-.
  split; [reflexivity | ].
  exists mask, kb', db', s. split; [exact Hmask | ]. split; [exact Hmat | ].
  split; [replace (0 + (n - 1) * n) with ((n - 1) * n) by lia; exact Htop | ].
  apply get_breakpoints_nan_total; auto.
Qed.

Lemma tadbit_nan_count_no_breakpoint_witness :
  rd two_domains_nan (2 + 3 * 6) = Done NAN /\
  tadbit exp_c99 100 [two_domains 6 3] 6 1 0 (blocks_of 6 NAN)
    (blocks_of 6 NAN) (repeat NAN 6) (repeat NAN 6)
  = Done [0; 0; 1; 0; 0; 0] /\
  [0; 0; 0; 0; 0; 0] = repeat 0 (Z.to_nat 6) /\
  exists mask kb' db' s,
    candidate_mask exp_c99 100 [two_domains_nan] (distance_matrix 6) 6 1 0
      (blocks_of 6 NAN) (blocks_of 6 NAN) (repeat NAN 6)
    = Done (mask, kb', db') /\
    likelihood_matrix exp_c99 100 [two_domains_nan] (distance_matrix 6) 6 1
      mask
      (mkFit db' kb' (d0, d0) (d0, d0) (d0, d0)
         (repeat NAN (Z.to_nat (6 * 6)))) = Done s /\
    rd (f_llik s) (0 + (6 - 1) * 6) = Done NAN /\
    get_breakpoints 0 (f_llik s) 6 (repeat NAN 6) = Done [0; 0; 0; 0; 0; 0].
Proof.
  split; [reflexivity | ]. split; [exact tadbit_two_domains | ].
  apply (tadbit_nan_count_no_breakpoint exp_c99 100 [two_domains_nan] 6 1 0
           (blocks_of 6 NAN) (blocks_of 6 NAN) (repeat NAN 6) (repeat NAN 6)
           0 2 3 two_domains_nan [0; 0; 0; 0; 0; 0]);
    [lia | apply obs_ok_one; reflexivity | apply roomy_blocks_of; lia
     | apply roomy_blocks_of; lia | reflexivity | reflexivity | lia
     | reflexivity | lia | lia | reflexivity | exact nan_count_run].
Defined.
